(** * googleTimeline: distance per country per day

    A shallow embedding of [main.go]: the E7 coordinate conversion, the
    country lookup against the reverse-geocoding service, the loop that
    accumulates kilometres per country and per day, and the writing of
    the report, followed by the properties of the specification.

    Go's [float64] is Rocq's primitive binary64 [float]; Go's [int] and
    [int64] are [Z]; a Go [string] is a [string] of bytes; the map
    [map[string]map[string]float64] is a [gmap string (gmap string float)].
    The world outside the program (the HTTP service, the order in which
    the runtime ranges over a map, the output file) is passed in
    explicitly. *)

From Stdlib Require Import ZArith Floats Ascii String DecimalString Lia.
From stdpp Require Import gmap strings list fin_maps.

Set Warnings "-inexact-float".

Open Scope Z_scope.

(** ** The JSON structure *)

Record Location := {
  LatitudeE7 : Z;
  LongitudeE7 : Z
}.

(** The anonymous struct of the field [Duration]. *)
Record DurationT := {
  StartTimestamp : string
}.

Record ActivitySegment := {
  StartLocation : Location;
  EndLocation : Location;
  Distance : Z;   (* Distance in meters *)
  Duration : DurationT
}.

(** [ActivitySegmentPtr] is the pointer field [ActivitySegment]: [None]
    is the nil pointer of an object without the key. *)
Record TimelineObject := {
  ActivitySegmentPtr : option ActivitySegment
}.

Record TimelineData := {
  TimelineObjects : list TimelineObject
}.

(** ** float64 *)

(** The conversion [float64(n)] of an integer: the nearest binary64
    value, ties to even. *)
Definition float64_of_int (n : Z) : float :=
  SF2Prim (binary_normalize prec emax n 0 false).

(** Helper function to convert E7 lat/lng to float64. *)
Definition toFloatCoord (coordE7 : Z) : float :=
  (float64_of_int coordE7 / 1e7)%float.

(** ** fmt: the verbs [%f] and [%.2f] *)

Definition round_half_even (num den : Z) : Z :=
  let q := num / den in
  match 2 * (num mod den) ?= den with
  | Lt => q
  | Gt => q + 1
  | Eq => if Z.even q then q else q + 1
  end.

Definition decimal (n : Z) : string :=
  NilZero.string_of_uint (N.to_uint (Z.to_N n)).

Fixpoint zeros (n : nat) : string :=
  match n with
  | O => EmptyString
  | S n' => String "0"%char (zeros n')
  end.

Definition pad_left (width : nat) (s : string) : string :=
  (zeros (width - String.length s) ++ s)%string.

(** [q] is the value scaled by [10 ^ digits_after]. *)
Definition fixed (digits_after : nat) (q : Z) : string :=
  let p := 10 ^ Z.of_nat digits_after in
  match digits_after with
  | O => decimal q
  | _ => (decimal (q / p) ++ "." ++ pad_left digits_after (decimal (q mod p)))%string
  end.

(** [fmt_f p x] is [fmt.Sprintf("%.pf", x)]: the exact binary value,
    rounded to [p] decimals, halves to even. *)
Definition fmt_f (p : nat) (x : float) : string :=
  let sign (s : bool) : string := if s then "-"%string else ""%string in
  match Prim2SF x with
  | S754_nan => "NaN"%string
  | S754_infinity s => if s then "-Inf"%string else "+Inf"%string
  | S754_zero s => (sign s ++ fixed p 0)%string
  | S754_finite s m e =>
      let scaled :=
        if 0 <=? e then Z.pos m * 2 ^ e * 10 ^ Z.of_nat p
        else round_half_even (Z.pos m * 10 ^ Z.of_nat p) (2 ^ (- e)) in
      (sign s ++ fixed p scaled)%string
  end.

(** ** net/url: the request *)

Definition hex_digit (n : N) : ascii :=
  ascii_of_N (if (n <? 10)%N then 48 + n else 55 + n)%N.

Definition unreserved (c : ascii) : bool :=
  let n := N_of_ascii c in
  ((48 <=? n) && (n <=? 57) || (65 <=? n) && (n <=? 90) || (97 <=? n) && (n <=? 122)
   || (n =? 45) || (n =? 95) || (n =? 46) || (n =? 126))%N.

(** [url.QueryEscape]. *)
Fixpoint QueryEscape (s : string) : string :=
  match s with
  | EmptyString => EmptyString
  | String c rest =>
      if unreserved c then String c (QueryEscape rest)
      else if (N_of_ascii c =? 32)%N then String "+"%char (QueryEscape rest)
      else String "%"%char (String (hex_digit (N_of_ascii c / 16))
             (String (hex_digit (N_of_ascii c mod 16)) (QueryEscape rest)))
  end.

Definition baseURL : string := "https://nominatim.openstreetmap.org/reverse".

(** [u.String()] once [u.RawQuery = params.Encode()]: [Encode] writes the
    keys in sorted order. *)
Definition request_url (lat lng : float) : string :=
  (baseURL ++ "?format=" ++ QueryEscape "json"
     ++ "&lat=" ++ QueryEscape (fmt_f 6 lat)
     ++ "&lon=" ++ QueryEscape (fmt_f 6 lng)
     ++ "&zoom=" ++ QueryEscape "3")%string.

(** ** The country lookup *)

(** A Go [error]: one interface type, the value carries its message. *)
Record error := { Error : string }.

(** What comes back for one GET: [client.Get] fails (no connection, the
    ten seconds are over), or the body does not decode into the result
    struct, or it decodes; a body without [address.country_code] leaves
    the field at its zero value, the empty string. *)
Inductive http_reply :=
  | GetFailed (err : error)
  | DecodeFailed (err : error)
  | Decoded (CountryCode : string).

(** The service: the reply to the [k]-th request of the run, given its URL. *)
Definition network := nat -> string -> http_reply.

Definition is_empty (s : string) : bool :=
  match s with
  | EmptyString => true
  | _ => false
  end.

(** Function to call Nominatim API and get country code from
    latitude/longitude.  [reqs] are the requests sent so far; the result
    is Go's pair [(string, error)], [None] for the nil error, and the
    requests sent.  [url.Parse] of the constant [baseURL] succeeds, so
    its error branch is not reached. *)
Definition getCountryCode (net : network) (reqs : list string) (lat lng : float)
  : (string * option error) * list string :=
  let u := request_url lat lng in
  let reqs' := reqs ++ [u] in
  match net (length reqs) u with
  | GetFailed err => ((EmptyString, Some err), reqs')
  | DecodeFailed err => ((EmptyString, Some err), reqs')
  | Decoded CountryCode =>
      if negb (is_empty CountryCode) then ((CountryCode, None), reqs')
      else ((EmptyString,
             Some {| Error := ("no country found for lat: " ++ fmt_f 6 lat
                               ++ ", lng: " ++ fmt_f 6 lng)%string |}), reqs')
  end.

(** ** Package time

    [time.Parse(time.RFC3339, value)] and [Time.Format("2006-01-02")] as
    the Go library computes them (the library of Go 1.20 to 1.22): a
    [Time] is an instant, kept as seconds since the Unix epoch, with the
    offset of its location; [Parse] turns the fields it read into the
    instant, [Format] turns the instant back into a civil date. *)

Module time.

(** The parser's error monad: stdpp's monad notations at [E + A]. *)
Definition result (E A : Type) : Type := (E + A)%type.

Definition ret {E A} (a : A) : result E A := inr a.
Definition fail {E A} (e : E) : result E A := inl e.

#[export] Instance result_bind {E} : MBind (result E) :=
  fun A B (k : A -> result E B) (r : result E A) =>
    match r with
    | inl e => inl e
    | inr a => k a
    end.

Definition uint64 (x : Z) : Z := x mod 2 ^ 64.
Definition int64 (x : Z) : Z := (x + 2 ^ 63) mod 2 ^ 64 - 2 ^ 63.

Definition secondsPerMinute : Z := 60.
Definition secondsPerHour : Z := 60 * secondsPerMinute.
Definition secondsPerDay : Z := 24 * secondsPerHour.
Definition daysPer400Years : Z := 365 * 400 + 97.
Definition daysPer100Years : Z := 365 * 100 + 24.
Definition daysPer4Years : Z := 365 * 4 + 1.

Definition absoluteZeroYear : Z := -292277022399.
Definition internalYear : Z := 1.
(** [(absoluteZeroYear - internalYear) * 365.2425 * secondsPerDay] *)
Definition absoluteToInternal : Z := (absoluteZeroYear - internalYear) * 31556952.
Definition internalToAbsolute : Z := - absoluteToInternal.
Definition unixToInternal : Z :=
  (1969 * 365 + 1969 / 4 - 1969 / 100 + 1969 / 400) * secondsPerDay.
Definition internalToUnix : Z := - unixToInternal.

Definition January : Z := 1.
Definition February : Z := 2.
Definition March : Z := 3.

(** [daysBefore[m]] counts the number of days in a non-leap year before
    month [m] begins; there is an entry for [m = 12]. *)
Definition daysBefore : list Z :=
  [0; 31; 31 + 28; 31 + 28 + 31; 31 + 28 + 31 + 30; 31 + 28 + 31 + 30 + 31;
   31 + 28 + 31 + 30 + 31 + 30; 31 + 28 + 31 + 30 + 31 + 30 + 31;
   31 + 28 + 31 + 30 + 31 + 30 + 31 + 31;
   31 + 28 + 31 + 30 + 31 + 30 + 31 + 31 + 30;
   31 + 28 + 31 + 30 + 31 + 30 + 31 + 31 + 30 + 31;
   31 + 28 + 31 + 30 + 31 + 30 + 31 + 31 + 30 + 31 + 30;
   31 + 28 + 31 + 30 + 31 + 30 + 31 + 31 + 30 + 31 + 30 + 31].

Definition daysBefore_at (m : Z) : Z := nth (Z.to_nat m) daysBefore 0.

(** Go's [%] truncates towards zero: [Z.rem]. *)
Definition isLeap (year : Z) : bool :=
  (Z.rem year 4 =? 0) && (negb (Z.rem year 100 =? 0) || (Z.rem year 400 =? 0)).

Definition daysIn (m year : Z) : Z :=
  if (m =? February) && isLeap year then 29
  else daysBefore_at m - daysBefore_at (m - 1).

(** [daysSinceEpoch] takes a year and returns the number of days from the
    absolute epoch to the start of that year. *)
Definition daysSinceEpoch (year : Z) : Z :=
  let y := uint64 (int64 year - absoluteZeroYear) in
  (* Add in days from 400-year cycles. *)
  let n := y / 400 in
  let y := y - 400 * n in
  let d := daysPer400Years * n in
  (* Add in 100-year cycles. *)
  let n := y / 100 in
  let y := y - 100 * n in
  let d := d + daysPer100Years * n in
  (* Add in 4-year cycles. *)
  let n := y / 4 in
  let y := y - 4 * n in
  let d := d + daysPer4Years * n in
  (* Add in non-leap years. *)
  let n := y in
  uint64 (d + 365 * n).

(** [norm] returns [nhi, nlo] such that [hi * base + lo == nhi * base + nlo]
    and [0 <= nlo < base]. *)
Definition norm (hi lo base : Z) : Z * Z :=
  let '(hi, lo) :=
    if lo <? 0 then
      let n := Z.quot (- lo - 1) base + 1 in (hi - n, lo + n * base)
    else (hi, lo) in
  if lo >=? base then
    let n := Z.quot lo base in (hi + n, lo - n * base)
  else (hi, lo).

(** A [Time]: the instant as seconds since January 1, 1970 UTC and the
    nanoseconds within the second, and the location, here the number of
    seconds east of UTC that the location has at this instant ([UTC] is
    offset 0). *)
Record Time := {
  unixSec : Z;
  nsec : Z;
  offset : Z
}.

(** [Date(year, month, day, hour, min, sec, nsec, UTC)]. *)
Definition Date (year month day hour min sec nsec : Z) : Time :=
  (* Normalize month, overflowing into year. *)
  let m := month - 1 in
  let '(year, m) := norm year m 12 in
  let month := m + 1 in
  (* Normalize nsec, sec, min, hour, overflowing into day. *)
  let '(sec, nsec) := norm sec nsec 1000000000 in
  let '(min, sec) := norm min sec 60 in
  let '(hour, min) := norm hour min 60 in
  let '(day, hour) := norm day hour 24 in
  (* Compute days since the absolute epoch. *)
  let d := daysSinceEpoch year in
  (* Add in days before this month. *)
  let d := d + daysBefore_at (month - 1) in
  let d := if isLeap year && (month >=? March) then d + 1 (* February 29 *) else d in
  (* Add in days before today. *)
  let d := d + uint64 (day - 1) in
  (* Add in time elapsed today. *)
  let abs := d * secondsPerDay in
  let abs := uint64 (abs + uint64 (hour * secondsPerHour + min * secondsPerMinute + sec)) in
  let unix := int64 (int64 abs + (absoluteToInternal + internalToUnix)) in
  {| unixSec := unix; nsec := nsec; offset := 0 |}.

(** [absDate(abs, false)]: the year and the day of the year, from zero,
    of an absolute time. *)
Definition absYearDay (abs : Z) : Z * Z :=
  (* Split into time and day. *)
  let d := abs / secondsPerDay in
  (* Account for 400 year cycles. *)
  let n := d / daysPer400Years in
  let y := 400 * n in
  let d := d - daysPer400Years * n in
  (* Cut off 100-year cycles.  The last cycle has one extra leap year, so
     on the last day of that year, day / daysPer100Years will be 4
     instead of 3.  Cut it off by subtracting n>>2. *)
  let n := d / daysPer100Years in
  let n := n - Z.shiftr n 2 in
  let y := y + 100 * n in
  let d := d - daysPer100Years * n in
  (* Cut off 4-year cycles.  The last cycle has a missing leap year,
     which does not affect the computation. *)
  let n := d / daysPer4Years in
  let y := y + 4 * n in
  let d := d - daysPer4Years * n in
  (* Cut off years within a 4-year cycle.  The last year is a leap year,
     so on the last day of that year, day / 365 will be 4 instead of 3.
     Cut it off by subtracting n>>2. *)
  let n := d / 365 in
  let n := n - Z.shiftr n 2 in
  let y := y + n in
  let d := d - 365 * n in
  (int64 (int64 y + absoluteZeroYear), d).

(** The rest of [absDate(abs, true)]: month and day of the month from
    the day of the year; [leap] is [isLeap(year)]. *)
Definition monthDay (leap : bool) (yday : Z) : Z * Z :=
  let day := yday in
  if leap && (day =? 31 + 29 - 1) then
    (* Leap day. *)
    (February, 29)
  else
    (* After leap day; pretend it wasn't there. *)
    let day := if leap && (day >? 31 + 29 - 1) then day - 1 else day in
    (* Estimate month on assumption that every month has 31 days.  The
       estimate may be too low by at most one month, so adjust. *)
    let month := day / 31 in
    let end_ := daysBefore_at (month + 1) in
    let '(month, begin) :=
      if day >=? end_ then (month + 1, end_) else (month, daysBefore_at month) in
    let month := month + 1 (* because January is 1 *) in
    let day := day - begin + 1 in
    (month, day).

(** [absDate] is like [date] but operates on an absolute time. *)
Definition absDate (abs : Z) : Z * Z * Z :=
  let '(year, yday) := absYearDay abs in
  let '(month, day) := monthDay (isLeap year) yday in
  (year, month, day).

(** [t.abs()]: the time as an absolute time, adjusted by the zone offset. *)
Definition abs (t : Time) : Z :=
  uint64 (unixSec t + offset t + (unixToInternal + internalToAbsolute)).

(** [appendInt] appends the decimal form of [x], with zero-padding to
    [width] digits. *)
Definition appendInt (x : Z) (width : nat) : string :=
  ((if (x <? 0)%Z then "-" else "") ++ pad_left width (decimal (Z.abs x)))%string.

(** [t.Format("2006-01-02")]: year, month and day of the time in its own
    location. *)
Definition Format_2006_01_02 (t : Time) : string :=
  let '(year, month, day) := absDate (abs t) in
  (appendInt year 4 ++ "-" ++ appendInt month 2 ++ "-" ++ appendInt day 2)%string.

(** The ways [Parse] fails; in Go each is a [*ParseError] with its text. *)
Inductive ParseError :=
  | errBad                      (* cannot parse ... as ... *)
  | errRange (what : string)    (* ...: <what> out of range *)
  | errExtraText                (* ...: extra text: ... *)
  | errDayOutOfRange.           (* ...: day out of range *)

Definition RFC3339 : string := "2006-01-02T15:04:05Z07:00".

Definition isDigit (c : ascii) : bool :=
  ((48 <=? N_of_ascii c) && (N_of_ascii c <=? 57))%N.

Definition digit (c : ascii) : Z := Z.of_N (N_of_ascii c) - 48.

(** [getnum] parses [s[0:1]] or [s[0:2]] (fixed forces [s[0:2]]) as a
    decimal integer and returns the integer and the remainder of the
    string. *)
Definition getnum (s : string) (fixed : bool) : result ParseError (Z * string) :=
  match s with
  | String c0 rest =>
      if isDigit c0 then
        match rest with
        | String c1 rest' =>
            if isDigit c1 then ret (digit c0 * 10 + digit c1, rest')
            else if fixed then fail errBad else ret (digit c0, rest)
        | EmptyString => if fixed then fail errBad else ret (digit c0, rest)
        end
      else fail errBad
  | EmptyString => fail errBad
  end.

(** [skip] removes the given prefix from [value]; the prefixes of the
    layout are single bytes. *)
Definition skip (value : string) (prefix : ascii) : result ParseError string :=
  match value with
  | String c rest => if Ascii.eqb c prefix then ret rest else fail errBad
  | EmptyString => fail errBad
  end.

(** The chunk [2006]: four bytes, all digits. *)
Definition getyear (value : string) : result ParseError (Z * string) :=
  match value with
  | String a (String b (String c (String d rest))) =>
      if isDigit a && isDigit b && isDigit c && isDigit d
      then ret (digit a * 1000 + digit b * 100 + digit c * 10 + digit d, rest)
      else fail errBad
  | _ => fail errBad
  end.

Definition commaOrPeriod (c : ascii) : bool :=
  Ascii.eqb c "." || Ascii.eqb c ",".

(** The digits at the head of [s], and what follows them. *)
Fixpoint leading_digits (s : string) : string * string :=
  match s with
  | String c rest =>
      if isDigit c then
        let '(ds, rest') := leading_digits rest in (String c ds, rest')
      else (EmptyString, s)
  | EmptyString => (EmptyString, EmptyString)
  end.

Fixpoint atoi_from (acc : Z) (s : string) : Z :=
  match s with
  | String c rest => atoi_from (acc * 10 + digit c) rest
  | EmptyString => acc
  end.

(** [parseNanoseconds]: at most nine digits count, scaled to nanoseconds. *)
Definition parseNanoseconds (digits : string) : Z :=
  let ds := String.substring 0 9 digits in
  atoi_from 0 ds * 10 ^ (9 - Z.of_nat (String.length ds)).

(** A fractional second in the input although the layout has none: a
    comma or period followed by a digit, and all the digits after it. *)
Definition fraction (value : string) : Z * string :=
  match value with
  | String sep (String c1 rest) =>
      if commaOrPeriod sep && isDigit c1 then
        let '(ds, rest') := leading_digits (String c1 rest) in
        (parseNanoseconds ds, rest')
      else (0, value)
  | _ => (0, value)
  end.

(** The chunk [Z07:00]: the letter Z, or a sign, two digits, a colon and
    two digits.  The result is the offset in seconds. *)
Definition getzone (value : string) : result ParseError (Z * string) :=
  match value with
  | String c0 rest0 =>
      if Ascii.eqb c0 "Z" then ret (0, rest0) else
      match rest0 with
      | String h1 (String h2 (String colon (String m1 (String m2 rest)))) =>
          if negb (Ascii.eqb colon ":") then fail errBad else
          let hr_r := getnum (String h1 (String h2 EmptyString)) true in
          let mm_r := _ ← hr_r; getnum (String m1 (String m2 EmptyString)) true in
          let hr := match hr_r with inr (n, _) => n | inl _ => 0 end in
          let mm := match mm_r with inr (n, _) => n | inl _ => 0 end in
          (* The range test use > rather than >=, as some people do write
             offsets of 24 hours or 60 minutes or 60 seconds. *)
          if mm >? 60 then fail (errRange "time zone offset minute") else
          if hr >? 24 then fail (errRange "time zone offset hour") else
          _ ← mm_r;
          let zoneOffset := (hr * 60 + mm) * 60 + 0 (* offset is in seconds *) in
          if Ascii.eqb c0 "+" then ret (zoneOffset, rest)
          else if Ascii.eqb c0 "-" then ret (- zoneOffset, rest)
          else fail errBad
      | _ => fail errBad
      end
  | EmptyString => fail errBad
  end.

(** [time.Parse(time.RFC3339, value)].  The offset read is the offset of
    the time's location: the local zone when it has this offset at this
    instant, a fabricated zone fixed at the offset otherwise, UTC for Z. *)
Definition Parse_RFC3339 (value : string) : result ParseError Time :=
  '(year, value) ← getyear value;
  value ← skip value "-";
  '(month, value) ← getnum value true;
  if (month <=? 0) || (12 <? month) then fail (errRange "month") else
  value ← skip value "-";
  (* Any two-digit day here; month, day and year are validated together
     once parsing is complete. *)
  '(day, value) ← getnum value true;
  value ← skip value "T";
  '(hour, value) ← getnum value false;
  if (hour <? 0) || (24 <=? hour) then fail (errRange "hour") else
  value ← skip value ":";
  '(min, value) ← getnum value true;
  if (min <? 0) || (60 <=? min) then fail (errRange "minute") else
  value ← skip value ":";
  '(sec, value) ← getnum value true;
  if (sec <? 0) || (60 <=? sec) then fail (errRange "second") else
  let '(nsec, value) := fraction value in
  '(zoneOffset, value) ← getzone value;
  if negb (is_empty value) then fail errExtraText else
  (* Validate the day of the month. *)
  if (day <? 1) || (daysIn month year <? day) then fail errDayOutOfRange else
  let t := Date year month day hour min sec nsec in
  ret {| unixSec := int64 (unixSec t - zoneOffset);
         nsec := time.nsec t;
         offset := zoneOffset |}.

End time.

(** ** main: the loop over the timeline objects *)

(** What [main] prints on standard output, by [Printf] call and arguments. *)
Inductive print :=
  | PrintReadError (err : error)
      (* "Error reading JSON file: %v\n" *)
  | PrintJSONError (err : error)
      (* "Error parsing JSON file: %v\n" *)
  | PrintCountryError (lat lng : float) (err : error)
      (* "Error getting country for lat: %f, lng: %f - %v\n" *)
  | PrintTimestampError (err : time.ParseError)
      (* "Error parsing startTimestamp: %v\n" *)
  | PrintCreateError (err : error)
      (* "Error creating output file: %v\n" *)
  | PrintSaved (outputFilename : string).
      (* "Distance report saved to %s\n" *)

(** The state the loop works on: the map of total distance per country
    per day, the requests sent to the service, the lines printed. *)
Record state := {
  countryDistancesByDay : gmap string (gmap string float);
  requests : list string;
  stdout : list print
}.

Definition init : state :=
  {| countryDistancesByDay := ∅; requests := []; stdout := [] |}.

(** One iteration of [for _, obj := range timeline.TimelineObjects]. *)
Definition loop_body (net : network) (st : state) (obj : TimelineObject) : state :=
  match ActivitySegmentPtr obj with
  | Some seg =>
      let startLat := toFloatCoord (LatitudeE7 (StartLocation seg)) in
      let startLng := toFloatCoord (LongitudeE7 (StartLocation seg)) in
      (* Get the country code for the start location using Nominatim API *)
      let '((startCountry, err), reqs) :=
        getCountryCode net (requests st) startLat startLng in
      match err with
      | Some err =>
          {| countryDistancesByDay := countryDistancesByDay st;
             requests := reqs;
             stdout := stdout st ++ [PrintCountryError startLat startLng err] |}
      | None =>
          (* Parse the startTimestamp to extract the date *)
          match time.Parse_RFC3339 (StartTimestamp (Duration seg)) with
          | inl err =>
              {| countryDistancesByDay := countryDistancesByDay st;
                 requests := reqs;
                 stdout := stdout st ++ [PrintTimestampError err] |}
          | inr startTime =>
              let date := time.Format_2006_01_02 startTime in
              (* Initialize map for the country if not already initialized *)
              let m := countryDistancesByDay st in
              let m :=
                match m !! startCountry with
                | None => <[startCountry := ∅]> m
                | Some _ => m
                end in
              (* Add the distance to the respective country and date *)
              let dateDistances := default ∅ (m !! startCountry) in
              let total :=
                (default 0 (dateDistances !! date)
                 + float64_of_int (Distance seg) / 1000.0)%float in
              {| countryDistancesByDay :=
                   <[startCountry := <[date := total]> dateDistances]> m;
                 requests := reqs;
                 stdout := stdout st |}
          end
      end
  | None => st
  end.

Definition main_loop (net : network) (st : state) (objs : list TimelineObject) : state :=
  foldl (loop_body net) st objs.

(** ** main: writing the report *)

(** The order in which the runtime visits a map in a [range] loop is its
    choice, and differs from one loop to the next.  [country_order] is
    the order of the outer loop with the map of each country, and
    [date_order] the order of the inner loop for a country. *)
Record range_order := {
  country_order : list (string * gmap string float);
  date_order : string -> list (string * float)
}.

(** An order the runtime can choose for [m]: every entry once. *)
Definition ranges_over (m : gmap string (gmap string float)) (r : range_order) : Prop :=
  country_order r ≡ₚ map_to_list m ∧
  ∀ country dateDistances,
    m !! country = Some dateDistances →
    date_order r country ≡ₚ map_to_list dateDistances.

Definition header : string :=
  String.append "Total distance traveled in each country per day (in kilometers):"
    (String (ascii_of_nat 10) EmptyString).

Definition country_line (country : string) : string :=
  ("Country: " ++ country ++ String (ascii_of_nat 10) EmptyString)%string.

Definition date_line (date : string) (distance : float) : string :=
  ("  " ++ date ++ ": " ++ fmt_f 2 distance ++ " km"
     ++ String (ascii_of_nat 10) EmptyString)%string.

(** The strings handed to [file.WriteString], in order. *)
Definition report_lines (r : range_order) : list string :=
  header ::
  flat_map (fun '(country, _) =>
              country_line country ::
              map (fun '(date, distance) => date_line date distance)
                  (date_order r country))
           (country_order r).

(** The output file, kept as the strings that reached it, in order.
    [write_fault k] tells whether the [k]-th [WriteString] fails, and
    [short_write k] how many bytes of its string are in the file when it
    does: [os.File.Write] returns its error together with the number of
    bytes written before it, from none to all of them.  [main] drops
    both results, and the writes after a failed one are made all the
    same. *)
Definition write_one (write_fault : nat -> bool) (short_write : nat -> nat)
    (k : nat) (s : string) : option string :=
  if write_fault k then
    match substring 0 (short_write k) s with
    | EmptyString => None
    | part => Some part
    end
  else Some s.

Definition write_all (write_fault : nat -> bool) (short_write : nat -> nat)
    (lines : list string) : list string :=
  omap (fun '(k, s) => write_one write_fault short_write k s)
       (imap (fun k s => (k, s)) lines).

(** The size of a file, or of a report, in bytes. *)
Definition bytes (lines : list string) : nat :=
  sum_list (String.length <$> lines).

(** ** main *)

(** What [ioutil.ReadFile] and [json.Unmarshal] make of the input file. *)
Inductive input :=
  | ReadFailed (err : error)
  | UnmarshalFailed (err : error)
  | Timeline (timeline : TimelineData).

(** The world of one run. *)
Record world := {
  timeline_json : input;
  net : network;
  today : string;                  (* time.Now().Format("2006-01-02") *)
  create_error : option error;     (* the error of os.Create, if any *)
  write_fault : nat -> bool;
  short_write : nat -> nat;
  ranges : gmap string (gmap string float) -> range_order
}.

Record outcome := {
  exit_code : Z;
  printed : list print;
  sent : list string;                        (* the requests to the service *)
  file : option (string * list string)       (* the file created: name, contents *)
}.

Definition main (w : world) : outcome :=
  match timeline_json w with
  | ReadFailed err =>
      {| exit_code := 1; printed := [PrintReadError err]; sent := []; file := None |}
  | UnmarshalFailed err =>
      {| exit_code := 1; printed := [PrintJSONError err]; sent := []; file := None |}
  | Timeline timeline =>
      let st := main_loop (net w) init (TimelineObjects timeline) in
      (* Create a filename with today's date *)
      let outputFilename := ("distance_report_" ++ today w ++ ".txt")%string in
      match create_error w with
      | Some err =>
          {| exit_code := 1;
             printed := stdout st ++ [PrintCreateError err];
             sent := requests st;
             file := None |}
      | None =>
          let lines := report_lines (ranges w (countryDistancesByDay st)) in
          {| exit_code := 0;
             printed := stdout st ++ [PrintSaved outputFilename];
             sent := requests st;
             file := Some (outputFilename,
                           write_all (write_fault w) (short_write w) lines) |}
      end
  end.

(** ** Notions of the specification *)

(** The segments the extractor yields: the payloads of the objects that
    carry one, in the order of the input. *)
Definition segments (objs : list TimelineObject) : list ActivitySegment :=
  omap ActivitySegmentPtr objs.

(** The loop body on an object that carries [seg]. *)
Definition process_segment (net : network) (st : state) (seg : ActivitySegment) : state :=
  loop_body net st {| ActivitySegmentPtr := Some seg |}.

Definition segment_url (seg : ActivitySegment) : string :=
  request_url (toFloatCoord (LatitudeE7 (StartLocation seg)))
              (toFloatCoord (LongitudeE7 (StartLocation seg))).

(** A segment with its resolved country and its derived date. *)
Record ResolvedSegment := {
  country : string;
  date : string;
  distance_meters : Z
}.

(** What becomes of [seg] when its request is the one after [reqs]:
    [None] when the lookup returns an error or the timestamp does not
    parse. *)
Definition resolve (net : network) (reqs : list string) (seg : ActivitySegment)
  : option ResolvedSegment :=
  match getCountryCode net reqs
          (toFloatCoord (LatitudeE7 (StartLocation seg)))
          (toFloatCoord (LongitudeE7 (StartLocation seg))) with
  | ((startCountry, None), _) =>
      match time.Parse_RFC3339 (StartTimestamp (Duration seg)) with
      | inr startTime =>
          Some {| country := startCountry;
                  date := time.Format_2006_01_02 startTime;
                  distance_meters := Distance seg |}
      | inl _ => None
      end
  | _ => None
  end.

(** The resolved segments of a run over [segs] that starts after the
    requests [reqs], in the order of processing. *)
Fixpoint resolved (net : network) (reqs : list string) (segs : list ActivitySegment)
  : list ResolvedSegment :=
  match segs with
  | [] => []
  | seg :: rest =>
      match resolve net reqs seg with
      | Some r => r :: resolved net (reqs ++ [segment_url seg]) rest
      | None => resolved net (reqs ++ [segment_url seg]) rest
      end
  end.

Definition kilometers (r : ResolvedSegment) : float :=
  (float64_of_int (distance_meters r) / 1000.0)%float.

Definition in_bucket (c d : string) (r : ResolvedSegment) : bool :=
  String.eqb (country r) c && String.eqb (date r) d.

(** The contributions to the bucket [(c, d)], in the order of processing. *)
Definition contributions (c d : string) (rs : list ResolvedSegment) : list float :=
  kilometers <$> filter (λ r, in_bucket c d r = true) rs.

(** The float64 sum from left to right, starting from the zero value. *)
Definition fsum (start : float) (l : list float) : float :=
  foldl PrimFloat.add start l.

(** The value under [(c, d)], if the map has one. *)
Definition bucket (m : gmap string (gmap string float)) (c d : string) : option float :=
  m !! c ≫= (.!! d).

(** The bucket that a list of contributions makes in an empty report. *)
Definition total (l : list float) : option float :=
  match l with
  | [] => None
  | _ => Some (fsum 0%float l)
  end.

(** The update of the map for one resolved segment, as the loop does it. *)
Definition add_segment (m : gmap string (gmap string float)) (r : ResolvedSegment)
  : gmap string (gmap string float) :=
  let m :=
    match m !! country r with
    | None => <[country r := ∅]> m
    | Some _ => m
    end in
  let dateDistances := default ∅ (m !! country r) in
  <[country r :=
      <[date r := (default 0 (dateDistances !! date r) + kilometers r)%float]>
        dateDistances]> m.

Definition aggregate (m : gmap string (gmap string float)) (rs : list ResolvedSegment)
  : gmap string (gmap string float) :=
  foldl add_segment m rs.

(** Two bucket values agree up to the tolerance 1e-9. *)
Definition within_tolerance (x y : option float) : bool :=
  match x, y with
  | Some a, Some b => PrimFloat.leb (PrimFloat.abs (a - b)) 1e-9
  | None, None => true
  | _, _ => false
  end.

(** The network without its [k]-th reply: the later replies move up. *)
Definition without_reply (k : nat) (net : network) : network :=
  fun i u => if decide (i < k)%nat then net i u else net (S i) u.

(** [text] is a report the renderer can write for [m]. *)
Definition renders (m : gmap string (gmap string float)) (text : list string) : Prop :=
  ∃ r, ranges_over m r ∧ text = report_lines r.

(** ** Notions of the error analysis *)

(** The record [mrs] holds the quotient of [N] by [P], rounded down,
    and the place of the remainder: whether it is half of [P] or more,
    and whether anything is left of it besides. *)
Definition represents (N P : Z) (mrs : shr_record) : Prop :=
  ∃ rem, N = shr_m mrs * P + rem ∧ 0 <= rem < P ∧
    (shr_r mrs = true ↔ P <= 2 * rem) ∧
    (shr_s mrs = true ↔ rem ≠ 0 ∧ 2 * rem ≠ P).

(** The value of a finite [float64], in units of [2 ^ -1074], the least
    positive [float64]: every finite value is a whole number of them. *)
Definition SF2Z (x : spec_float) : Z :=
  match x with
  | S754_finite s m e => cond_Zopp s (Zpos m * 2 ^ (e + 1074))
  | _ => 0
  end.

(** A zero or a finite number, in its one representation. *)
Definition SFfinite (x : spec_float) : bool :=
  match x with
  | S754_zero _ => true
  | S754_finite _ m e => bounded prec emax m e
  | _ => false
  end.

(** The same for the [float64] of the program. *)
Definition in_units (x : float) : Z := SF2Z (Prim2SF x).

Definition finite64 (x : float) : bool := SFfinite (Prim2SF x).

(** The exact sum of a list of [float64], and the sum of their
    magnitudes, in the same units. *)
Definition exact_sum (l : list float) : Z := foldr Z.add 0 (in_units <$> l).

Definition abs_sum (l : list float) : Z :=
  foldr Z.add 0 ((λ x, Z.abs (in_units x)) <$> l).

(** The meters of the segments of the bucket [(c, d)], each taken
    without its sign. *)
Definition abs_meters (c d : string) (rs : list ResolvedSegment) : Z :=
  foldr Z.add 0
    ((λ r, Z.abs (distance_meters r)) <$> filter (λ r, in_bucket c d r = true) rs).

(** ** Example runs *)

Definition segment (lat lng distance : Z) (startTimestamp : string) : TimelineObject :=
  {| ActivitySegmentPtr :=
       Some {| StartLocation := {| LatitudeE7 := lat; LongitudeE7 := lng |};
               EndLocation := {| LatitudeE7 := lat; LongitudeE7 := lng |};
               Distance := distance;
               Duration := {| StartTimestamp := startTimestamp |} |} |}.

Definition no_segment : TimelineObject := {| ActivitySegmentPtr := None |}.

(** A service that answers every request with the same country. *)
Definition always (code : string) : network := fun _ _ => Decoded code.

(** One very long segment and two short ones on the same day, and the
    same three with the long one last. *)
Definition long_first : list TimelineObject :=
  [segment 400000000 (-740000000) (10 ^ 18) "2024-03-01T10:00:00-05:00";
   segment 400000000 (-740000000) 40 "2024-03-01T11:00:00-05:00";
   segment 400000000 (-740000000) 40 "2024-03-01T12:00:00-05:00"].

Definition long_last : list TimelineObject :=
  [segment 400000000 (-740000000) 40 "2024-03-01T11:00:00-05:00";
   segment 400000000 (-740000000) 40 "2024-03-01T12:00:00-05:00";
   segment 400000000 (-740000000) (10 ^ 18) "2024-03-01T10:00:00-05:00"].

(** A very long segment, the way back, and a short segment; and the same
    three with the short one in the middle. *)
Definition cancel_first : list TimelineObject :=
  [segment 400000000 (-740000000) (10 ^ 18) "2024-03-01T10:00:00-05:00";
   segment 400000000 (-740000000) (- 10 ^ 18) "2024-03-01T11:00:00-05:00";
   segment 400000000 (-740000000) 40 "2024-03-01T12:00:00-05:00"].

Definition cancel_last : list TimelineObject :=
  [segment 400000000 (-740000000) (10 ^ 18) "2024-03-01T10:00:00-05:00";
   segment 400000000 (-740000000) 40 "2024-03-01T12:00:00-05:00";
   segment 400000000 (-740000000) (- 10 ^ 18) "2024-03-01T11:00:00-05:00"].

(** Three short segments on the same day, and the same three with the
    first one last. *)
Definition short_first : list TimelineObject :=
  [segment 400000000 (-740000000) 100 "2024-03-01T10:00:00-05:00";
   segment 400000000 (-740000000) 200 "2024-03-01T11:00:00-05:00";
   segment 400000000 (-740000000) 300 "2024-03-01T12:00:00-05:00"].

Definition short_last : list TimelineObject :=
  [segment 400000000 (-740000000) 200 "2024-03-01T11:00:00-05:00";
   segment 400000000 (-740000000) 300 "2024-03-01T12:00:00-05:00";
   segment 400000000 (-740000000) 100 "2024-03-01T10:00:00-05:00"].

(** A segment of 5000 m, and later the same day one of -8000 m. *)
Definition there_and_back : list TimelineObject :=
  [segment 400000000 (-740000000) 5000 "2024-03-01T10:00:00-05:00";
   segment 400000000 (-740000000) (-8000) "2024-03-01T18:00:00-05:00"].

(** The meters that went into the bucket [(c, d)]: the exact sum, in [Z]. *)
Definition exact_meters (c d : string) (rs : list ResolvedSegment) : Z :=
  foldr Z.add 0 (distance_meters <$> filter (λ r, in_bucket c d r = true) rs).

(** A segment whose timestamp is not RFC 3339, between two that are. *)
Definition bad_timestamp : TimelineObject :=
  segment 488566000 23522000 3000 "2024-03-01 09:00".

Definition bad_segment : ActivitySegment :=
  {| StartLocation := {| LatitudeE7 := 488566000; LongitudeE7 := 23522000 |};
     EndLocation := {| LatitudeE7 := 488566000; LongitudeE7 := 23522000 |};
     Distance := 3000;
     Duration := {| StartTimestamp := "2024-03-01 09:00" |} |}.

Definition morning : TimelineObject :=
  segment 400000000 (-740000000) 5000 "2024-03-01T10:00:00-05:00".

Definition evening : TimelineObject :=
  segment 400000000 (-740000000) 7000 "2024-03-01T18:00:00-05:00".

Definition way_back : ActivitySegment :=
  {| StartLocation := {| LatitudeE7 := 400000000; LongitudeE7 := -740000000 |};
     EndLocation := {| LatitudeE7 := 400000000; LongitudeE7 := -740000000 |};
     Distance := -8000;
     Duration := {| StartTimestamp := "2024-03-01T18:00:00-05:00" |} |}.

(** The lines of one country in a report. *)
Definition block_lines (r : range_order) (entry : string * gmap string float) : list string :=
  country_line entry.1 ::
  map (fun '(date, distance) => date_line date distance) (date_order r entry.1).

(** The report of the two segments of the end-to-end scenario, and the
    two orders in which a range loop can visit its countries. *)
Definition us_and_fr : gmap string (gmap string float) :=
  <["us" := {["2024-03-01" := 5%float]}]> (<["fr" := {["2024-03-01" := 3%float]}]> ∅).

Definition dates_of_us_and_fr (country : string) : list (string * float) :=
  if String.eqb country "us" then [("2024-03-01"%string, 5%float)]
  else [("2024-03-01"%string, 3%float)].

Definition us_first : range_order :=
  {| country_order := [("us"%string, {["2024-03-01" := 5%float]});
                       ("fr"%string, {["2024-03-01" := 3%float]})];
     date_order := dates_of_us_and_fr |}.

Definition fr_first : range_order :=
  {| country_order := [("fr"%string, {["2024-03-01" := 3%float]});
                       ("us"%string, {["2024-03-01" := 5%float]})];
     date_order := dates_of_us_and_fr |}.

(** The end-to-end scenario: a segment of 5000 m that resolves to "us"
    and one of 3000 m that resolves to "fr", on the same day. *)
Definition end_to_end : world :=
  {| timeline_json :=
       Timeline {| TimelineObjects :=
         [segment 400000000 (-740000000) 5000 "2024-03-01T10:00:00-05:00";
          no_segment;
          segment 488566000 23522000 3000 "2024-03-01T09:00:00+01:00"] |};
     net := fun k _ => match k with O => Decoded "us" | _ => Decoded "fr" end;
     today := "2024-03-02";
     create_error := None;
     write_fault := fun _ => false;
     short_write := fun _ => 0%nat;
     ranges := fun _ => us_first |}.

(** A run in which the file is created and no write succeeds. *)
Definition disk_full : world :=
  {| timeline_json := Timeline {| TimelineObjects := [morning; evening] |};
     net := always "us";
     today := "2024-03-02";
     create_error := None;
     write_fault := fun _ => true;
     short_write := fun _ => 0%nat;
     ranges := fun m =>
       {| country_order := map_to_list m;
          date_order := fun country => map_to_list (default ∅ (m !! country)) |} |}.

(** A run in which the disk is full after the header and five more
    bytes: the second write fails short, the later ones write nothing. *)
Definition disk_fills : world :=
  {| timeline_json := timeline_json end_to_end;
     net := net end_to_end;
     today := today end_to_end;
     create_error := None;
     write_fault := fun k => match k with O => false | _ => true end;
     short_write := fun k => match k with 1%nat => 5%nat | _ => 0%nat end;
     ranges := ranges end_to_end |}.

(** ** Tables checked by computation *)

(** The day of the year, from zero, of a day of a month, as [Date]
    counts it. *)
Definition yearDay (leap : bool) (month day : Z) : Z :=
  time.daysBefore_at (month - 1)
  + (if leap && (month >=? time.March) then 1 else 0)
  + (day - 1).

Definition daysIn_leap (leap : bool) (month : Z) : Z :=
  if (month =? time.February) && leap then 29
  else time.daysBefore_at month - time.daysBefore_at (month - 1).

(** Every day of every month, in leap years and others: the day of the
    year is within the year, and [monthDay] gives back month and day. *)
Definition monthDay_table : bool :=
  forallb (fun leap =>
    forallb (fun month =>
      forallb (fun day =>
        implb (day <=? daysIn_leap leap month)
          (let yd := yearDay leap month day in
           (0 <=? yd) && (yd <=? (if leap then 365 else 364))
           && (bool_decide (time.monthDay leap yd = (month, day)))))
        (seqZ 1 31))
      (seqZ 1 12))
    [true; false].

Definition digits : list ascii :=
  ["0"; "1"; "2"; "3"; "4"; "5"; "6"; "7"; "8"; "9"]%char.

(** Two digits read and written again, and four. *)
Definition appendInt2_table : bool :=
  forallb (fun a => forallb (fun b =>
    bool_decide (time.appendInt (time.digit a * 10 + time.digit b) 2
                 = String a (String b EmptyString)))
    digits) digits.

Definition appendInt4_table : bool :=
  forallb (fun a => forallb (fun b => forallb (fun c => forallb (fun d =>
    bool_decide
      (time.appendInt
         (time.digit a * 1000 + time.digit b * 100 + time.digit c * 10 + time.digit d) 4
       = String a (String b (String c (String d EmptyString)))))
    digits) digits) digits) digits.

Fixpoint all_digits (s : string) : bool :=
  match s with
  | EmptyString => true
  | String c rest => time.isDigit c && all_digits rest
  end.

(** ** Notions of the further properties *)

(** A date as [Format("2006-01-02")] writes it: four digits, two and
    two, separated by hyphens, with a month of the year and a day of
    that month. *)
Definition is_calendar_date (d : string) : bool :=
  match d with
  | String y1 (String y2 (String y3 (String y4 (String h1
      (String m1 (String m2 (String h2 (String d1 (String d2 EmptyString))))))))) =>
      let year :=
        time.digit y1 * 1000 + time.digit y2 * 100 + time.digit y3 * 10 + time.digit y4 in
      let month := time.digit m1 * 10 + time.digit m2 in
      let day := time.digit d1 * 10 + time.digit d2 in
      time.isDigit y1 && time.isDigit y2 && time.isDigit y3 && time.isDigit y4
      && Ascii.eqb h1 "-" && time.isDigit m1 && time.isDigit m2
      && Ascii.eqb h2 "-" && time.isDigit d1 && time.isDigit d2
      && (1 <=? month) && (month <=? 12)
      && (1 <=? day) && (day <=? time.daysIn month year)
  | _ => false
  end.

(** The lines that the loop prints: a segment that is skipped. *)
Definition is_skip_announcement (p : print) : bool :=
  match p with
  | PrintCountryError _ _ _ | PrintTimestampError _ => true
  | _ => false
  end.



(** Zero or more: the zeros, the positive numbers and plus infinity. *)
Definition not_negative (x : spec_float) : Prop :=
  SFleb (S754_zero false) x = true.

(** The strings [url.QueryEscape] has nothing to escape in. *)
Fixpoint all_unreserved (s : string) : bool :=
  match s with
  | EmptyString => true
  | String c rest => unreserved c && all_unreserved rest
  end.
(** * Properties *)

(** The bodies of these are unfolded by hand where a proof needs them. *)
#[local] Arguments toFloatCoord : simpl never.
#[local] Arguments float64_of_int : simpl never.
#[local] Arguments fmt_f : simpl never.
#[local] Arguments request_url : simpl never.
#[local] Arguments getCountryCode : simpl never.
#[local] Arguments time.Parse_RFC3339 : simpl never.
#[local] Arguments time.Format_2006_01_02 : simpl never.
#[local] Arguments PrimFloat.add : simpl never.
#[local] Arguments PrimFloat.div : simpl never.

(** ** float64: the sign of a quotient *)

Module float_facts.

Lemma fexp_eq x : fexp prec emax x = Z.max (x - 53) (-1074).
Proof. reflexivity. Qed.

Lemma digits2_pos_size p : digits2_pos p = Pos.size p.
Proof. induction p as [p IH|p IH|]; simpl; congruence. Qed.

Lemma Zdigits2_log2 p : Zdigits2 (Zpos p) = Z.log2 (Zpos p) + 1.
Proof.
  unfold Zdigits2. rewrite digits2_pos_size.
  destruct p as [p|p|]; simpl; lia.
Qed.

Lemma Zdigits2_nonneg m : 0 <= m → 0 <= Zdigits2 m.
Proof. destruct m; simpl; lia. Qed.

Lemma Zdigits2_pos_inv m : 0 <= m → 1 <= Zdigits2 m → ∃ p, m = Zpos p.
Proof. destruct m as [|p|p]; simpl; intros; [lia|eauto|lia]. Qed.

(** The number of digits of a positive number, from its bounds. *)
Lemma Zdigits2_bounds m k :
  1 <= k → 2 ^ (k - 1) <= m < 2 ^ k → Zdigits2 m = k.
Proof.
  intros Hk [Hlo Hhi].
  assert (0 < m) as Hm by (pose proof (Z.pow_pos_nonneg 2 (k - 1)); lia).
  destruct m as [|p|p]; try lia.
  rewrite Zdigits2_log2.
  assert (Z.log2 (Zpos p) = k - 1); [|lia].
  apply Z.log2_unique; [lia|]. replace (Z.succ (k - 1)) with k by lia. lia.
Qed.

Lemma Zdigits2_bounds_inv p :
  2 ^ (Zdigits2 (Zpos p) - 1) <= Zpos p < 2 ^ Zdigits2 (Zpos p).
Proof.
  rewrite Zdigits2_log2.
  replace (Z.log2 (Zpos p) + 1 - 1) with (Z.log2 (Zpos p)) by lia.
  pose proof (Z.log2_spec (Zpos p) ltac:(lia)). lia.
Qed.

Lemma Zdigits2_succ p :
  Zdigits2 (Zpos p + 1) = Zdigits2 (Zpos p) ∨
  Zdigits2 (Zpos p + 1) = Zdigits2 (Zpos p) + 1.
Proof.
  pose proof (Zdigits2_bounds_inv p) as Hb.
  set (k := Zdigits2 (Zpos p)) in *.
  assert (1 <= k) by (subst k; simpl; lia).
  destruct (Z.eq_dec (Zpos p + 1) (2 ^ k)) as [Heq|Hne].
  - right. apply Zdigits2_bounds; [lia|].
    replace (k + 1 - 1) with k by lia.
    replace (k + 1) with (Z.succ k) by lia. rewrite Z.pow_succ_r by lia. lia.
  - left. apply Zdigits2_bounds; lia.
Qed.

Lemma shr_m_of_loc m l : shr_m (shr_record_of_loc m l) = m.
Proof. destruct l as [|[]]; reflexivity. Qed.

(** One shift to the right takes one digit away. *)
Lemma shr_1_digits mrs :
  0 <= shr_m mrs →
  0 <= shr_m (shr_1 mrs) ∧
  Zdigits2 (shr_m (shr_1 mrs)) = Z.max 0 (Zdigits2 (shr_m mrs) - 1).
Proof.
  destruct mrs as [m r s]. cbn [shr_m]. intros Hm.
  destruct m as [|[p|p|]|p]; cbn [shr_m shr_1 Zdigits2 digits2_pos];
    rewrite ?Pos2Z.inj_succ; lia.
Qed.

Lemma iter_shr_1_digits n : ∀ mrs,
  0 <= shr_m mrs →
  0 <= shr_m (SpecFloat.iter_pos shr_1 n mrs) ∧
  Zdigits2 (shr_m (SpecFloat.iter_pos shr_1 n mrs)) = Z.max 0 (Zdigits2 (shr_m mrs) - Zpos n).
Proof.
  induction n as [n IH|n IH|]; intros mrs Hm; simpl SpecFloat.iter_pos.
  - destruct (shr_1_digits mrs Hm) as [H0 E0].
    destruct (IH _ H0) as [H1 E1]. destruct (IH _ H1) as [H2 E2].
    split; [assumption|]. rewrite E2, E1, E0. lia.
  - destruct (IH _ Hm) as [H1 E1]. destruct (IH _ H1) as [H2 E2].
    split; [assumption|]. rewrite E2, E1. lia.
  - apply shr_1_digits, Hm.
Qed.

(** Shifting a number of [k] digits, [53 <= k], down to 53 digits. *)
Lemma shr_fexp_digits m e l :
  0 < m → 53 <= Zdigits2 m → -1074 <= Zdigits2 m + e - 53 →
  let '(mrs, e') := shr_fexp prec emax m e l in
  0 < shr_m mrs ∧ Zdigits2 (shr_m mrs) = 53 ∧ e' = Zdigits2 m + e - 53.
Proof.
  intros Hm Hk He. unfold shr_fexp. rewrite fexp_eq.
  replace (Z.max (Zdigits2 m + e - 53) (-1074) - e) with (Zdigits2 m - 53) by lia.
  unfold shr.
  destruct (Zdigits2 m - 53) as [|n|n] eqn:Hn; try lia.
  - rewrite shr_m_of_loc. lia.
  - destruct (iter_shr_1_digits n (shr_record_of_loc m l)) as [H0 E0].
    { rewrite shr_m_of_loc. lia. }
    rewrite shr_m_of_loc in E0.
    assert (Zdigits2 (shr_m (SpecFloat.iter_pos shr_1 n (shr_record_of_loc m l))) = 53) as E by lia.
    split; [|split; [exact E|lia]].
    destruct (shr_m (SpecFloat.iter_pos shr_1 n (shr_record_of_loc m l))); simpl in E; lia.
Qed.

Lemma round_nearest_even_digits p l :
  let m := round_nearest_even (Zpos p) l in
  0 < m ∧ (Zdigits2 m = Zdigits2 (Zpos p) ∨ Zdigits2 m = Zdigits2 (Zpos p) + 1).
Proof.
  pose proof (Zdigits2_succ p) as Hs.
  unfold round_nearest_even.
  destruct l as [|[]]; try (split; [lia|tauto]).
  destruct (Z.even (Zpos p)); split; try lia; tauto.
Qed.

(** Rounding a number of at least 53 digits gives a finite number of 53
    digits, when its exponent is within range. *)
Lemma binary_round_aux_finite s p e l :
  53 <= Zdigits2 (Zpos p) →
  -1074 <= Zdigits2 (Zpos p) + e - 53 →
  Zdigits2 (Zpos p) + e - 53 + 1 <= 971 →
  ∃ m' e',
    binary_round_aux prec emax s (Zpos p) e l = S754_finite s m' e' ∧
    Zdigits2 (Zpos m') = 53 ∧
    Zdigits2 (Zpos p) + e - 53 <= e' <= Zdigits2 (Zpos p) + e - 52.
Proof.
  intros Hk Hlo Hhi. unfold binary_round_aux.
  pose proof (shr_fexp_digits (Zpos p) e l ltac:(lia) Hk Hlo) as H1.
  destruct (shr_fexp prec emax (Zpos p) e l) as [mrs1 e1].
  destruct H1 as (Hm1 & Hd1 & ->).
  destruct (shr_m mrs1) as [|m1|m1] eqn:Em1; try lia.
  pose proof (round_nearest_even_digits m1 (loc_of_shr_record mrs1)) as [Hr Hrd].
  set (r := round_nearest_even (Zpos m1) (loc_of_shr_record mrs1)) in *.
  pose proof (shr_fexp_digits r (Zdigits2 (Zpos p) + e - 53) loc_Exact Hr
                ltac:(lia) ltac:(lia)) as H2.
  destruct (shr_fexp prec emax r (Zdigits2 (Zpos p) + e - 53) loc_Exact) as [mrs2 e2].
  destruct H2 as (Hm2 & Hd2 & ->).
  destruct (shr_m mrs2) as [|m2|m2] eqn:Em2; try lia.
  change (emax - prec) with 971.
  destruct (Z.leb_spec (Zdigits2 r + (Zdigits2 (Zpos p) + e - 53) - 53) 971); [|lia].
  exists m2, (Zdigits2 r + (Zdigits2 (Zpos p) + e - 53) - 53).
  split; [reflexivity|]. split; [exact Hd2|lia].
Qed.

Lemma digits2_pos_iter_xO p d :
  Zpos (digits2_pos (Pos.iter xO p d)) = Zpos (digits2_pos p) + Zpos d.
Proof.
  induction d as [|d IH] using Pos.peano_ind.
  - simpl. lia.
  - rewrite Pos.iter_succ. cbn [digits2_pos]. lia.
Qed.

(** The conversion of a positive integer of at most 64 bits: a finite
    number with 53 digits. *)
Lemma binary_round_int s p :
  Zpos p <= 2 ^ 63 →
  ∃ m e,
    binary_round prec emax s p 0 = S754_finite s m e ∧
    Zdigits2 (Zpos m) = 53 ∧ -52 <= e <= 12.
Proof.
  intros Hp. unfold binary_round, shl_align. rewrite fexp_eq.
  pose proof (Zdigits2_bounds_inv p) as Hb.
  change (Zdigits2 (Zpos p)) with (Zpos (digits2_pos p)) in Hb.
  set (k := Zpos (digits2_pos p)) in *.
  assert (1 <= k <= 64) as Hk.
  { split; [subst k; lia|].
    destruct (Z.le_gt_cases k 64) as [?|Hgt]; [assumption|exfalso].
    assert (2 ^ 64 <= 2 ^ (k - 1)) by (apply Z.pow_le_mono_r; lia).
    change (2 ^ 63) with 9223372036854775808 in Hp.
    change (2 ^ 64) with 18446744073709551616 in *. lia. }
  replace (Z.max (k + 0 - 53) (-1074) - 0) with (k - 53) by lia.
  replace (Z.max (k + 0 - 53) (-1074)) with (k - 53) by lia.
  destruct (k - 53) as [|d|d] eqn:Hd.
  - destruct (binary_round_aux_finite s p 0 loc_Exact) as (m & e & Hr & Hm & He);
      change (Zdigits2 (Zpos p)) with k in *; try lia.
    exists m, e. split; [exact Hr|]. split; [exact Hm|lia].
  - destruct (binary_round_aux_finite s p 0 loc_Exact) as (m & e & Hr & Hm & He);
      change (Zdigits2 (Zpos p)) with k in *; try lia.
    exists m, e. split; [exact Hr|]. split; [exact Hm|lia].
  - pose proof (digits2_pos_iter_xO p d) as Hi. fold k in Hi.
    destruct (binary_round_aux_finite s (Pos.iter xO p d) (Zneg d) loc_Exact)
      as (m & e & Hr & Hm & He);
      change (Zdigits2 (Zpos (Pos.iter xO p d)))
        with (Zpos (digits2_pos (Pos.iter xO p d))) in *; try lia.
    exists m, e. split; [exact Hr|]. split; [exact Hm|lia].
Qed.

Lemma bounded_53 m e :
  Zdigits2 (Zpos m) = 53 → -1074 <= e <= 971 → bounded prec emax m e = true.
Proof.
  intros Hm He. unfold bounded, canonical_mantissa. rewrite fexp_eq.
  change (Zpos (digits2_pos m)) with (Zdigits2 (Zpos m)). rewrite Hm.
  change (emax - prec) with 971.
  apply andb_true_intro. split; [apply Z.eqb_eq|apply Z.leb_le]; lia.
Qed.

(** A finite number of 53 digits, at least 1 in magnitude, divided by
    1000: a finite number of the same sign. *)
Lemma SFdiv_1000_finite s m e :
  Zdigits2 (Zpos m) = 53 → -52 <= e <= 12 →
  ∃ m' e',
    SFdiv prec emax (S754_finite s m e) (Prim2SF 1000%float) = S754_finite s m' e'.
Proof.
  intros Hm He.
  change (Prim2SF 1000%float) with (S754_finite false 8796093022208000 (-43)).
  unfold SFdiv, SFdiv_core_binary. rewrite Hm.
  change (Zdigits2 8796093022208000) with 53. rewrite fexp_eq.
  replace (Z.min (Z.max (53 + e - (53 + -43) - 53) (-1074)) (e - -43)) with (e - 10) by lia.
  replace (e - -43 - (e - 10)) with 53 by lia.
  pose proof (Zdigits2_bounds_inv m) as Hb. rewrite Hm in Hb.
  change (2 ^ (53 - 1)) with 4503599627370496 in Hb.
  change (2 ^ 53) with 9007199254740992 in Hb.
  rewrite Z.shiftl_mul_pow2 by lia. change (2 ^ 53) with 9007199254740992.
  pose proof (Z_div_mod (Zpos m * 9007199254740992) 8796093022208000 ltac:(lia)) as Hdiv.
  destruct (Z.div_eucl (Zpos m * 9007199254740992) 8796093022208000) as [q r].
  destruct Hdiv as [Hq Hr].
  assert (4503599627370496 <= q < 18014398509481984) as Hqb by lia.
  destruct q as [|q|q]; try lia.
  assert (Zdigits2 (Zpos q) = 53 \/ Zdigits2 (Zpos q) = 54) as Hqd.
  { destruct (Z.lt_ge_cases (Zpos q) 9007199254740992).
    - left. apply Zdigits2_bounds; [lia|].
      change (2 ^ (53 - 1)) with 4503599627370496.
      change (2 ^ 53) with 9007199254740992. lia.
    - right. apply Zdigits2_bounds; [lia|].
      change (2 ^ (54 - 1)) with 9007199254740992.
      change (2 ^ 54) with 18014398509481984. lia. }
  destruct (binary_round_aux_finite (xorb s false) q (e - 10)
              (new_location 8796093022208000 r)) as (m' & e' & Hres & _ & _); try lia.
  exists m', e'. rewrite Hres. destruct s; reflexivity.
Qed.

End float_facts.

(** A negative distance gives a negative number of kilometers. *)
Lemma kilometers_negative (distance : Z) :
  - 2 ^ 63 <= distance < 0 →
  (float64_of_int distance / 1000.0 <? 0)%float = true.
Proof.
  intros Hd. destruct distance as [|p|p]; try lia.
  unfold float64_of_int. cbn [binary_normalize].
  destruct (float_facts.binary_round_int true p ltac:(lia)) as (m & e & Hr & Hm & He).
  rewrite Hr, ltb_spec, div_spec. unfold SF64div.
  rewrite Prim2SF_SF2Prim by (apply float_facts.bounded_53; [exact Hm|lia]).
  destruct (float_facts.SFdiv_1000_finite true m e Hm He) as (m' & e' & ->).
  reflexivity.
Qed.

(** ** float64 addition *)

Lemma SFadd_comm x y : SFadd prec emax x y = SFadd prec emax y x.
Proof.
  destruct x as [sx|sx| |sx mx ex], y as [sy|sy| |sy my ey];
    try reflexivity; try (destruct sx, sy; reflexivity).
  unfold SFadd. rewrite (Z.min_comm ey ex), Z.add_comm. reflexivity.
Qed.

Lemma float_add_comm (x y : float) : (x + y = y + x)%float.
Proof. apply Prim2SF_inj. rewrite !add_spec. apply SFadd_comm. Qed.

(** Two contributions give the same total in either order. *)
Lemma fsum_two (a b : float) : fsum 0%float [a; b] = fsum 0%float [b; a].
Proof.
  unfold fsum. cbn [foldl]. apply Prim2SF_inj. rewrite !add_spec.
  change (Prim2SF 0) with (S754_zero false).
  destruct (Prim2SF a) as [sa|sa| |sa ma ea], (Prim2SF b) as [sb|sb| |sb mb eb];
    try reflexivity; try (destruct sa; reflexivity); try (destruct sb; reflexivity);
    try (destruct sa, sb; reflexivity).
  apply SFadd_comm.
Qed.

(** ** The coordinate conversion *)
Module conversion_facts.
Import float_facts.

Lemma Zpos_iter_xO p d : Zpos (Pos.iter xO p d) = Zpos p * 2 ^ Zpos d.
Proof.
  induction d as [|d IH] using Pos.peano_ind.
  - cbn [Pos.iter]. change (2 ^ 1) with 2. lia.
  - rewrite Pos.iter_succ, Pos2Z.inj_succ, Z.pow_succ_r by lia.
    rewrite Pos2Z.inj_xO, IH. lia.
Qed.

(** A number of exactly 53 digits is not rounded. *)
Lemma binary_round_aux_exact s m e :
  Zdigits2 (Zpos m) = 53 → -1074 <= e <= 971 →
  binary_round_aux prec emax s (Zpos m) e loc_Exact = S754_finite s m e.
Proof.
  intros Hm He. unfold binary_round_aux, shr_fexp. rewrite Hm, fexp_eq.
  replace (Z.max (53 + e - 53) (-1074) - e) with 0 by lia.
  cbn [shr shr_record_of_loc shr_m loc_of_shr_record round_nearest_even].
  rewrite Hm, fexp_eq.
  replace (Z.max (53 + e - 53) (-1074) - e) with 0 by lia.
  cbn [shr shr_record_of_loc shr_m].
  change (emax - prec) with 971.
  destruct (Z.leb_spec e 971); [reflexivity|lia].
Qed.

(** An integer of less than 54 bits is converted exactly: the float64
    has the sign of [n] and the magnitude [m * 2 ^ e = |n|]. *)
Lemma float64_of_int_exact n :
  0 < Z.abs n < 2 ^ 53 →
  ∃ m e,
    Prim2SF (float64_of_int n) = S754_finite (n <? 0) m e ∧
    e <= 0 ∧ Zpos m = Z.abs n * 2 ^ (- e).
Proof.
  intros Hn.
  assert (∀ s p, Zpos p < 2 ^ 53 →
            ∃ m e, binary_round prec emax s p 0 = S754_finite s m e ∧
                   Zdigits2 (Zpos m) = 53 ∧ -52 <= e <= 0 ∧
                   Zpos m = Zpos p * 2 ^ (- e)) as Hround.
  { intros s p Hp. unfold binary_round, shl_align. rewrite fexp_eq.
    pose proof (Zdigits2_bounds_inv p) as Hb.
    change (Zdigits2 (Zpos p)) with (Zpos (digits2_pos p)) in Hb.
    set (k := Zpos (digits2_pos p)) in *.
    assert (1 <= k <= 53) as Hk.
    { split; [subst k; lia|].
      destruct (Z.le_gt_cases k 53) as [?|Hgt]; [assumption|exfalso].
      assert (2 ^ 53 <= 2 ^ (k - 1)) by (apply Z.pow_le_mono_r; lia). lia. }
    replace (Z.max (k + 0 - 53) (-1074) - 0) with (k - 53) by lia.
    replace (Z.max (k + 0 - 53) (-1074)) with (k - 53) by lia.
    destruct (k - 53) as [|d|d] eqn:Hd; try lia.
    - exists p, 0. rewrite binary_round_aux_exact by (change (Zdigits2 (Zpos p)) with k; lia).
      change (Zdigits2 (Zpos p)) with k. repeat split; lia.
    - pose proof (digits2_pos_iter_xO p d) as Hi. fold k in Hi.
      exists (Pos.iter xO p d), (Zneg d).
      rewrite binary_round_aux_exact
        by (change (Zdigits2 (Zpos (Pos.iter xO p d)))
              with (Zpos (digits2_pos (Pos.iter xO p d))); lia).
      change (Zdigits2 (Zpos (Pos.iter xO p d)))
        with (Zpos (digits2_pos (Pos.iter xO p d))).
      rewrite Zpos_iter_xO. repeat split; lia. }
  unfold float64_of_int.
  destruct n as [|p|p]; cbn [Z.abs] in Hn; try lia; cbn [binary_normalize Z.abs].
  - destruct (Hround false p ltac:(lia)) as (m & e & -> & Hm & He & Hv).
    exists m, e. rewrite Prim2SF_SF2Prim by (apply bounded_53; [exact Hm|lia]).
    repeat split; [lia|exact Hv].
  - destruct (Hround true p ltac:(lia)) as (m & e & -> & Hm & He & Hv).
    exists m, e. rewrite Prim2SF_SF2Prim by (apply bounded_53; [exact Hm|lia]).
    repeat split; [lia|exact Hv].
Qed.

End conversion_facts.


(** C3: [toFloatCoord] is the function [E7 / 10,000,000] in float64: the
    integer converted to float64, exactly when it has less than 54 bits
    as every coordinate has, and divided by [1e7], the quotient being the
    IEEE 754 division of the two; it maps 0, 107000000 and -523456780 to
    0.0, 10.7 and -52.345678. *)
Theorem toFloatCoord_is_division_by_1e7 :
  (∀ coordE7, toFloatCoord coordE7 = (float64_of_int coordE7 / 10000000)%float) ∧
  (∀ coordE7,
     Prim2SF (toFloatCoord coordE7)
     = SFdiv prec emax (Prim2SF (float64_of_int coordE7)) (Prim2SF 10000000%float)) ∧
  (∀ coordE7,
     0 < Z.abs coordE7 < 2 ^ 53 →
     ∃ m e,
       Prim2SF (float64_of_int coordE7) = S754_finite (coordE7 <? 0) m e ∧
       e <= 0 ∧ Zpos m = Z.abs coordE7 * 2 ^ (- e)) ∧
  toFloatCoord 0 = 0.0%float ∧
  toFloatCoord 107000000 = 10.7%float ∧
  toFloatCoord (-523456780) = (-52.345678)%float.
Proof.
  split; [reflexivity|]. split; [|split].
  - intros coordE7. unfold toFloatCoord. apply div_spec.
  - apply conversion_facts.float64_of_int_exact.
  - repeat split; vm_compute; reflexivity.
Qed.

(** At 107000000 the conversion is exact: 107000000 = m * 2 ^ e. *)
Lemma toFloatCoord_is_division_by_1e7_witness :
  0 < Z.abs 107000000 < 2 ^ 53 ∧
  ∃ m e,
    Prim2SF (float64_of_int 107000000) = S754_finite (107000000 <? 0) m e ∧
    e <= 0 ∧ Zpos m = Z.abs 107000000 * 2 ^ (- e).
Proof.
  assert (0 < Z.abs 107000000 < 2 ^ 53) as H by (vm_compute; split; reflexivity).
  split; [exact H|].
  exact (proj1 (proj2 (proj2 toFloatCoord_is_division_by_1e7)) 107000000 H).
Defined.

(** ** float64: the error of a rounding *)

Module rounding_facts.
Import float_facts.

Lemma shr_1_represents N P mrs :
  0 <= shr_m mrs → 0 < P →
  represents N P mrs → represents N (2 * P) (shr_1 mrs).
Proof.
  destruct mrs as [m r s]. cbn [shr_m]. intros Hm HP (rem & HN & Hrem & Hr & Hs).
  cbn [shr_m shr_r shr_s] in *.
  assert (r || s = true ↔ rem ≠ 0) as Hrs.
  { rewrite orb_true_iff, Hr, Hs. lia. }
  assert (∀ rem' m' r',
            N = m' * (2 * P) + rem' → 0 <= rem' < 2 * P →
            (r' = true ↔ 2 * P <= 2 * rem') → (rem ≠ 0 ↔ rem' ≠ 0 ∧ 2 * rem' ≠ 2 * P) →
            represents N (2 * P) {| shr_m := m'; shr_r := r'; shr_s := r || s |}) as Hgoal.
  { intros rem' m' r' H1 H2 H3 H4. exists rem'. cbn [shr_m shr_r shr_s].
    rewrite Hrs. done. }
  destruct m as [|[p|p|]|p]; try lia; cbn [shr_1].
  - apply (Hgoal rem); try lia; (split; [discriminate|lia]).
  - rewrite Pos2Z.inj_xI in HN. apply (Hgoal (P + rem)); lia.
  - rewrite Pos2Z.inj_xO in HN. apply (Hgoal rem); try lia; (split; [discriminate|lia]).
  - apply (Hgoal (P + rem)); lia.
Qed.

Lemma iter_shr_1_represents N n : ∀ P mrs,
  0 <= shr_m mrs → 0 < P →
  represents N P mrs →
  represents N (P * 2 ^ Zpos n) (SpecFloat.iter_pos shr_1 n mrs).
Proof.
  induction n as [n IH|n IH|]; intros P mrs Hm HP Hrep; cbn [SpecFloat.iter_pos].
  - pose proof (shr_1_represents _ _ _ Hm HP Hrep) as H0.
    pose proof (proj1 (shr_1_digits mrs Hm)) as Hm0.
    pose proof (IH (2 * P) _ Hm0 ltac:(lia) H0) as H1.
    pose proof (proj1 (iter_shr_1_digits n _ Hm0)) as Hm1.
    assert (0 < 2 ^ Zpos n) as Hpow by (apply Z.pow_pos_nonneg; lia).
    pose proof (IH (2 * P * 2 ^ Zpos n) _ Hm1 ltac:(nia) H1) as H2.
    replace (P * 2 ^ Zpos n~1) with (2 * P * 2 ^ Zpos n * 2 ^ Zpos n); [exact H2|].
    assert (Zpos n~1 = Zpos n + Zpos n + 1) as -> by lia.
    rewrite !Z.pow_add_r by lia. change (2 ^ 1) with 2. lia.
  - pose proof (IH P _ Hm HP Hrep) as H1.
    pose proof (proj1 (iter_shr_1_digits n _ Hm)) as Hm1.
    assert (0 < 2 ^ Zpos n) as Hpow by (apply Z.pow_pos_nonneg; lia).
    pose proof (IH (P * 2 ^ Zpos n) _ Hm1 ltac:(nia) H1) as H2.
    replace (P * 2 ^ Zpos n~0) with (P * 2 ^ Zpos n * 2 ^ Zpos n); [exact H2|].
    assert (Zpos n~0 = Zpos n + Zpos n) as -> by lia.
    rewrite !Z.pow_add_r by lia. lia.
  - change (2 ^ 1) with 2. rewrite Z.mul_comm. by apply shr_1_represents.
Qed.

(** Rounding to nearest: half of [P] is the most the result is off by. *)
Lemma round_nearest_even_represents N P mrs :
  0 < P → represents N P mrs →
  let m := round_nearest_even (shr_m mrs) (loc_of_shr_record mrs) in
  2 * Z.abs (m * P - N) <= P ∧ shr_m mrs <= m <= shr_m mrs + 1.
Proof.
  destruct mrs as [m r s]. intros HP (rem & HN & Hrem & Hr & Hs).
  cbn [shr_m shr_r shr_s] in *. cbn zeta.
  destruct r, s; cbn [loc_of_shr_record round_nearest_even].
  - pose proof (proj1 Hr eq_refl). pose proof (proj1 Hs eq_refl). split; lia.
  - pose proof (proj1 Hr eq_refl).
    assert (2 * rem = P).
    { destruct (Z.eq_dec (2 * rem) P) as [?|Hne]; [assumption|].
      assert (false = true) by (apply Hs; lia). discriminate. }
    destruct (Z.even m); split; lia.
  - assert (¬ P <= 2 * rem) by (intros H; apply Hr in H; discriminate).
    split; lia.
  - assert (¬ P <= 2 * rem) by (intros H; apply Hr in H; discriminate).
    assert (rem = 0).
    { destruct (Z.eq_dec rem 0) as [?|Hne]; [assumption|].
      assert (false = true) by (apply Hs; lia). discriminate. }
    split; lia.
Qed.

Lemma represents_exact m : represents m 1 (shr_record_of_loc m loc_Exact).
Proof.
  exists 0. cbn [shr_record_of_loc shr_m shr_r shr_s].
  split; [lia|]. split; [lia|]. split; split; try discriminate; lia.
Qed.

(** The first shift of [binary_round_aux] on a number of [53 + n]
    digits: [n] digits go. *)
Lemma shr_fexp_represents N D m e l :
  0 < m → 0 < D → 53 <= Zdigits2 m → -1074 <= Zdigits2 m + e - 53 →
  represents N D (shr_record_of_loc m l) →
  let '(mrs, e') := shr_fexp prec emax m e l in
  0 < shr_m mrs ∧ Zdigits2 (shr_m mrs) = 53 ∧ e' = Zdigits2 m + e - 53 ∧
  represents N (D * 2 ^ (Zdigits2 m - 53)) mrs.
Proof.
  intros Hm HD Hk He Hrep.
  pose proof (shr_fexp_digits m e l Hm Hk He) as Hdig.
  unfold shr_fexp in *. rewrite fexp_eq in *.
  replace (Z.max (Zdigits2 m + e - 53) (-1074) - e) with (Zdigits2 m - 53) in * by lia.
  unfold shr in *.
  destruct (Zdigits2 m - 53) as [|n|n] eqn:Hn; try lia.
  - destruct Hdig as (H1 & H2 & H3). repeat split; try assumption.
    change (2 ^ 0) with 1. by rewrite Z.mul_1_r.
  - destruct Hdig as (H1 & H2 & H3). repeat split; try assumption.
    apply iter_shr_1_represents; [rewrite shr_m_of_loc; lia|assumption|assumption].
Qed.

(** Rounding a quotient of at least 53 digits: a finite number of 53
    digits, off by no more than one part in [2 ^ 53]. *)
Lemma binary_round_aux_value s p e l N D :
  0 < D → represents N D (shr_record_of_loc (Zpos p) l) →
  53 <= Zdigits2 (Zpos p) →
  -1074 <= Zdigits2 (Zpos p) + e - 53 →
  Zdigits2 (Zpos p) + e - 53 + 1 <= 971 →
  ∃ m' e',
    binary_round_aux prec emax s (Zpos p) e l = S754_finite s m' e' ∧
    Zdigits2 (Zpos m') = 53 ∧
    Zdigits2 (Zpos p) + e - 53 <= e' <= Zdigits2 (Zpos p) + e - 52 ∧
    2 ^ 53 * Z.abs (Zpos m' * 2 ^ (e' - e) * D - N) <= N.
Proof.
  intros HD Hrep Hk Hlo Hhi. unfold binary_round_aux.
  pose proof (shr_fexp_represents N D (Zpos p) e l ltac:(lia) HD Hk Hlo Hrep) as H1.
  destruct (shr_fexp prec emax (Zpos p) e l) as [mrs1 e1].
  destruct H1 as (Hm1 & Hd1 & -> & Hrep1).
  set (n := Zdigits2 (Zpos p) - 53) in *.
  assert (0 < 2 ^ n) as Hpow by (apply Z.pow_pos_nonneg; lia).
  set (P := D * 2 ^ n) in *.
  assert (0 < P) as HP by (subst P; nia).
  pose proof (round_nearest_even_represents N P mrs1 HP Hrep1) as [Herr Hmr].
  cbn zeta in Herr, Hmr.
  destruct (shr_m mrs1) as [|m1|m1] eqn:Em1; try lia.
  pose proof (Zdigits2_bounds_inv m1) as Hb1. rewrite Hd1 in Hb1.
  change (2 ^ (53 - 1)) with 4503599627370496 in Hb1.
  change (2 ^ 53) with 9007199254740992 in *.
  assert (4503599627370496 * P <= N) as HN.
  { destruct Hrep1 as (rem & HN & Hrem & _). rewrite Em1 in HN. nia. }
  set (r := round_nearest_even (Zpos m1) (loc_of_shr_record mrs1)) in *.
  clearbody r.
  assert (9007199254740992 * Z.abs (r * P - N) <= N) as Hrel by lia.
  assert (Zdigits2 r = 53 ∨ r = 9007199254740992) as Hrd.
  { destruct (Z.eq_dec r 9007199254740992) as [?|Hne]; [by right|left].
    apply Zdigits2_bounds; [lia|].
    change (2 ^ (53 - 1)) with 4503599627370496.
    change (2 ^ 53) with 9007199254740992. lia. }
  replace (Zdigits2 (Zpos p) + e - 53) with (e + n) in * by lia.
  destruct Hrd as [Hrd|Hrd].
  - (* no carry *)
    unfold shr_fexp. rewrite Hrd, fexp_eq.
    replace (Z.max (53 + (e + n) - 53) (-1074) - (e + n)) with 0 by lia.
    cbn [shr]. rewrite shr_m_of_loc.
    destruct r as [|q|q]; try lia.
    change (emax - prec) with 971.
    destruct (Z.leb_spec (e + n) 971); [|lia].
    exists q, (e + n). split; [reflexivity|]. split; [exact Hrd|]. split; [lia|].
    replace (e + n - e) with n by lia.
    replace (Zpos q * 2 ^ n * D) with (Zpos q * P) by (subst P; lia). exact Hrel.
  - (* the rounding carries to 2 ^ 53 *)
    unfold shr_fexp. rewrite Hrd.
    change (Zdigits2 9007199254740992) with 54. rewrite fexp_eq.
    replace (Z.max (54 + (e + n) - 53) (-1074) - (e + n)) with 1 by lia.
    cbn [shr shr_record_of_loc SpecFloat.iter_pos shr_1 shr_m].
    change (emax - prec) with 971.
    destruct (Z.leb_spec (e + n + 1) 971); [|lia].
    exists 4503599627370496%positive, (e + n + 1).
    split; [reflexivity|]. split; [reflexivity|]. split; [lia|].
    replace (e + n + 1 - e) with (n + 1) by lia.
    rewrite Z.pow_add_r by lia. change (2 ^ 1) with 2.
    replace (4503599627370496 * (2 ^ n * 2) * D) with (r * P) by (subst P; lia).
    exact Hrel.
Qed.

End rounding_facts.

Module sum_error_facts.
Import float_facts rounding_facts.

(** A number in canonical form is not rounded. *)
Lemma binary_round_aux_canonical s m e :
  fexp prec emax (Zdigits2 (Zpos m) + e) = e → e <= 971 →
  binary_round_aux prec emax s (Zpos m) e loc_Exact = S754_finite s m e.
Proof.
  intros Hc He. unfold binary_round_aux, shr_fexp. rewrite Hc, Z.sub_diag.
  cbn [shr shr_record_of_loc shr_m loc_of_shr_record round_nearest_even].
  rewrite Hc, Z.sub_diag. cbn [shr shr_m].
  change (emax - prec) with 971.
  destruct (Z.leb_spec e 971); [reflexivity|lia].
Qed.

Lemma bounded_canonical m e :
  fexp prec emax (Zdigits2 (Zpos m) + e) = e → e <= 971 →
  bounded prec emax m e = true.
Proof.
  intros Hc He. unfold bounded, canonical_mantissa.
  change (Zpos (digits2_pos m)) with (Zdigits2 (Zpos m)). rewrite Hc.
  change (emax - prec) with 971.
  apply andb_true_intro. split; [apply Z.eqb_eq|apply Z.leb_le]; lia.
Qed.

Lemma bounded_inv m e :
  bounded prec emax m e = true →
  fexp prec emax (Zdigits2 (Zpos m) + e) = e ∧ -1074 <= e <= 971.
Proof.
  unfold bounded, canonical_mantissa. intros [Hc He]%andb_prop.
  apply Z.eqb_eq in Hc. apply Z.leb_le in He.
  change (Zpos (digits2_pos m)) with (Zdigits2 (Zpos m)) in Hc.
  change (emax - prec) with 971 in He.
  split; [exact Hc|]. rewrite fexp_eq in Hc. lia.
Qed.

Lemma shl_align_value m e e' :
  e' <= e → Zpos (shl_align m e e').1 = Zpos m * 2 ^ (e - e').
Proof.
  intros He. unfold shl_align.
  destruct (e' - e) as [|d|d] eqn:Hd; cbn [fst]; try lia.
  - replace (e - e') with 0 by lia. lia.
  - rewrite conversion_facts.Zpos_iter_xO. f_equal. f_equal. lia.
Qed.

(** The number of digits of a number below a power of two. *)
Lemma Zdigits2_le p k : 0 <= k → Zpos p < 2 ^ k → Zdigits2 (Zpos p) <= k.
Proof.
  intros Hk Hp. pose proof (Zdigits2_bounds_inv p) as [Hlo _].
  destruct (Z.le_gt_cases (Zdigits2 (Zpos p)) k) as [?|Hgt]; [assumption|exfalso].
  assert (2 ^ k <= 2 ^ (Zdigits2 (Zpos p) - 1)) by (apply Z.pow_le_mono_r; lia).
  lia.
Qed.

(** Rounding the integer [p] at the exponent [e]: a finite number, off
    by no more than one part in [2 ^ 53]. *)
Lemma binary_round_value s p e :
  -1074 <= e → Zdigits2 (Zpos p) + e <= 1023 →
  ∃ m' e',
    binary_round prec emax s p e = S754_finite s m' e' ∧
    bounded prec emax m' e' = true ∧
    2 ^ 53 * Z.abs (Zpos m' * 2 ^ (e' + 1074) - Zpos p * 2 ^ (e + 1074))
    <= Zpos p * 2 ^ (e + 1074).
Proof.
  intros He Hk. unfold binary_round.
  change (Zpos (digits2_pos p)) with (Zdigits2 (Zpos p)).
  set (k := Zdigits2 (Zpos p)) in *.
  assert (1 <= k) as Hk1 by (subst k; cbn; lia).
  set (f := fexp prec emax (k + e)).
  assert (f = Z.max (k + e - 53) (-1074)) as Hf by (subst f; apply fexp_eq).
  assert (0 < 2 ^ (e + 1074)) as Hpow by (apply Z.pow_pos_nonneg; lia).
  destruct (Z.lt_trichotomy f e) as [Hlt|[Heq|Hgt]].
  - (* fewer than 53 digits: the mantissa is shifted to the left *)
    pose proof (shl_align_value p e f ltac:(lia)) as Hv.
    unfold shl_align in *.
    destruct (f - e) as [|d|d] eqn:Hd; try lia. cbn [fst] in Hv.
    assert (Zdigits2 (Zpos (Pos.iter xO p d)) = k + (e - f)) as Hdig.
    { change (Zdigits2 (Zpos (Pos.iter xO p d)))
        with (Zpos (digits2_pos (Pos.iter xO p d))).
      rewrite digits2_pos_iter_xO. subst k. cbn [Zdigits2]. lia. }
    assert (fexp prec emax (Zdigits2 (Zpos (Pos.iter xO p d)) + f) = f) as Hc.
    { rewrite Hdig. replace (k + (e - f) + f) with (k + e) by lia. reflexivity. }
    exists (Pos.iter xO p d), f.
    rewrite binary_round_aux_canonical by (try exact Hc; lia).
    split; [reflexivity|]. split; [apply bounded_canonical; [exact Hc|lia]|].
    rewrite Hv, <- Z.mul_assoc, <- Z.pow_add_r by lia.
    replace (e - f + (f + 1074)) with (e + 1074) by lia.
    rewrite Z.sub_diag. cbn [Z.abs]. nia.
  - (* just the digits of its exponent *)
    unfold shl_align. replace (f - e) with 0 by lia.
    assert (fexp prec emax (Zdigits2 (Zpos p) + e) = e) as Hc by (fold k; fold f; lia).
    exists p, e.
    rewrite binary_round_aux_canonical by (try exact Hc; lia).
    split; [reflexivity|]. split; [apply bounded_canonical; [exact Hc|lia]|].
    rewrite Z.sub_diag. cbn [Z.abs]. nia.
  - (* more than 53 digits: the mantissa is rounded *)
    unfold shl_align.
    destruct (f - e) as [|d|d] eqn:Hd; try lia.
    destruct (binary_round_aux_value s p e loc_Exact (Zpos p) 1)
      as (m' & e' & Hres & Hm' & He' & Herr);
      fold k; try lia.
    { apply represents_exact. }
    exists m', e'. split; [exact Hres|].
    split; [apply bounded_53; [exact Hm'|lia]|].
    replace (e' + 1074) with (e' - e + (e + 1074)) by lia.
    rewrite Z.pow_add_r, Z.mul_assoc, <- Z.mul_sub_distr_r by lia.
    rewrite Z.abs_mul, (Z.abs_eq (2 ^ (e + 1074))) by lia.
    rewrite Z.mul_1_r in Herr. nia.
Qed.

(** Normalizing the integer [M] at the exponent [e]. *)
Lemma binary_normalize_value M e :
  -1074 <= e → Z.abs M * 2 ^ (e + 1074) < 2 ^ 2097 →
  let z := binary_normalize prec emax M e false in
  SFfinite z = true ∧
  2 ^ 53 * Z.abs (SF2Z z - M * 2 ^ (e + 1074)) <= Z.abs M * 2 ^ (e + 1074).
Proof.
  intros He HM. cbn zeta.
  assert (0 < 2 ^ (e + 1074)) as Hpow by (apply Z.pow_pos_nonneg; lia).
  assert (∀ p, Zpos p * 2 ^ (e + 1074) < 2 ^ 2097 → Zdigits2 (Zpos p) + e <= 1023)
    as Hdigits.
  { intros p Hp.
    assert (e + 1074 < 2097) as He'.
    { apply (Z.pow_lt_mono_r_iff 2); [lia|lia|nia]. }
    assert (Zpos p < 2 ^ (1023 - e)) as Hlt.
    { apply (Z.mul_lt_mono_pos_r (2 ^ (e + 1074))); [lia|].
      rewrite <- Z.pow_add_r by lia.
      replace (1023 - e + (e + 1074)) with 2097 by lia. exact Hp. }
    pose proof (Zdigits2_le p (1023 - e) ltac:(lia) Hlt). lia. }
  destruct M as [|p|p]; cbn [binary_normalize].
  - split; [reflexivity|]. cbn. lia.
  - destruct (binary_round_value false p e He (Hdigits p HM))
      as (m' & e' & -> & Hb & Herr).
    cbn [SFfinite SF2Z cond_Zopp]. split; [exact Hb|]. exact Herr.
  - destruct (binary_round_value true p e He (Hdigits p HM))
      as (m' & e' & -> & Hb & Herr).
    cbn [SFfinite SF2Z cond_Zopp]. split; [exact Hb|].
    change (Z.abs (Zneg p)) with (Zpos p).
    replace (- (Zpos m' * 2 ^ (e' + 1074)) - Zneg p * 2 ^ (e + 1074))
      with (- (Zpos m' * 2 ^ (e' + 1074) - Zpos p * 2 ^ (e + 1074))) by lia.
    rewrite Z.abs_opp. exact Herr.
Qed.

Lemma cond_Zopp_mul s a b : cond_Zopp s a * b = cond_Zopp s (a * b).
Proof. destruct s; cbn [cond_Zopp]; lia. Qed.

(** The sum, or the difference, of two finite numbers at the smaller of
    their exponents, as [SFadd] and [SFsub] compute it before rounding. *)
Lemma aligned_value sx mx ex :
  ∀ ez, -1074 <= ez <= ex →
  cond_Zopp sx (Zpos (shl_align mx ex ez).1) * 2 ^ (ez + 1074)
  = SF2Z (S754_finite sx mx ex).
Proof.
  intros ez Hez. rewrite shl_align_value by lia. cbn [SF2Z].
  rewrite cond_Zopp_mul. f_equal.
  rewrite <- Z.mul_assoc, <- Z.pow_add_r by lia. f_equal. f_equal. lia.
Qed.

(** [SFadd]: the sum of two finite numbers is finite, and off by no more
    than one part in [2 ^ 53], when it is below [2 ^ 1023]. *)
Lemma SFadd_value x y :
  SFfinite x = true → SFfinite y = true →
  Z.abs (SF2Z x + SF2Z y) < 2 ^ 2097 →
  SFfinite (SFadd prec emax x y) = true ∧
  2 ^ 53 * Z.abs (SF2Z (SFadd prec emax x y) - (SF2Z x + SF2Z y))
  <= Z.abs (SF2Z x + SF2Z y).
Proof.
  intros Hx Hy Hsum.
  destruct x as [sx|sx| |sx mx ex], y as [sy|sy| |sy my ey]; try discriminate.
  - destruct sx, sy; cbn; split; try reflexivity; lia.
  - cbn [SFadd]. split; [exact Hy|].
    replace (SF2Z (S754_finite sy my ey) - (SF2Z (S754_zero sx) + SF2Z (S754_finite sy my ey)))
      with 0 by (cbn [SF2Z]; lia).
    cbn [Z.abs]. lia.
  - cbn [SFadd]. split; [exact Hx|].
    replace (SF2Z (S754_finite sx mx ex) - (SF2Z (S754_finite sx mx ex) + SF2Z (S754_zero sy)))
      with 0 by (cbn [SF2Z]; lia).
    cbn [Z.abs]. lia.
  - cbn [SFfinite] in Hx, Hy.
    destruct (bounded_inv _ _ Hx) as [_ Hex], (bounded_inv _ _ Hy) as [_ Hey].
    unfold SFadd.
    set (ez := Z.min ex ey).
    assert (-1074 <= ez <= ex ∧ ez <= ey) as Hez by (subst ez; lia).
    pose proof (aligned_value sx mx ex ez ltac:(lia)) as Hvx.
    pose proof (aligned_value sy my ey ez ltac:(lia)) as Hvy.
    set (M := cond_Zopp sx (Zpos (shl_align mx ex ez).1)
              + cond_Zopp sy (Zpos (shl_align my ey ez).1)) in *.
    assert (M * 2 ^ (ez + 1074)
            = SF2Z (S754_finite sx mx ex) + SF2Z (S754_finite sy my ey)) as HM.
    { subst M. rewrite Z.mul_add_distr_r, Hvx, Hvy. reflexivity. }
    assert (0 < 2 ^ (ez + 1074)) as Hpow by (apply Z.pow_pos_nonneg; lia).
    rewrite <- HM in *.
    assert (Z.abs (M * 2 ^ (ez + 1074)) = Z.abs M * 2 ^ (ez + 1074)) as Habs.
    { rewrite Z.abs_mul, (Z.abs_eq (2 ^ (ez + 1074))) by lia. reflexivity. }
    rewrite Habs in *.
    exact (binary_normalize_value M ez ltac:(lia) Hsum).
Qed.

Lemma SFsub_value x y :
  SFfinite x = true → SFfinite y = true →
  Z.abs (SF2Z x - SF2Z y) < 2 ^ 2097 →
  SFfinite (SFsub prec emax x y) = true ∧
  2 ^ 53 * Z.abs (SF2Z (SFsub prec emax x y) - (SF2Z x - SF2Z y))
  <= Z.abs (SF2Z x - SF2Z y).
Proof.
  intros Hx Hy Hsum.
  destruct x as [sx|sx| |sx mx ex], y as [sy|sy| |sy my ey]; try discriminate.
  - destruct sx, sy; cbn; split; try reflexivity; lia.
  - cbn [SFsub]. split; [exact Hy|].
    replace (SF2Z (S754_finite (negb sy) my ey)
             - (SF2Z (S754_zero sx) - SF2Z (S754_finite sy my ey)))
      with 0 by (cbn [SF2Z]; destruct sy; cbn [negb cond_Zopp]; lia).
    cbn [Z.abs]. lia.
  - cbn [SFsub]. split; [exact Hx|].
    replace (SF2Z (S754_finite sx mx ex) - (SF2Z (S754_finite sx mx ex) - SF2Z (S754_zero sy)))
      with 0 by (cbn [SF2Z]; lia).
    cbn [Z.abs]. lia.
  - cbn [SFfinite] in Hx, Hy.
    destruct (bounded_inv _ _ Hx) as [_ Hex], (bounded_inv _ _ Hy) as [_ Hey].
    unfold SFsub.
    set (ez := Z.min ex ey).
    assert (-1074 <= ez <= ex ∧ ez <= ey) as Hez by (subst ez; lia).
    pose proof (aligned_value sx mx ex ez ltac:(lia)) as Hvx.
    pose proof (aligned_value sy my ey ez ltac:(lia)) as Hvy.
    set (M := cond_Zopp sx (Zpos (shl_align mx ex ez).1)
              - cond_Zopp sy (Zpos (shl_align my ey ez).1)) in *.
    assert (M * 2 ^ (ez + 1074)
            = SF2Z (S754_finite sx mx ex) - SF2Z (S754_finite sy my ey)) as HM.
    { subst M. rewrite Z.mul_sub_distr_r, Hvx, Hvy. reflexivity. }
    assert (0 < 2 ^ (ez + 1074)) as Hpow by (apply Z.pow_pos_nonneg; lia).
    rewrite <- HM in *.
    assert (Z.abs (M * 2 ^ (ez + 1074)) = Z.abs M * 2 ^ (ez + 1074)) as Habs.
    { rewrite Z.abs_mul, (Z.abs_eq (2 ^ (ez + 1074))) by lia. reflexivity. }
    rewrite Habs in *.
    exact (binary_normalize_value M ez ltac:(lia) Hsum).
Qed.

End sum_error_facts.

(** ** float64: the error of a sum *)

(** The unit: one is [2 ^ 1074] of them, and the least positive
    [float64] is one of them. *)
Example in_units_of_one :
  in_units 1 = 2 ^ 1074 ∧ in_units (-0.5) = - 2 ^ 1073 ∧ in_units 5e-324 = 1.
Proof. repeat split; vm_compute; reflexivity. Qed.

Lemma float_add_value (x y : float) :
  finite64 x = true → finite64 y = true →
  Z.abs (in_units x + in_units y) < 2 ^ 2097 →
  finite64 (x + y) = true ∧
  2 ^ 53 * Z.abs (in_units (x + y) - (in_units x + in_units y))
  <= Z.abs (in_units x + in_units y).
Proof.
  unfold finite64, in_units. rewrite add_spec. apply sum_error_facts.SFadd_value.
Qed.

Lemma float_sub_value (x y : float) :
  finite64 x = true → finite64 y = true →
  Z.abs (in_units x - in_units y) < 2 ^ 2097 →
  finite64 (x - y) = true ∧
  2 ^ 53 * Z.abs (in_units (x - y) - (in_units x - in_units y))
  <= Z.abs (in_units x - in_units y).
Proof.
  unfold finite64, in_units. rewrite sub_spec. apply sum_error_facts.SFsub_value.
Qed.

Lemma abs_sum_nonneg l : 0 <= abs_sum l.
Proof. unfold abs_sum. induction l; cbn; lia. Qed.

Lemma exact_sum_le_abs_sum l : Z.abs (exact_sum l) <= abs_sum l.
Proof. unfold exact_sum, abs_sum. induction l; cbn in *; lia. Qed.

(** The sum from left to right of [l], begun at [start], which stands
    for the exact number [E0] after [k] additions: every addition adds
    at most one part in [2 ^ 52] of [A], a bound of the magnitudes, as
    long as there are no more than [2 ^ 52] additions. *)
Lemma fsum_error A l : ∀ (start : float) (E0 k : Z),
  finite64 start = true →
  Forall (λ x, finite64 x = true) l →
  0 <= k → A = 0 ∨ k + Z.of_nat (length l) <= 2 ^ 52 →
  Z.abs E0 + abs_sum l <= A → A < 2 ^ 2096 →
  2 ^ 52 * Z.abs (in_units start - E0) <= k * A →
  finite64 (fsum start l) = true ∧
  2 ^ 52 * Z.abs (in_units (fsum start l) - (E0 + exact_sum l))
  <= (k + Z.of_nat (length l)) * A.
Proof.
  unfold fsum.
  induction l as [|x l IH]; intros start E0 k Hstart Hl Hk Hlen HA Hmax Herr.
  - cbn [foldl length exact_sum fmap list_fmap foldr]. unfold exact_sum. cbn.
    split; [exact Hstart|]. rewrite !Z.add_0_r. exact Herr.
  - apply Forall_cons in Hl as [Hx Hl].
    cbn [foldl]. cbn [length] in Hlen.
    assert (abs_sum (x :: l) = Z.abs (in_units x) + abs_sum l) as Habs by reflexivity.
    assert (exact_sum (x :: l) = in_units x + exact_sum l) as Hex by reflexivity.
    pose proof (abs_sum_nonneg l) as Hnn.
    rewrite Habs in HA. rewrite Hex.
    change (2 ^ 52) with 4503599627370496 in *.
    assert (0 <= A) as HA0 by lia.
    assert (Z.abs (in_units start - E0) <= A) as Hdelta.
    { destruct Hlen as [->|Hlen]; [lia|nia]. }
    assert (Z.abs (in_units start + in_units x) <= 2 * A) as Hsum by lia.
    destruct (float_add_value start x Hstart Hx) as [Hfin Hadd].
    { change (2 ^ 2097) with (2 * 2 ^ 2096). lia. }
    change (2 ^ 53) with 9007199254740992 in Hadd.
    assert (4503599627370496 * Z.abs (in_units (start + x) - (E0 + in_units x))
            <= (k + 1) * A) as Herr'.
    { replace ((k + 1) * A) with (k * A + A) by ring. lia. }
    destruct (IH (start + x)%float (E0 + in_units x) (k + 1)) as [Hfin' Hres];
      try assumption; try lia.
    split; [exact Hfin'|].
    replace (E0 + (in_units x + exact_sum l)) with (E0 + in_units x + exact_sum l) by lia.
    replace (k + Z.of_nat (length (x :: l))) with (k + 1 + Z.of_nat (length l))
      by (cbn [length]; lia).
    exact Hres.
Qed.

Lemma exact_sum_Permutation l1 l2 : l1 ≡ₚ l2 → exact_sum l1 = exact_sum l2.
Proof. unfold exact_sum. induction 1; cbn in *; lia. Qed.

Lemma abs_sum_Permutation l1 l2 : l1 ≡ₚ l2 → abs_sum l1 = abs_sum l2.
Proof. unfold abs_sum. induction 1; cbn in *; lia. Qed.

(** Two orders of the same numbers: their sums from left to right are
    finite and differ by no more than [n] parts in [2 ^ 51] of the sum
    of the magnitudes. *)
Lemma fsum_Permutation_error l1 l2 :
  l1 ≡ₚ l2 →
  Forall (λ x, finite64 x = true) l1 →
  abs_sum l1 = 0 ∨ Z.of_nat (length l1) <= 2 ^ 52 → abs_sum l1 < 2 ^ 2096 →
  finite64 (fsum 0 l1) = true ∧ finite64 (fsum 0 l2) = true ∧
  2 ^ 51 * Z.abs (in_units (fsum 0 l1) - in_units (fsum 0 l2))
  <= Z.of_nat (length l1) * abs_sum l1.
Proof.
  intros Hp Hfin Hlen Hmax.
  assert (Forall (λ x, finite64 x = true) l2) as Hfin2 by (by rewrite <- Hp).
  pose proof (abs_sum_nonneg l1) as Hnn.
  assert (in_units 0 = 0) as Hzero by reflexivity.
  destruct (fsum_error (abs_sum l1) l1 0%float 0 0) as [H1 E1];
    try assumption; try reflexivity; try lia.
  destruct (fsum_error (abs_sum l1) l2 0%float 0 0) as [H2 E2];
    try assumption; try reflexivity; try lia.
  { rewrite <- (Permutation_length Hp). lia. }
  { rewrite <- (abs_sum_Permutation _ _ Hp). lia. }
  split; [exact H1|]. split; [exact H2|].
  rewrite <- (Permutation_length Hp), <- (exact_sum_Permutation _ _ Hp) in E2.
  change (2 ^ 52) with (2 * 2 ^ 51) in *.
  cbn [Z.add] in E1, E2. lia.
Qed.

(** ** float64: the kilometers of a distance *)

Module kilometers_facts.
Import float_facts rounding_facts sum_error_facts.

(** The place of the remainder [r] of a division by [D]. *)
Lemma new_location_represents q D r :
  0 < D → 0 <= r < D →
  represents (q * D + r) D (shr_record_of_loc q (new_location D r)).
Proof.
  intros HD Hr. exists r.
  assert (∀ l, (l = loc_Exact → r = 0) →
               (l = loc_Inexact Lt → r ≠ 0 ∧ 2 * r < D) →
               (l = loc_Inexact Eq → 2 * r = D) →
               (l = loc_Inexact Gt → D < 2 * r) →
               q * D + r = shr_m (shr_record_of_loc q l) * D + r ∧ 0 <= r < D ∧
               (shr_r (shr_record_of_loc q l) = true ↔ D <= 2 * r) ∧
               (shr_s (shr_record_of_loc q l) = true ↔ r ≠ 0 ∧ 2 * r ≠ D)) as Hgen.
  { intros l H1 H2 H3 H4. rewrite shr_m_of_loc.
    split; [reflexivity|]. split; [exact Hr|].
    destruct l as [|[]]; cbn [shr_record_of_loc shr_r shr_s].
    - specialize (H1 eq_refl). split; split; try discriminate; lia.
    - specialize (H3 eq_refl). split; split; try discriminate; try lia; done.
    - specialize (H2 eq_refl). split; split; try discriminate; try lia; done.
    - specialize (H4 eq_refl). split; split; try discriminate; try lia; done. }
  assert (Z.even D = false → 2 * r ≠ D) as Hodd.
  { intros Heven. rewrite <- Z.negb_odd in Heven. apply negb_false_iff in Heven.
    apply Z.odd_spec in Heven as [k Hk]. lia. }
  apply Hgen; unfold new_location, new_location_even, new_location_odd;
    destruct (Z.even D), (Z.eqb_spec r 0) as [Hr0|Hr0];
    try discriminate; try (intros _; lia).
  all: try (destruct (Z.compare_spec (2 * r) D); intros [=]; lia).
  all: specialize (Hodd eq_refl).
  all: try (destruct (Z.compare_spec (2 * r + 1) D); intros [=]; lia).
Qed.

(** An integer of less than 54 bits, other than zero, as a [float64]. *)
Lemma float64_of_int_53 n :
  0 < Z.abs n < 2 ^ 53 →
  ∃ m e,
    Prim2SF (float64_of_int n) = S754_finite (n <? 0) m e ∧
    Zdigits2 (Zpos m) = 53 ∧ -52 <= e <= 0 ∧ Zpos m = Z.abs n * 2 ^ (- e).
Proof.
  intros Hn.
  destruct (conversion_facts.float64_of_int_exact n Hn) as (m & e & Hp & He & Hv).
  exists m, e. split; [exact Hp|].
  assert (∃ s p, Zpos p = Z.abs n ∧ float64_of_int n
                 = SF2Prim (binary_round prec emax s p 0)) as (s & p & Hpn & Hf).
  { unfold float64_of_int. destruct n as [|p|p]; cbn [Z.abs] in Hn; try lia.
    - exists false, p. done.
    - exists true, p. done. }
  destruct (binary_round_int s p) as (m0 & e0 & Hr & Hm0 & He0).
  { change (2 ^ 63) with 9223372036854775808.
    change (2 ^ 53) with 9007199254740992 in Hn. lia. }
  rewrite Hf, Hr, Prim2SF_SF2Prim in Hp by (apply bounded_53; [exact Hm0|lia]).
  injection Hp as _ -> ->. split; [exact Hm0|]. split; [lia|exact Hv].
Qed.

(** The kilometers of a distance of less than [2 ^ 53] meters: finite,
    and off by no more than one part in [2 ^ 53] of the distance. *)
Lemma kilometers_value d :
  Z.abs d < 2 ^ 53 →
  finite64 (float64_of_int d / 1000) = true ∧
  2 ^ 53 * Z.abs (1000 * in_units (float64_of_int d / 1000) - d * 2 ^ 1074)
  <= Z.abs d * 2 ^ 1074.
Proof.
  intros Hd.
  destruct (Z.eq_dec d 0) as [->|Hnz].
  { split; [vm_compute; reflexivity|].
    replace (in_units (float64_of_int 0 / 1000)) with 0 by (vm_compute; reflexivity).
    cbn. lia. }
  destruct (float64_of_int_53 d ltac:(lia)) as (m & e & Hp & Hm & He & Hv).
  unfold finite64, in_units. rewrite div_spec. unfold SF64div. rewrite Hp.
  change (Prim2SF 1000%float) with (S754_finite false 8796093022208000 (-43)).
  unfold SFdiv, SFdiv_core_binary. rewrite Hm.
  change (Zdigits2 8796093022208000) with 53. rewrite fexp_eq.
  replace (Z.min (Z.max (53 + e - (53 + -43) - 53) (-1074)) (e - -43)) with (e - 10) by lia.
  replace (e - -43 - (e - 10)) with 53 by lia.
  pose proof (Zdigits2_bounds_inv m) as Hb. rewrite Hm in Hb.
  change (2 ^ (53 - 1)) with 4503599627370496 in Hb.
  change (2 ^ 53) with 9007199254740992 in *.
  rewrite Z.shiftl_mul_pow2 by lia. change (2 ^ 53) with 9007199254740992.
  pose proof (Z_div_mod (Zpos m * 9007199254740992) 8796093022208000 ltac:(lia)) as Hdiv.
  destruct (Z.div_eucl (Zpos m * 9007199254740992) 8796093022208000) as [q r].
  destruct Hdiv as [Hq Hr].
  assert (4503599627370496 <= q < 18014398509481984) as Hqb by lia.
  destruct q as [|q|q]; try lia.
  assert (Zdigits2 (Zpos q) = 53 \/ Zdigits2 (Zpos q) = 54) as Hqd.
  { destruct (Z.lt_ge_cases (Zpos q) 9007199254740992).
    - left. apply Zdigits2_bounds; [lia|].
      change (2 ^ (53 - 1)) with 4503599627370496.
      change (2 ^ 53) with 9007199254740992. lia.
    - right. apply Zdigits2_bounds; [lia|].
      change (2 ^ (54 - 1)) with 9007199254740992.
      change (2 ^ 54) with 18014398509481984. lia. }
  pose proof (new_location_represents (Zpos q) 8796093022208000 r ltac:(lia) Hr) as Hrep.
  replace (Zpos q * 8796093022208000 + r) with (Zpos m * 9007199254740992) in Hrep by lia.
  destruct (binary_round_aux_value (xorb (d <? 0) false) q (e - 10)
              (new_location 8796093022208000 r)
              (Zpos m * 9007199254740992) 8796093022208000)
    as (m' & e' & Hres & Hm' & He' & Herr); try lia; try exact Hrep.
  rewrite Hres. cbn [SFfinite SF2Z].
  split; [apply bounded_53; [exact Hm'|lia]|].
  change (2 ^ 53) with 9007199254740992 in Herr.
  (* the units *)
  set (S := 2 ^ 1074). set (T := 2 ^ (e + 1064)).
  assert (0 < T) as HT by (subst T; apply Z.pow_pos_nonneg; lia).
  assert (0 < S) as HS by (subst S; apply Z.pow_pos_nonneg; lia).
  set (V := Zpos m' * 2 ^ (e' - (e - 10))) in *.
  assert (Zpos m' * 2 ^ (e' + 1074) = V * T) as HX.
  { subst V T. rewrite <- Z.mul_assoc, <- Z.pow_add_r by lia. f_equal. f_equal. lia. }
  assert (Zpos m * 9007199254740992 * T = 8796093022208 * (Z.abs d * S)) as HNT.
  { rewrite Hv. subst T S.
    replace (2 ^ 1074) with (2 ^ (- e) * 2 ^ (e + 1064) * 2 ^ 10)
      by (rewrite <- !Z.pow_add_r by lia; f_equal; lia).
    change (2 ^ 10) with 1024. lia. }
  rewrite HX.
  assert (Z.abs (1000 * cond_Zopp (xorb (d <? 0) false) (V * T) - d * S)
          = Z.abs (1000 * (V * T) - Z.abs d * S)) as ->.
  { destruct (Z.ltb_spec d 0); cbn [xorb cond_Zopp]; lia. }
  assert (8796093022208 * Z.abs (1000 * (V * T) - Z.abs d * S)
          = Z.abs (V * 8796093022208000 - Zpos m * 9007199254740992) * T) as Hscale.
  { rewrite <- (Z.abs_eq T) at 2 by lia. rewrite <- Z.abs_mul.
    rewrite Z.mul_sub_distr_r, HNT.
    rewrite <- (Z.abs_eq 8796093022208) at 1 by lia. rewrite <- Z.abs_mul.
    f_equal. lia. }
  assert (9007199254740992
            * (Z.abs (V * 8796093022208000 - Zpos m * 9007199254740992) * T)
          <= Zpos m * 9007199254740992 * T) as Hmul.
  { rewrite Z.mul_assoc. apply Z.mul_le_mono_nonneg_r; [lia|exact Herr]. }
  rewrite <- Hscale, HNT in Hmul. lia.
Qed.

End kilometers_facts.

(** ** float64: the tolerance *)

Module tolerance_facts.
Import float_facts sum_error_facts.

(** The magnitude of a finite number is at most a positive one that is
    not below it in its value. *)
Lemma SFleb_abs x m e :
  SFfinite x = true → bounded prec emax m e = true →
  Z.abs (SF2Z x) <= Zpos m * 2 ^ (e + 1074) →
  SFleb (SFabs x) (S754_finite false m e) = true.
Proof.
  intros Hx Hb Hle.
  destruct x as [sx|sx| |sx mx ex]; try discriminate; [reflexivity|].
  cbn [SFfinite] in Hx.
  destruct (bounded_inv _ _ Hx) as [Hcx Hex], (bounded_inv _ _ Hb) as [Hc He].
  assert (Z.abs (SF2Z (S754_finite sx mx ex)) = Zpos mx * 2 ^ (ex + 1074)) as Habs.
  { cbn [SF2Z]. assert (0 < 2 ^ (ex + 1074)) by (apply Z.pow_pos_nonneg; lia).
    destruct sx; cbn [cond_Zopp]; nia. }
  rewrite Habs in Hle.
  unfold SFleb, SFabs, SFcompare.
  destruct (Z.compare_spec ex e) as [Heq|Hlt|Hgt]; [|reflexivity|exfalso].
  - subst e. rewrite Pos.compare_cont_spec. cbn [Pos.switch_Eq].
    assert (0 < 2 ^ (ex + 1074)) by (apply Z.pow_pos_nonneg; lia).
    assert (Zpos mx <= Zpos m) as Hm by nia.
    destruct (Pos.compare_spec mx m); try reflexivity. lia.
  - (* a larger exponent is the one of a larger number *)
    rewrite fexp_eq in Hcx, Hc.
    assert (Zdigits2 (Zpos mx) = 53) as Hdx by lia.
    assert (Zdigits2 (Zpos m) <= 53) as Hd by lia.
    pose proof (Zdigits2_bounds_inv mx) as Hbx. rewrite Hdx in Hbx.
    pose proof (Zdigits2_bounds_inv m) as Hbm.
    assert (Zpos m < 2 ^ 53) as Hm.
    { eapply Z.lt_le_trans; [apply Hbm|]. apply Z.pow_le_mono_r; lia. }
    change (2 ^ (53 - 1)) with 4503599627370496 in Hbx.
    change (2 ^ 53) with 9007199254740992 in *.
    assert (0 < 2 ^ (e + 1074)) as Hpow by (apply Z.pow_pos_nonneg; lia).
    assert (2 * 2 ^ (e + 1074) <= 2 ^ (ex + 1074)) as Hpow2.
    { replace (2 * 2 ^ (e + 1074)) with (2 ^ (e + 1 + 1074))
        by (replace (e + 1 + 1074) with (1 + (e + 1074)) by lia;
            rewrite Z.pow_add_r by lia; reflexivity).
      apply Z.pow_le_mono_r; lia. }
    nia.
Qed.

(** Two finite numbers whose values differ by a little less than
    [1e-9] are within the tolerance. *)
Lemma float_within_tolerance (a b : float) :
  finite64 a = true → finite64 b = true →
  (2 ^ 53 + 1) * Z.abs (in_units a - in_units b)
  <= 2 ^ 53 * (4835703278458517 * 2 ^ 992) →
  within_tolerance (Some a) (Some b) = true.
Proof.
  intros Ha Hb Hclose. cbn [within_tolerance].
  rewrite leb_spec, abs_spec.
  change (Prim2SF 1e-9) with (S754_finite false 4835703278458517 (-82)).
  destruct (float_sub_value a b Ha Hb) as [Hfin Herr].
  { assert (2 ^ 53 * (4835703278458517 * 2 ^ 992) < 2 ^ 53 * 2 ^ 2097) as Hlt.
    { apply Z.mul_lt_mono_pos_l; [reflexivity|].
      change (2 ^ 2097) with (2 ^ 1105 * 2 ^ 992).
      apply Z.mul_lt_mono_pos_r; reflexivity. }
    change (2 ^ 53) with 9007199254740992 in *. lia. }
  apply SFleb_abs; [exact Hfin|reflexivity|].
  change (-82 + 1074) with 992. fold (in_units (a - b)).
  change (2 ^ 53) with 9007199254740992 in *. lia.
Qed.

End tolerance_facts.

Module kilometers_range_facts.
Import float_facts.

(** The kilometers of an [int64]: finite, and below [2 ^ 57]. *)
Lemma kilometers_finite d :
  - 2 ^ 63 <= d <= 2 ^ 63 →
  finite64 (float64_of_int d / 1000) = true ∧
  Z.abs (in_units (float64_of_int d / 1000)) < 2 ^ 57 * 2 ^ 1074.
Proof.
  intros Hd.
  destruct (Z.eq_dec d 0) as [->|Hnz].
  { split; [vm_compute; reflexivity|].
    replace (in_units (float64_of_int 0 / 1000)) with 0 by (vm_compute; reflexivity).
    reflexivity. }
  assert (∃ s p, float64_of_int d = SF2Prim (binary_round prec emax s p 0) ∧
                 Zpos p <= 2 ^ 63) as (s & p & Hf & Hp).
  { unfold float64_of_int. destruct d as [|p|p]; [done| |].
    - exists false, p. split; [reflexivity|lia].
    - exists true, p. split; [reflexivity|lia]. }
  destruct (binary_round_int s p Hp) as (m & e & Hr & Hm & He).
  unfold finite64, in_units. rewrite div_spec. unfold SF64div.
  rewrite Hf, Hr, Prim2SF_SF2Prim by (apply bounded_53; [exact Hm|lia]).
  change (Prim2SF 1000%float) with (S754_finite false 8796093022208000 (-43)).
  unfold SFdiv, SFdiv_core_binary. rewrite Hm.
  change (Zdigits2 8796093022208000) with 53. rewrite fexp_eq.
  replace (Z.min (Z.max (53 + e - (53 + -43) - 53) (-1074)) (e - -43)) with (e - 10) by lia.
  replace (e - -43 - (e - 10)) with 53 by lia.
  pose proof (Zdigits2_bounds_inv m) as Hb. rewrite Hm in Hb.
  change (2 ^ (53 - 1)) with 4503599627370496 in Hb.
  change (2 ^ 53) with 9007199254740992 in Hb.
  rewrite Z.shiftl_mul_pow2 by lia. change (2 ^ 53) with 9007199254740992.
  pose proof (Z_div_mod (Zpos m * 9007199254740992) 8796093022208000 ltac:(lia)) as Hdiv.
  destruct (Z.div_eucl (Zpos m * 9007199254740992) 8796093022208000) as [q r].
  destruct Hdiv as [Hq Hrem].
  assert (4503599627370496 <= q < 18014398509481984) as Hqb by lia.
  destruct q as [|q|q]; try lia.
  assert (Zdigits2 (Zpos q) = 53 \/ Zdigits2 (Zpos q) = 54) as Hqd.
  { destruct (Z.lt_ge_cases (Zpos q) 9007199254740992).
    - left. apply Zdigits2_bounds; [lia|].
      change (2 ^ (53 - 1)) with 4503599627370496.
      change (2 ^ 53) with 9007199254740992. lia.
    - right. apply Zdigits2_bounds; [lia|].
      change (2 ^ (54 - 1)) with 9007199254740992.
      change (2 ^ 54) with 18014398509481984. lia. }
  destruct (binary_round_aux_finite (xorb s false) q (e - 10)
              (new_location 8796093022208000 r)) as (m' & e' & Hres & Hm' & He'); try lia.
  rewrite Hres. cbn [SFfinite SF2Z].
  split; [apply bounded_53; [exact Hm'|lia]|].
  pose proof (Zdigits2_bounds_inv m') as Hb'. rewrite Hm' in Hb'.
  assert (0 < 2 ^ (e' + 1074)) as Hpow by (apply Z.pow_pos_nonneg; lia).
  assert (2 ^ (e' + 1074) <= 2 ^ 4 * 2 ^ 1074) as Hpow'.
  { rewrite <- Z.pow_add_r by lia. apply Z.pow_le_mono_r; lia. }
  assert (Z.abs (cond_Zopp (xorb s false) (Zpos m' * 2 ^ (e' + 1074)))
          = Zpos m' * 2 ^ (e' + 1074)) as ->.
  { destruct (xorb s false); cbn [cond_Zopp]; nia. }
  change (2 ^ 57) with (2 ^ 53 * 2 ^ 4).
  set (S := 2 ^ 1074) in *. assert (0 < S) by (subst S; reflexivity).
  change (2 ^ 53) with 9007199254740992 in *. change (2 ^ 4) with 16 in *.
  nia.
Qed.

End kilometers_range_facts.

(** ** The date of a timestamp *)

Module time_facts.
Import time.

(** Linear arithmetic with division and remainder by constants. *)
Ltac lia_div := Z.div_mod_to_equations; lia.

Lemma int64_small x : - 2 ^ 63 <= x < 2 ^ 63 → int64 x = x.
Proof. unfold int64. intros H. rewrite Z.mod_small by lia. lia. Qed.

Lemma uint64_small x : 0 <= x < 2 ^ 64 → uint64 x = x.
Proof. unfold uint64. intros H. apply Z.mod_small. lia. Qed.

Lemma int64_add_int64 x y : int64 (int64 x + y) = int64 (x + y).
Proof.
  unfold int64.
  change (2 ^ 64) with 18446744073709551616.
  change (2 ^ 63) with 9223372036854775808.
  lia_div.
Qed.

Lemma norm_in_range hi lo base : 0 <= lo < base → norm hi lo base = (hi, lo).
Proof.
  intros H. unfold norm.
  destruct (Z.ltb_spec lo 0); [lia|].
  destruct (Z.geb_spec lo base); [lia|reflexivity].
Qed.

(** The years since the absolute zero year, split into cycles of 400,
    100 and 4 years. *)
Lemma daysSinceEpoch_cycles a b c e :
  0 <= a < 2 ^ 40 → 0 <= b <= 3 → 0 <= c <= 24 → 0 <= e <= 3 →
  daysSinceEpoch (400 * a + 100 * b + 4 * c + e + absoluteZeroYear)
  = 146097 * a + 36524 * b + 1461 * c + 365 * e.
Proof.
  intros Ha Hb Hc He. unfold daysSinceEpoch.
  assert (absoluteZeroYear = -292277022399) as Hz by reflexivity.
  rewrite int64_small by (rewrite Hz; lia).
  replace (400 * a + 100 * b + 4 * c + e + absoluteZeroYear - absoluteZeroYear)
    with (400 * a + 100 * b + 4 * c + e) by lia.
  rewrite (uint64_small (400 * a + 100 * b + 4 * c + e)) by lia.
  cbv zeta.
  replace ((400 * a + 100 * b + 4 * c + e) / 400) with a by lia_div.
  replace (400 * a + 100 * b + 4 * c + e - 400 * a) with (100 * b + 4 * c + e) by lia.
  replace ((100 * b + 4 * c + e) / 100) with b by lia_div.
  replace (100 * b + 4 * c + e - 100 * b) with (4 * c + e) by lia.
  replace ((4 * c + e) / 4) with c by lia_div.
  replace (4 * c + e - 4 * c) with e by lia.
  unfold daysPer400Years, daysPer100Years, daysPer4Years.
  rewrite uint64_small by lia. lia.
Qed.

(** The day [yd] of the year that follows [a] cycles of 400 years, [b]
    of 100, [c] of 4 and [e] years; the year has 366 days when it ends a
    cycle of 4 years and not one of 100, or ends one of 400. *)
Lemma absYearDay_cycles a b c e yd tod :
  0 <= a < 2 ^ 40 → 0 <= b <= 3 → 0 <= c <= 24 → 0 <= e <= 3 →
  0 <= tod < 86400 →
  0 <= yd →
  yd <= 364 ∨ (yd = 365 ∧ e = 3 ∧ (c ≠ 24 ∨ b = 3)) →
  absYearDay ((146097 * a + 36524 * b + 1461 * c + 365 * e + yd) * 86400 + tod)
  = (400 * a + 100 * b + 4 * c + e + absoluteZeroYear, yd).
Proof.
  intros Ha Hb Hc He Htod Hyd Hleap. unfold absYearDay.
  change secondsPerDay with 86400. change daysPer400Years with 146097.
  change daysPer100Years with 36524. change daysPer4Years with 1461.
  cbv zeta.
  set (N := 146097 * a + 36524 * b + 1461 * c + 365 * e + yd).
  replace ((N * 86400 + tod) / 86400) with N by lia_div.
  replace (N / 146097) with a by (subst N; lia_div).
  replace (N - 146097 * a) with (36524 * b + 1461 * c + 365 * e + yd) by (subst N; lia).
  clear N. set (R1 := 36524 * b + 1461 * c + 365 * e + yd).
  rewrite !Z.shiftr_div_pow2 by lia. change (2 ^ 2) with 4.
  replace (R1 / 36524 - R1 / 36524 / 4) with b by (subst R1; lia_div).
  replace (R1 - 36524 * b) with (1461 * c + 365 * e + yd) by (subst R1; lia).
  clear R1. set (R2 := 1461 * c + 365 * e + yd).
  replace (R2 / 1461) with c by (subst R2; lia_div).
  replace (R2 - 1461 * c) with (365 * e + yd) by (subst R2; lia).
  clear R2. set (R3 := 365 * e + yd).
  replace (R3 / 365 - R3 / 365 / 4) with e by (subst R3; lia_div).
  replace (R3 - 365 * e) with yd by (subst R3; lia).
  assert (absoluteZeroYear = -292277022399) as Hz by reflexivity.
  rewrite int64_add_int64, int64_small by (rewrite Hz; lia).
  reflexivity.
Qed.

Lemma isLeap_cycles a b c e :
  0 <= b <= 3 → 0 <= c <= 24 → 0 <= e <= 3 →
  0 <= 400 * a + 100 * b + 4 * c + e + absoluteZeroYear →
  isLeap (400 * a + 100 * b + 4 * c + e + absoluteZeroYear)
  = (e =? 3) && (negb (c =? 24) || (b =? 3)).
Proof.
  intros Hb Hc He Hyear. unfold isLeap.
  assert (absoluteZeroYear = -292277022399) as Hz by reflexivity.
  rewrite Hz in *.
  rewrite !Z.rem_mod_nonneg by lia.
  set (year := 400 * a + 100 * b + 4 * c + e + -292277022399) in *.
  assert (year mod 4 = 0 ↔ e = 3) as H4 by (subst year; lia_div).
  assert (year mod 100 = 0 ↔ c = 24 ∧ e = 3) as H100 by (subst year; lia_div).
  assert (year mod 400 = 0 ↔ b = 3 ∧ c = 24 ∧ e = 3) as H400 by (subst year; lia_div).
  destruct (Z.eqb_spec (year mod 4) 0), (Z.eqb_spec (year mod 100) 0),
    (Z.eqb_spec (year mod 400) 0), (Z.eqb_spec e 3), (Z.eqb_spec c 24),
    (Z.eqb_spec b 3); simpl; try reflexivity; exfalso; lia.
Qed.

Lemma daysIn_leap_eq month year : daysIn month year = daysIn_leap (isLeap year) month.
Proof. reflexivity. Qed.

Lemma elem_of_In_seqZ k m n : m <= k < m + n → In k (seqZ m n).
Proof. intros H. apply list_elem_of_In, elem_of_seqZ. lia. Qed.

Lemma daysIn_leap_le_31 leap month : 1 <= month <= 12 → daysIn_leap leap month <= 31.
Proof.
  intros H.
  assert (month = 1 ∨ month = 2 ∨ month = 3 ∨ month = 4 ∨ month = 5 ∨ month = 6 ∨
          month = 7 ∨ month = 8 ∨ month = 9 ∨ month = 10 ∨ month = 11 ∨ month = 12)
    as Hm by lia.
  destruct leap; repeat (destruct Hm as [->|Hm]); try subst month;
    vm_compute; discriminate.
Qed.

(** Month and day come back from the day of the year. *)
Lemma monthDay_yearDay leap month day :
  1 <= month <= 12 → 1 <= day <= daysIn_leap leap month →
  0 <= yearDay leap month day <= (if leap then 365 else 364) ∧
  monthDay leap (yearDay leap month day) = (month, day).
Proof.
  intros Hmonth Hday.
  pose proof (daysIn_leap_le_31 leap month Hmonth) as H31.
  assert (monthDay_table = true) as Htable by (vm_compute; reflexivity).
  unfold monthDay_table in Htable.
  rewrite forallb_forall in Htable.
  specialize (Htable leap ltac:(destruct leap; simpl; auto)).
  rewrite forallb_forall in Htable.
  specialize (Htable month (elem_of_In_seqZ month 1 12 ltac:(lia))).
  rewrite forallb_forall in Htable.
  specialize (Htable day (elem_of_In_seqZ day 1 31 ltac:(lia))).
  rewrite (proj2 (Z.leb_le _ _)) in Htable by lia.
  cbn [implb] in Htable. cbv zeta in Htable.
  apply andb_true_iff in Htable as [Hrange Hmd].
  apply andb_true_iff in Hrange as [Hlo Hhi].
  apply bool_decide_eq_true in Hmd.
  apply Z.leb_le in Hlo, Hhi. done.
Qed.

Lemma absDate_abs_Date a b c e month day hour min sec ns ns' zo :
  0 <= b <= 3 → 0 <= c <= 24 → 0 <= e <= 3 →
  0 <= 400 * a + 100 * b + 4 * c + e + absoluteZeroYear <= 9999 →
  1 <= month <= 12 →
  1 <= day <= daysIn month (400 * a + 100 * b + 4 * c + e + absoluteZeroYear) →
  0 <= hour < 24 → 0 <= min < 60 → 0 <= sec < 60 → 0 <= ns < 1000000000 →
  -90000 <= zo <= 90000 →
  absDate (abs {| unixSec :=
                    int64 (unixSec (Date (400 * a + 100 * b + 4 * c + e + absoluteZeroYear)
                                     month day hour min sec ns) - zo);
                  nsec := ns'; offset := zo |})
  = (400 * a + 100 * b + 4 * c + e + absoluteZeroYear, month, day).
Proof.
  intros Hb Hc He Hyear Hmonth Hday Hhour Hmin Hsec Hns Hzo.
  assert (absoluteZeroYear = -292277022399) as Hz by reflexivity.
  assert (0 <= a < 2 ^ 40) as Ha by (rewrite Hz in Hyear; lia).
  rewrite daysIn_leap_eq in Hday.
  destruct (monthDay_yearDay _ _ _ Hmonth Hday) as [Hyd Hmd].
  unfold Date.
  rewrite (norm_in_range _ (month - 1) 12) by lia.
  rewrite (norm_in_range sec ns) by lia.
  rewrite (norm_in_range min sec) by lia.
  rewrite (norm_in_range hour min) by lia.
  rewrite (norm_in_range day hour) by lia.
  cbv beta iota zeta.
  replace (month - 1 + 1) with month by lia.
  rewrite daysSinceEpoch_cycles by lia.
  set (year := 400 * a + 100 * b + 4 * c + e + absoluteZeroYear) in *.
  set (leap := isLeap year) in *.
  set (yd := yearDay leap month day) in *.
  set (E := 146097 * a + 36524 * b + 1461 * c + 365 * e).
  pose proof (daysIn_leap_le_31 leap month Hmonth) as H31.
  replace ((if leap && (month >=? March)
            then E + daysBefore_at (month - 1) + 1
            else E + daysBefore_at (month - 1)) + uint64 (day - 1))
    with (E + yd).
  2:{ subst yd. unfold yearDay. rewrite uint64_small by lia.
      destruct (leap && (month >=? March)); lia. }
  change secondsPerDay with 86400. change secondsPerHour with 3600.
  change secondsPerMinute with 60.
  set (tod := hour * 3600 + min * 60 + sec).
  assert (0 <= tod < 86400) as Htod by (subst tod; lia).
  rewrite (uint64_small tod) by lia.
  assert (0 <= yd <= 365) as Hyd' by (destruct leap; lia).
  assert (0 <= E < 2 ^ 58) as HE by (subst E; lia).
  rewrite (uint64_small ((E + yd) * 86400 + tod)) by lia.
  cbn [unixSec]. unfold abs. cbn [unixSec offset].
  set (X := (E + yd) * 86400 + tod).
  assert (0 <= X < 2 ^ 64) as HX by (subst X; lia).
  replace (uint64 (int64 (int64 (int64 X + (absoluteToInternal + internalToUnix)) - zo)
                   + zo + (unixToInternal + internalToAbsolute))) with X.
  2:{ change (absoluteToInternal + internalToUnix) with (-9223372028715321600).
      change (unixToInternal + internalToAbsolute) with 9223372028715321600.
      unfold uint64, int64.
      change (2 ^ 64) with 18446744073709551616 in *.
      change (2 ^ 63) with 9223372036854775808.
      clearbody X. clear -HX. lia_div. }
  unfold absDate. subst X E.
  rewrite absYearDay_cycles; try lia.
  2:{ subst leap year. rewrite isLeap_cycles in Hyd by lia.
      destruct (Z.eqb_spec e 3), (Z.eqb_spec c 24), (Z.eqb_spec b 3);
        cbn [andb orb negb] in Hyd; lia. }
  fold year. fold leap. rewrite Hmd. reflexivity.
Qed.

End time_facts.

Module parse_facts.
Import time time_facts.

Lemma bind_inr {E A B} (r : result E A) (k : A → result E B) b :
  r ≫= k = inr b → ∃ a, r = inr a ∧ k a = inr b.
Proof. destruct r as [e|a]; [discriminate|]. intros H. exists a. done. Qed.

Lemma digit_range c : isDigit c = true → 0 <= digit c <= 9.
Proof.
  unfold isDigit, digit. rewrite andb_true_iff, !N.leb_le. lia.
Qed.

Lemma isDigit_In c : isDigit c = true → In c digits.
Proof.
  destruct c as [[] [] [] [] [] [] [] []]; intros H;
    try discriminate H; vm_compute; tauto.
Qed.

Lemma appendInt2_digits a b :
  isDigit a = true → isDigit b = true →
  appendInt (digit a * 10 + digit b) 2 = String a (String b EmptyString).
Proof.
  intros Ha Hb.
  assert (appendInt2_table = true) as Htable by (vm_compute; reflexivity).
  unfold appendInt2_table in Htable.
  rewrite forallb_forall in Htable.
  specialize (Htable a (isDigit_In a Ha)).
  rewrite forallb_forall in Htable.
  specialize (Htable b (isDigit_In b Hb)).
  by apply bool_decide_eq_true in Htable.
Qed.

Lemma appendInt4_digits a b c d :
  isDigit a = true → isDigit b = true → isDigit c = true → isDigit d = true →
  appendInt (digit a * 1000 + digit b * 100 + digit c * 10 + digit d) 4
  = String a (String b (String c (String d EmptyString))).
Proof.
  intros Ha Hb Hc Hd.
  assert (appendInt4_table = true) as Htable by (vm_compute; reflexivity).
  unfold appendInt4_table in Htable.
  rewrite forallb_forall in Htable.
  specialize (Htable a (isDigit_In a Ha)).
  rewrite forallb_forall in Htable.
  specialize (Htable b (isDigit_In b Hb)).
  rewrite forallb_forall in Htable.
  specialize (Htable c (isDigit_In c Hc)).
  rewrite forallb_forall in Htable.
  specialize (Htable d (isDigit_In d Hd)).
  by apply bool_decide_eq_true in Htable.
Qed.

Lemma getyear_inr value year rest :
  getyear value = inr (year, rest) →
  ∃ a b c d,
    value = String a (String b (String c (String d rest))) ∧
    isDigit a = true ∧ isDigit b = true ∧ isDigit c = true ∧ isDigit d = true ∧
    year = digit a * 1000 + digit b * 100 + digit c * 10 + digit d.
Proof.
  unfold getyear.
  destruct value as [|a [|b [|c [|d rest']]]]; try discriminate.
  destruct (isDigit a) eqn:Ha, (isDigit b) eqn:Hb, (isDigit c) eqn:Hc,
    (isDigit d) eqn:Hd; try discriminate.
  intros [= <- <-]. exists a, b, c, d. done.
Qed.

Lemma skip_inr value prefix rest :
  skip value prefix = inr rest → value = String prefix rest.
Proof.
  unfold skip. destruct value as [|c value]; [discriminate|].
  destruct (Ascii.eqb_spec c prefix) as [->|]; [|discriminate].
  by intros [= ->].
Qed.

Lemma getnum_fixed_inr value n rest :
  getnum value true = inr (n, rest) →
  ∃ a b,
    value = String a (String b rest) ∧ isDigit a = true ∧ isDigit b = true ∧
    n = digit a * 10 + digit b.
Proof.
  unfold getnum. destruct value as [|a [|b rest']];
    try discriminate; destruct (isDigit a) eqn:Ha; try discriminate.
  destruct (isDigit b) eqn:Hb; [|discriminate].
  intros [= <- <-]. exists a, b. done.
Qed.

Lemma getnum_range value fixed n rest :
  getnum value fixed = inr (n, rest) → 0 <= n <= 99.
Proof.
  unfold getnum. destruct value as [|a value]; [discriminate|].
  destruct (isDigit a) eqn:Ha; [|discriminate].
  pose proof (digit_range a Ha).
  destruct value as [|b value].
  - destruct fixed; [discriminate|]. intros [= <- <-]. lia.
  - destruct (isDigit b) eqn:Hb.
    + pose proof (digit_range b Hb). intros [= <- <-]. lia.
    + destruct fixed; [discriminate|]. intros [= <- <-]. lia.
Qed.

Lemma getzone_range value zoneOffset rest :
  getzone value = inr (zoneOffset, rest) → -90000 <= zoneOffset <= 90000.
Proof.
  unfold getzone. destruct value as [|c0 value]; [discriminate|].
  destruct (Ascii.eqb c0 "Z"); [intros [= <- <-]; lia|].
  destruct value as [|h1 [|h2 [|colon [|m1 [|m2 value]]]]]; try discriminate.
  destruct (negb (Ascii.eqb colon ":")); [discriminate|].
  destruct (getnum (String h1 (String h2 EmptyString)) true)
    as [err|[hr r1]] eqn:Hhr; cbn [mbind result_bind].
  { destruct (0 >? 60), (0 >? 24); discriminate. }
  destruct (getnum (String m1 (String m2 EmptyString)) true)
    as [err|[mm r2]] eqn:Hmm.
  { destruct (0 >? 60), (hr >? 24); discriminate. }
  apply getnum_range in Hhr, Hmm.
  destruct (Z.gtb_spec mm 60); [discriminate|].
  destruct (Z.gtb_spec hr 24); [discriminate|].
  destruct (Ascii.eqb c0 "+"); [intros [= <- <-]; lia|].
  destruct (Ascii.eqb c0 "-"); [intros [= <- <-]; lia|discriminate].
Qed.

Lemma leading_digits_all s : all_digits (leading_digits s).1 = true.
Proof.
  induction s as [|c s IH]; [reflexivity|]. cbn [leading_digits].
  destruct (isDigit c) eqn:Hc; [|reflexivity].
  destruct (leading_digits s) as [ds rest]. cbn [fst all_digits] in *.
  by rewrite Hc, IH.
Qed.

Lemma substring_all_digits n : ∀ s,
  all_digits s = true → all_digits (String.substring 0 n s) = true.
Proof.
  induction n as [|n IH]; intros [|c s]; try reflexivity.
  cbn [String.substring all_digits]. rewrite !andb_true_iff.
  intros [Hc Hs]. auto.
Qed.

Lemma substring_length_le n : ∀ s,
  (String.length (String.substring 0 n s) ≤ n)%nat.
Proof.
  induction n as [|n IH]; intros [|c s]; cbn [String.substring String.length]; try lia.
  specialize (IH s). lia.
Qed.

Lemma atoi_from_bound s : ∀ acc,
  all_digits s = true → 0 <= acc →
  acc * 10 ^ Z.of_nat (String.length s) <= atoi_from acc s
  < (acc + 1) * 10 ^ Z.of_nat (String.length s).
Proof.
  induction s as [|c s IH]; intros acc Hs Hacc.
  - cbn [atoi_from String.length]. change (10 ^ Z.of_nat 0) with 1. lia.
  - cbn [all_digits] in Hs. apply andb_true_iff in Hs as [Hc Hs].
    pose proof (digit_range c Hc) as Hd.
    cbn [atoi_from String.length].
    specialize (IH (acc * 10 + digit c) Hs ltac:(lia)).
    rewrite Nat2Z.inj_succ, Z.pow_succ_r by lia.
    assert (0 < 10 ^ Z.of_nat (String.length s)) as Hpos
      by (apply Z.pow_pos_nonneg; lia).
    nia.
Qed.

Lemma parseNanoseconds_range ds :
  all_digits ds = true → 0 <= parseNanoseconds ds < 1000000000.
Proof.
  intros Hds. unfold parseNanoseconds.
  set (ds9 := String.substring 0 9 ds).
  pose proof (substring_length_le 9 ds) as Hlen. fold ds9 in Hlen.
  pose proof (atoi_from_bound ds9 0 (substring_all_digits 9 ds Hds) ltac:(lia)) as Hb.
  set (n := Z.of_nat (String.length ds9)) in *.
  assert (0 <= n <= 9) as Hn by lia.
  assert (10 ^ n * 10 ^ (9 - n) = 1000000000) as Hpow.
  { rewrite <- Z.pow_add_r by lia. replace (n + (9 - n)) with 9 by lia. reflexivity. }
  assert (0 < 10 ^ n) by (apply Z.pow_pos_nonneg; lia).
  assert (0 < 10 ^ (9 - n)) by (apply Z.pow_pos_nonneg; lia).
  nia.
Qed.

Lemma fraction_range value ns rest :
  fraction value = (ns, rest) → 0 <= ns < 1000000000.
Proof.
  unfold fraction. destruct value as [|sep [|c1 value]]; try (intros [= <- <-]; lia).
  destruct (commaOrPeriod sep && isDigit c1); [|intros [= <- <-]; lia].
  pose proof (leading_digits_all (String c1 value)) as Hall.
  destruct (leading_digits (String c1 value)) as [ds rest'].
  intros [= <- <-]. by apply parseNanoseconds_range.
Qed.

(** What a timestamp that parses looks like, and the time it gives. *)
Lemma Parse_RFC3339_inr value t :
  Parse_RFC3339 value = inr t →
  ∃ y1 y2 y3 y4 m1 m2 d1 d2 rest hour min sec ns zoneOffset,
    value = String y1 (String y2 (String y3 (String y4 (String "-"
              (String m1 (String m2 (String "-" (String d1 (String d2 rest))))))))) ∧
    isDigit y1 = true ∧ isDigit y2 = true ∧ isDigit y3 = true ∧ isDigit y4 = true ∧
    isDigit m1 = true ∧ isDigit m2 = true ∧ isDigit d1 = true ∧ isDigit d2 = true ∧
    let year := digit y1 * 1000 + digit y2 * 100 + digit y3 * 10 + digit y4 in
    let month := digit m1 * 10 + digit m2 in
    let day := digit d1 * 10 + digit d2 in
    1 <= month <= 12 ∧ 1 <= day <= daysIn month year ∧
    0 <= hour < 24 ∧ 0 <= min < 60 ∧ 0 <= sec < 60 ∧
    0 <= ns < 1000000000 ∧ -90000 <= zoneOffset <= 90000 ∧
    t = {| unixSec := int64 (unixSec (Date year month day hour min sec ns) - zoneOffset);
           nsec := nsec (Date year month day hour min sec ns);
           offset := zoneOffset |}.
Proof.
  unfold Parse_RFC3339. intros H.
  apply bind_inr in H as ([year v1] & Hyear & H).
  apply bind_inr in H as (v2 & Hs1 & H).
  apply bind_inr in H as ([month v3] & Hmonth & H).
  destruct ((month <=? 0) || (12 <? month)) eqn:Hmr; [discriminate|].
  apply bind_inr in H as (v4 & Hs2 & H).
  apply bind_inr in H as ([day v5] & Hday & H).
  apply bind_inr in H as (v6 & Hs3 & H).
  apply bind_inr in H as ([hour v7] & Hhour & H).
  destruct ((hour <? 0) || (24 <=? hour)) eqn:Hhr; [discriminate|].
  apply bind_inr in H as (v8 & Hs4 & H).
  apply bind_inr in H as ([min v9] & Hmin & H).
  destruct ((min <? 0) || (60 <=? min)) eqn:Hminr; [discriminate|].
  apply bind_inr in H as (v10 & Hs5 & H).
  apply bind_inr in H as ([sec v11] & Hsec & H).
  destruct ((sec <? 0) || (60 <=? sec)) eqn:Hsecr; [discriminate|].
  destruct (fraction v11) as [ns v12] eqn:Hfrac.
  apply bind_inr in H as ([zoneOffset v13] & Hzone & H).
  destruct (negb (is_empty v13)); [discriminate|].
  destruct ((day <? 1) || (daysIn month year <? day)) eqn:Hdayr; [discriminate|].
  injection H as <-.
  apply getyear_inr in Hyear as (y1 & y2 & y3 & y4 & -> & Hy1 & Hy2 & Hy3 & Hy4 & ->).
  apply skip_inr in Hs1 as ->.
  apply getnum_fixed_inr in Hmonth as (m1 & m2 & -> & Hm1 & Hm2 & ->).
  apply skip_inr in Hs2 as ->.
  apply getnum_fixed_inr in Hday as (d1 & d2 & -> & Hd1 & Hd2 & ->).
  apply fraction_range in Hfrac. apply getzone_range in Hzone.
  apply orb_false_iff in Hmr as [?%Z.leb_gt ?%Z.ltb_ge].
  apply orb_false_iff in Hhr as [?%Z.ltb_ge ?%Z.leb_gt].
  apply orb_false_iff in Hminr as [?%Z.ltb_ge ?%Z.leb_gt].
  apply orb_false_iff in Hsecr as [?%Z.ltb_ge ?%Z.leb_gt].
  apply orb_false_iff in Hdayr as [?%Z.ltb_ge ?%Z.ltb_ge].
  exists y1, y2, y3, y4, m1, m2, d1, d2, v5, hour, min, sec, ns, zoneOffset.
  cbv zeta. repeat (split; [first [reflexivity|assumption|lia]|]).
  reflexivity.
Qed.

End parse_facts.

(** The date of a time that [Parse] returns is the date written in the
    timestamp: its first ten bytes. *)
Lemma Format_of_Parse_RFC3339 value t :
  time.Parse_RFC3339 value = inr t →
  time.Format_2006_01_02 t = String.substring 0 10 value.
Proof.
  intros H.
  apply parse_facts.Parse_RFC3339_inr in H
    as (y1 & y2 & y3 & y4 & m1 & m2 & d1 & d2 & rest & hour & min & sec & ns & zo
        & -> & Hy1 & Hy2 & Hy3 & Hy4 & Hm1 & Hm2 & Hd1 & Hd2 & H).
  cbv zeta in H.
  destruct H as (Hmonth & Hday & Hhour & Hmin & Hsec & Hns & Hzo & ->).
  pose proof (parse_facts.digit_range _ Hy1). pose proof (parse_facts.digit_range _ Hy2).
  pose proof (parse_facts.digit_range _ Hy3). pose proof (parse_facts.digit_range _ Hy4).
  set (year := time.digit y1 * 1000 + time.digit y2 * 100 + time.digit y3 * 10
               + time.digit y4) in *.
  set (month := time.digit m1 * 10 + time.digit m2) in *.
  set (day := time.digit d1 * 10 + time.digit d2) in *.
  assert (0 <= year <= 9999) as Hyr by (subst year; lia).
  assert (time.absoluteZeroYear = -292277022399) as Hz by reflexivity.
  set (Y := year - time.absoluteZeroYear).
  assert (year = 400 * (Y / 400) + 100 * (Y mod 400 / 100) + 4 * (Y mod 100 / 4)
                 + Y mod 4 + time.absoluteZeroYear) as Hcycles.
  { subst Y. rewrite Hz. clearbody year. time_facts.lia_div. }
  unfold time.Format_2006_01_02.
  rewrite Hcycles.
  rewrite time_facts.absDate_abs_Date; rewrite <- ?Hcycles; try assumption;
    try (subst Y; rewrite ?Hz; clearbody year; time_facts.lia_div).
  subst year month day.
  rewrite parse_facts.appendInt4_digits, !parse_facts.appendInt2_digits by assumption.
  destruct rest; reflexivity.
Qed.

(** ** The country lookup *)

Lemma is_empty_true (s : string) : is_empty s = true ↔ s = EmptyString.
Proof. destruct s; simpl; split; congruence. Qed.

Lemma getCountryCode_requests net reqs lat lng :
  (getCountryCode net reqs lat lng).2 = reqs ++ [request_url lat lng].
Proof.
  unfold getCountryCode.
  destruct (net _ _) as [e|e|c]; try reflexivity.
  destruct (is_empty c); reflexivity.
Qed.

(** C8: the lookup returns a country code exactly when the reply decodes
    and its country-code field is not empty; a failed GET, a body that
    does not decode and a decoded body whose field is empty or missing
    each return the empty string and an [error], which differ in their
    message only. *)
Theorem getCountryCode_code_iff_decoded_nonempty net reqs lat lng :
  let reply := net (length reqs) (request_url lat lng) in
  let ret := (getCountryCode net reqs lat lng).1 in
  (∀ code, ret = (code, None) ↔ reply = Decoded code ∧ code ≠ EmptyString) ∧
  (∀ err, reply = GetFailed err → ret = (EmptyString, Some err)) ∧
  (∀ err, reply = DecodeFailed err → ret = (EmptyString, Some err)) ∧
  (reply = Decoded EmptyString →
   ret = (EmptyString,
          Some {| Error := ("no country found for lat: " ++ fmt_f 6 lat
                            ++ ", lng: " ++ fmt_f 6 lng)%string |})).
Proof.
  intros reply ret. subst reply ret. unfold getCountryCode.
  destruct (net _ _) as [e|e|c] eqn:Hreply; simpl.
  - repeat split; try congruence; intros; try discriminate; destruct_and?; discriminate.
  - repeat split; try congruence; intros; try discriminate; destruct_and?; discriminate.
  - destruct (is_empty c) eqn:Hc; simpl.
    + apply is_empty_true in Hc. subst c.
      repeat split; try congruence; intros; try discriminate.
      destruct_and?. congruence.
    + assert (c ≠ EmptyString) by (intros ->; discriminate).
      split; [|repeat split; intros; congruence].
      intros code; split.
      * intros [= <-]. split; [reflexivity|assumption].
      * intros [[= <-] _]. reflexivity.
Qed.

(** ** The loop *)

Section Loop.
Context (net : network).

Lemma loop_body_segment st obj seg :
  ActivitySegmentPtr obj = Some seg →
  loop_body net st obj = process_segment net st seg.
Proof.
  intros H. unfold process_segment, loop_body.
  cbn [ActivitySegmentPtr]. rewrite H. reflexivity.
Qed.

Lemma loop_body_no_segment st obj :
  ActivitySegmentPtr obj = None → loop_body net st obj = st.
Proof. intros H. unfold loop_body. rewrite H. reflexivity. Qed.

Lemma main_loop_segments objs : ∀ st,
  main_loop net st objs = foldl (process_segment net) st (segments objs).
Proof.
  unfold main_loop, segments.
  induction objs as [|obj objs IH]; intros st; simpl; [reflexivity|].
  destruct (ActivitySegmentPtr obj) as [seg|] eqn:Hobj; simpl.
  - rewrite (loop_body_segment _ _ _ Hobj). apply IH.
  - rewrite (loop_body_no_segment _ _ Hobj). apply IH.
Qed.

Lemma process_segment_requests st seg :
  requests (process_segment net st seg) = requests st ++ [segment_url seg].
Proof.
  unfold process_segment, loop_body, segment_url. cbn [ActivitySegmentPtr].
  pose proof (getCountryCode_requests net (requests st)
    (toFloatCoord (LatitudeE7 (StartLocation seg)))
    (toFloatCoord (LongitudeE7 (StartLocation seg)))) as Hreq.
  destruct (getCountryCode _ _ _ _) as [[code [err|]] reqs]; cbn [snd requests] in *.
  - assumption.
  - destruct (time.Parse_RFC3339 _); cbn [requests]; assumption.
Qed.

Lemma process_segments_requests segs : ∀ st,
  requests (foldl (process_segment net) st segs)
  = requests st ++ (segment_url <$> segs).
Proof.
  induction segs as [|seg segs IH]; intros st; simpl.
  - by rewrite app_nil_r.
  - rewrite IH, process_segment_requests, <- app_assoc. reflexivity.
Qed.

(** The map after one segment: the segment's contribution when it is
    resolved, no change otherwise. *)
Lemma process_segment_map st seg :
  countryDistancesByDay (process_segment net st seg)
  = match resolve net (requests st) seg with
    | Some r => add_segment (countryDistancesByDay st) r
    | None => countryDistancesByDay st
    end.
Proof.
  unfold process_segment, loop_body, resolve. cbn [ActivitySegmentPtr].
  destruct (getCountryCode _ _ _ _) as [[code [err|]] reqs]; [reflexivity|].
  destruct (time.Parse_RFC3339 _) as [e|t]; [reflexivity|].
  unfold add_segment, kilometers.
  cbn [countryDistancesByDay country date distance_meters]. reflexivity.
Qed.

Lemma process_segments_map segs : ∀ st,
  countryDistancesByDay (foldl (process_segment net) st segs)
  = aggregate (countryDistancesByDay st) (resolved net (requests st) segs).
Proof.
  induction segs as [|seg segs IH]; intros st; simpl; [reflexivity|].
  rewrite IH, process_segment_map, process_segment_requests.
  destruct (resolve net (requests st) seg); reflexivity.
Qed.

End Loop.

(** C9: of the timeline objects of the input, the loop processes the
    ones that carry an [activitySegment], each once and in the order of
    the input: the run is the run of the loop body over these segments,
    they are as many as the objects that carry one, and the requests
    sent are theirs, in this order. *)
Theorem loop_processes_the_segments_in_order net st objs :
  main_loop net st objs = foldl (process_segment net) st (segments objs) ∧
  length (segments objs)
  = length (filter (λ obj, is_Some (ActivitySegmentPtr obj)) objs) ∧
  Some <$> segments objs = filter is_Some (ActivitySegmentPtr <$> objs) ∧
  requests (main_loop net st objs) = requests st ++ (segment_url <$> segments objs).
Proof.
  split; [apply main_loop_segments|].
  split; [|split].
  - unfold segments. induction objs as [|obj objs IH]; [reflexivity|].
    rewrite filter_cons. cbn [omap list_omap].
    destruct (decide (is_Some (ActivitySegmentPtr obj))) as [[seg Hseg]|Hnone].
    + rewrite Hseg. cbn [length]. by rewrite IH.
    + destruct (ActivitySegmentPtr obj) as [seg|]; [|exact IH].
      exfalso. apply Hnone. eauto.
  - unfold segments. induction objs as [|obj objs IH]; [reflexivity|].
    rewrite fmap_cons, filter_cons. cbn [omap list_omap].
    destruct (decide (is_Some (ActivitySegmentPtr obj))) as [[seg Hseg]|Hnone].
    + rewrite Hseg. rewrite fmap_cons. by rewrite IH.
    + destruct (ActivitySegmentPtr obj) as [seg|]; [|exact IH].
      exfalso. apply Hnone. eauto.
  - rewrite main_loop_segments. apply process_segments_requests.
Qed.

(** ** The aggregate *)

Lemma in_bucket_true c d r :
  in_bucket c d r = true ↔ country r = c ∧ date r = d.
Proof.
  unfold in_bucket. rewrite andb_true_iff, !String.eqb_eq. reflexivity.
Qed.

Lemma add_segment_lookup m r c :
  add_segment m r !! c
  = if decide (c = country r)
    then Some (<[date r := (default 0 (default ∅ (m !! c) !! date r) + kilometers r)%float]>
                 (default ∅ (m !! c)))
    else m !! c.
Proof.
  unfold add_segment.
  destruct (decide (c = country r)) as [->|Hne].
  - rewrite lookup_insert_eq.
    destruct (m !! country r) as [inner|] eqn:Hm; simpl.
    + rewrite Hm. reflexivity.
    + rewrite lookup_insert_eq. reflexivity.
  - rewrite lookup_insert_ne by congruence.
    destruct (m !! country r); [reflexivity|].
    rewrite lookup_insert_ne by congruence. reflexivity.
Qed.

Lemma bucket_default_empty m c d :
  default ∅ (m !! c) !! d = bucket m c d.
Proof. unfold bucket. destruct (m !! c); simpl; [reflexivity|apply lookup_empty]. Qed.

Lemma bucket_add_segment m r c d :
  bucket (add_segment m r) c d
  = if in_bucket c d r
    then Some (default 0 (bucket m c d) + kilometers r)%float
    else bucket m c d.
Proof.
  unfold bucket at 1. rewrite add_segment_lookup.
  destruct (in_bucket c d r) eqn:Hin.
  - apply in_bucket_true in Hin as [<- <-].
    rewrite decide_True by reflexivity. simpl.
    rewrite lookup_insert_eq, bucket_default_empty. reflexivity.
  - destruct (decide (c = country r)) as [->|Hne]; [|reflexivity]. simpl.
    assert (date r ≠ d) as Hd.
    { intros <-. rewrite (proj2 (in_bucket_true _ _ _)) in Hin by done. discriminate. }
    rewrite lookup_insert_ne by assumption. apply bucket_default_empty.
Qed.

Lemma contributions_cons c d r rs :
  contributions c d (r :: rs)
  = if in_bucket c d r then kilometers r :: contributions c d rs
    else contributions c d rs.
Proof.
  unfold contributions. rewrite filter_cons.
  destruct (decide (in_bucket c d r = true)) as [H|H].
  - rewrite H. reflexivity.
  - apply not_true_is_false in H. rewrite H. reflexivity.
Qed.

(** The bucket after a run from [m]: untouched when no segment falls
    into it, and otherwise its old value, zero when it had none, plus the
    contributions, added one after the other. *)
Lemma bucket_aggregate c d rs : ∀ m,
  bucket (aggregate m rs) c d
  = match contributions c d rs with
    | [] => bucket m c d
    | l => Some (fsum (default 0%float (bucket m c d)) l)
    end.
Proof.
  unfold aggregate.
  induction rs as [|r rs IH]; intros m; simpl; [reflexivity|].
  rewrite IH, contributions_cons, bucket_add_segment.
  destruct (in_bucket c d r); [|reflexivity].
  simpl. destruct (contributions c d rs); reflexivity.
Qed.

Lemma aggregate_country c rs : ∀ m,
  is_Some (aggregate m rs !! c) ↔ is_Some (m !! c) ∨ ∃ r, r ∈ rs ∧ country r = c.
Proof.
  unfold aggregate.
  induction rs as [|r rs IH]; intros m; simpl.
  - split; [auto|]. intros [H|(r & Hr & _)]; [done|]. by apply elem_of_nil in Hr.
  - rewrite IH, add_segment_lookup. split.
    + intros [H|(r' & Hr' & Hc)].
      * destruct (decide (c = country r)) as [->|Hne]; [|by left].
        right. exists r. split; [left|reflexivity].
      * right. exists r'. split; [by right|assumption].
    + intros [H|(r' & Hr' & Hc)].
      * left. destruct (decide (c = country r)); [eauto|assumption].
      * apply elem_of_cons in Hr' as [->|Hr'].
        -- left. rewrite decide_True by done. eauto.
        -- right. eauto.
Qed.

Lemma final_map net objs :
  countryDistancesByDay (main_loop net init objs)
  = aggregate ∅ (resolved net [] (segments objs)).
Proof. rewrite main_loop_segments, process_segments_map. reflexivity. Qed.

Lemma bucket_aggregate_empty c d rs :
  bucket (aggregate ∅ rs) c d = total (contributions c d rs).
Proof.
  rewrite bucket_aggregate. unfold total, bucket. rewrite lookup_empty.
  destruct (contributions c d rs); reflexivity.
Qed.

Lemma total_is_Some l : is_Some (total l) ↔ l ≠ [].
Proof.
  destruct l; simpl; split; try done; try (intros [? ?]; discriminate); eauto.
Qed.

Lemma contributions_nonempty c d rs :
  contributions c d rs ≠ [] ↔ ∃ r, r ∈ rs ∧ country r = c ∧ date r = d.
Proof.
  unfold contributions. split.
  - intros Hne.
    destruct (filter (λ r, in_bucket c d r = true) rs) as [|r l] eqn:Hf; [done|].
    assert (r ∈ filter (λ r, in_bucket c d r = true) rs) as Hr
      by (rewrite Hf; left).
    apply list_elem_of_filter in Hr as [Hin Hr].
    apply in_bucket_true in Hin as [? ?]. eauto.
  - intros (r & Hr & Hc & Hd) Hnil.
    assert (r ∈ filter (λ r, in_bucket c d r = true) rs) as Hin.
    { apply list_elem_of_filter. split; [|assumption].
      apply in_bucket_true. done. }
    destruct (filter _ rs); [by apply elem_of_nil in Hin|]. discriminate.
Qed.

(** C1: in the final map, the value under (country, date) is the sum of
    [distance / 1000.0] over the processed segments whose resolved
    country and derived date are this key, added in the order of
    processing from the zero value; there is a value exactly when there
    is such a segment, and the inner map of a country exists exactly when
    a processed segment resolved to this country. *)
Theorem bucket_is_sum_of_matching_segments net objs c d :
  let final := countryDistancesByDay (main_loop net init objs) in
  let rs := resolved net [] (segments objs) in
  bucket final c d = total (contributions c d rs) ∧
  (is_Some (bucket final c d) ↔ ∃ r, r ∈ rs ∧ country r = c ∧ date r = d) ∧
  (is_Some (final !! c) ↔ ∃ r, r ∈ rs ∧ country r = c).
Proof.
  intros final rs. subst final rs. rewrite final_map.
  split; [apply bucket_aggregate_empty|]. split.
  - rewrite bucket_aggregate_empty, total_is_Some. apply contributions_nonempty.
  - rewrite aggregate_country, lookup_empty. split.
    + intros [H|H]; [by destruct H|assumption].
    + auto.
Qed.

(** ** The bucket of a segment *)

(** The bucket of a segment that resolves to [c] and whose timestamp
    parses to [t]. *)
Lemma process_segment_bucket net st seg c t :
  (getCountryCode net (requests st)
     (toFloatCoord (LatitudeE7 (StartLocation seg)))
     (toFloatCoord (LongitudeE7 (StartLocation seg)))).1 = (c, None) →
  time.Parse_RFC3339 (StartTimestamp (Duration seg)) = inr t →
  bucket (countryDistancesByDay (process_segment net st seg))
    c (time.Format_2006_01_02 t)
  = Some (default 0 (bucket (countryDistancesByDay st) c (time.Format_2006_01_02 t))
          + float64_of_int (Distance seg) / 1000.0)%float.
Proof.
  intros Hcode Hparse.
  rewrite process_segment_map.
  assert (resolve net (requests st) seg
          = Some {| country := c; date := time.Format_2006_01_02 t;
                    distance_meters := Distance seg |}) as ->.
  { unfold resolve.
    destruct (getCountryCode _ _ _ _) as [[code err] reqs].
    cbn [fst] in Hcode. injection Hcode as -> ->.
    rewrite Hparse. reflexivity. }
  rewrite bucket_add_segment.
  rewrite (proj2 (in_bucket_true _ _ _)) by done.
  reflexivity.
Qed.

(** C5: when the start timestamp of a segment parses, the date of its
    bucket is the date written in the timestamp, year, month and day as
    they stand in its first ten bytes, whatever the offset is: the day is
    not moved to another zone.  "2024-03-01T09:00:00+01:00" gives
    "2024-03-01", and so does "2024-03-01T00:30:00+14:00", an instant of
    the 29th of February at offset zero. *)
Theorem bucket_date_is_the_date_written :
  (∀ net st seg c t,
     (getCountryCode net (requests st)
        (toFloatCoord (LatitudeE7 (StartLocation seg)))
        (toFloatCoord (LongitudeE7 (StartLocation seg)))).1 = (c, None) →
     time.Parse_RFC3339 (StartTimestamp (Duration seg)) = inr t →
     let written := String.substring 0 10 (StartTimestamp (Duration seg)) in
     time.Format_2006_01_02 t = written ∧
     bucket (countryDistancesByDay (process_segment net st seg)) c written
     = Some (default 0 (bucket (countryDistancesByDay st) c written)
             + float64_of_int (Distance seg) / 1000.0)%float) ∧
  (∃ t, time.Parse_RFC3339 "2024-03-01T09:00:00+01:00" = inr t ∧
        time.Format_2006_01_02 t = "2024-03-01"%string) ∧
  (∃ t, time.Parse_RFC3339 "2024-03-01T00:30:00+14:00" = inr t ∧
        time.Format_2006_01_02 t = "2024-03-01"%string ∧
        time.Format_2006_01_02
          {| time.unixSec := time.unixSec t; time.nsec := time.nsec t; time.offset := 0 |}
        = "2024-02-29"%string).
Proof.
  split; [|split].
  2:{ eexists. split; [vm_compute; reflexivity|vm_compute; reflexivity]. }
  2:{ eexists. split; [vm_compute; reflexivity|split; vm_compute; reflexivity]. }
  intros net st seg c t Hcode Hparse written. subst written.
  rewrite <- (Format_of_Parse_RFC3339 _ _ Hparse).
  split; [reflexivity|]. by apply process_segment_bucket.
Qed.

(** At the segment [way_back], the first of a run, resolved to "us". *)
Lemma bucket_date_is_the_date_written_witness :
  bucket (countryDistancesByDay (process_segment (always "us") init way_back))
    "us" (String.substring 0 10 (StartTimestamp (Duration way_back)))
  = Some (default 0 (bucket (countryDistancesByDay init) "us"
                       (String.substring 0 10 (StartTimestamp (Duration way_back))))
          + float64_of_int (Distance way_back) / 1000.0)%float.
Proof.
  refine (proj2 (proj1 bucket_date_is_the_date_written (always "us") init way_back
    "us"%string {| time.unixSec := 1709334000; time.nsec := 0; time.offset := -18000 |}
    _ _)); vm_compute; reflexivity.
Defined.

(** ** Negative distances *)

(** C10: the distance is not validated.  A segment with a negative
    distance, an [int] of 64 bits, that resolves to [c] and whose
    timestamp parses is added like any other: its bucket becomes the old
    total, zero if there was none, plus [distance / 1000.0], which is a
    negative float64; and there are runs in which a bucket total goes
    down and ends negative. *)
Theorem negative_distance_is_added :
  (∀ net st seg c t,
     - 2 ^ 63 <= Distance seg < 0 →
     (getCountryCode net (requests st)
        (toFloatCoord (LatitudeE7 (StartLocation seg)))
        (toFloatCoord (LongitudeE7 (StartLocation seg)))).1 = (c, None) →
     time.Parse_RFC3339 (StartTimestamp (Duration seg)) = inr t →
     bucket (countryDistancesByDay (process_segment net st seg))
       c (time.Format_2006_01_02 t)
     = Some (default 0 (bucket (countryDistancesByDay st) c (time.Format_2006_01_02 t))
             + float64_of_int (Distance seg) / 1000.0)%float ∧
     (float64_of_int (Distance seg) / 1000.0 <? 0)%float = true) ∧
  (∃ net before seg c d total_before total_after,
     Distance seg < 0 ∧
     bucket (countryDistancesByDay (main_loop net init before)) c d = Some total_before ∧
     bucket (countryDistancesByDay
               (process_segment net (main_loop net init before) seg)) c d
     = Some total_after ∧
     (total_after <? total_before)%float = true ∧
     (total_after <? 0)%float = true).
Proof.
  split.
  - intros net st seg c t Hneg Hcode Hparse.
    split; [by apply process_segment_bucket|by apply kilometers_negative].
  - exists (always "us"), [morning], way_back, "us"%string, "2024-03-01"%string,
      5%float, (-3)%float.
    repeat split; try (vm_compute; reflexivity).
Qed.

(** At the segment [way_back] of -8000 m, after the segment [morning]. *)
Lemma negative_distance_is_added_witness :
  let st := main_loop (always "us") init [morning] in
  let t := {| time.unixSec := 1709334000; time.nsec := 0; time.offset := -18000 |} in
  - 2 ^ 63 <= Distance way_back < 0 ∧
  bucket (countryDistancesByDay (process_segment (always "us") st way_back))
    "us" (time.Format_2006_01_02 t)
  = Some (default 0 (bucket (countryDistancesByDay st) "us" (time.Format_2006_01_02 t))
          + float64_of_int (Distance way_back) / 1000.0)%float ∧
  (float64_of_int (Distance way_back) / 1000.0 <? 0)%float = true.
Proof.
  assert (- 2 ^ 63 <= Distance way_back < 0) as Hneg by (vm_compute; split; congruence).
  split; [exact Hneg|].
  apply (proj1 negative_distance_is_added); [exact Hneg| |];
    vm_compute; reflexivity.
Defined.

(** ** Skipped segments *)

Lemma resolve_None_iff net reqs seg :
  resolve net reqs seg = None ↔
  (getCountryCode net reqs (toFloatCoord (LatitudeE7 (StartLocation seg)))
     (toFloatCoord (LongitudeE7 (StartLocation seg)))).1.2 ≠ None
  ∨ ∃ err, time.Parse_RFC3339 (StartTimestamp (Duration seg)) = inl err.
Proof.
  unfold resolve.
  destruct (getCountryCode _ _ _ _) as [[code [e|]] reqs']; simpl.
  - split; [left; discriminate|reflexivity].
  - destruct (time.Parse_RFC3339 _) as [e|t].
    + split; [right; eauto|reflexivity].
    + split; [discriminate|]. intros [H|[e H]]; [congruence|discriminate].
Qed.

(** [resolve] looks at the requests sent only to number its own. *)
Lemma resolve_ext net net' reqs reqs' seg :
  net (length reqs) (segment_url seg) = net' (length reqs') (segment_url seg) →
  resolve net reqs seg = resolve net' reqs' seg.
Proof.
  unfold resolve, getCountryCode, segment_url. intros ->. 
  destruct (net' _ _) as [e|e|c]; try reflexivity.
  destruct (is_empty c); reflexivity.
Qed.

Lemma resolved_ext segs : ∀ net net' reqs reqs',
  (∀ j u, (j < length segs)%nat →
          net (length reqs + j)%nat u = net' (length reqs' + j)%nat u) →
  resolved net reqs segs = resolved net' reqs' segs.
Proof.
  induction segs as [|seg segs IH]; intros net net' reqs reqs' Hnet; simpl; [reflexivity|].
  rewrite (resolve_ext net net' reqs reqs' seg).
  2:{ specialize (Hnet 0%nat (segment_url seg)). rewrite !Nat.add_0_r in Hnet.
      apply Hnet. simpl. lia. }
  rewrite (IH net net' (reqs ++ [segment_url seg]) (reqs' ++ [segment_url seg])).
  { reflexivity. }
  intros j u Hj. rewrite !length_app. simpl.
  specialize (Hnet (S j) u). rewrite <- !Nat.add_assoc. simpl.
  apply Hnet. simpl. lia.
Qed.

Lemma resolved_app net segs1 : ∀ reqs segs2,
  resolved net reqs (segs1 ++ segs2)
  = resolved net reqs segs1 ++ resolved net (reqs ++ (segment_url <$> segs1)) segs2.
Proof.
  induction segs1 as [|seg segs1 IH]; intros reqs segs2; simpl.
  - by rewrite app_nil_r.
  - rewrite IH, <- app_assoc. simpl.
    destruct (resolve net reqs seg); reflexivity.
Qed.

Lemma segments_app objs1 objs2 :
  segments (objs1 ++ objs2) = segments objs1 ++ segments objs2.
Proof. unfold segments. apply omap_app. Qed.

(** C2: a segment whose lookup returns an error, or whose start
    timestamp does not parse, leaves every bucket as it was, and the
    loop goes on: the lookups of the segments after it are sent as those
    before it were, and in the final map every bucket is the sum of the
    kilometers of the other segments that resolve into it, each of which
    has its bucket there.  The final map is the one of the run without
    this segment and its request. *)
Theorem skipped_segment_contributes_nothing net before obj seg after :
  let st := main_loop net init before in
  let final := countryDistancesByDay (main_loop net init (before ++ obj :: after)) in
  let others :=
    resolved net [] (segments before)
    ++ resolved net (segment_url <$> segments before ++ [seg]) (segments after) in
  ActivitySegmentPtr obj = Some seg →
  (getCountryCode net (requests st) (toFloatCoord (LatitudeE7 (StartLocation seg)))
     (toFloatCoord (LongitudeE7 (StartLocation seg)))).1.2 ≠ None
  ∨ (∃ err, time.Parse_RFC3339 (StartTimestamp (Duration seg)) = inl err) →
  countryDistancesByDay (loop_body net st obj) = countryDistancesByDay st ∧
  requests (main_loop net init (before ++ obj :: after))
  = segment_url <$> segments before ++ seg :: segments after ∧
  (∀ c d, bucket final c d = total (contributions c d others)) ∧
  (∀ r, r ∈ others → is_Some (bucket final (country r) (date r))) ∧
  final
  = countryDistancesByDay
      (main_loop (without_reply (length (requests st)) net) init (before ++ after)).
Proof.
  intros st final others Hobj Hfail.
  apply resolve_None_iff in Hfail.
  assert (requests st = segment_url <$> segments before) as Hreqs.
  { subst st. rewrite main_loop_segments, process_segments_requests. reflexivity. }
  assert (segments (before ++ obj :: after) = segments before ++ seg :: segments after)
    as Hsegs.
  { rewrite segments_app. unfold segments at 2. cbn [omap list_omap]. by rewrite Hobj. }
  assert (final = aggregate ∅ others) as Hfinal.
  { subst final others. rewrite final_map, Hsegs, resolved_app. cbn [resolved].
    rewrite app_nil_l, <- Hreqs, Hfail, Hreqs, fmap_app. reflexivity. }
  split; [|split; [|split; [|split]]].
  - rewrite (loop_body_segment _ _ _ _ Hobj), process_segment_map, Hfail. reflexivity.
  - rewrite main_loop_segments, process_segments_requests, Hsegs. reflexivity.
  - intros c d. rewrite Hfinal. apply bucket_aggregate_empty.
  - intros r Hr. rewrite Hfinal, bucket_aggregate_empty.
    apply total_is_Some, contributions_nonempty. eauto.
  - rewrite Hfinal, final_map. f_equal. subst others.
    rewrite segments_app, resolved_app, app_nil_l. f_equal.
    + apply resolved_ext. intros j u Hj. cbn [length].
      unfold without_reply. rewrite Hreqs, length_fmap, decide_True by (cbn; lia).
      reflexivity.
    + apply resolved_ext. intros j u Hj.
      unfold without_reply. rewrite Hreqs, !length_fmap, length_app. cbn [length].
      rewrite decide_False by lia. f_equal. lia.
Qed.

(** At the segment of [bad_timestamp], between [morning], 5000 m, and
    [evening], 7000 m. *)
Lemma skipped_segment_contributes_nothing_witness :
  bucket (countryDistancesByDay
            (main_loop (always "us") init ([morning] ++ bad_timestamp :: [evening])))
    "us" "2024-03-01" = Some 12%float ∧
  countryDistancesByDay
    (main_loop (always "us") init ([morning] ++ bad_timestamp :: [evening]))
  = countryDistancesByDay
      (main_loop
         (without_reply (length (requests (main_loop (always "us") init [morning])))
            (always "us"))
         init ([morning] ++ [evening])).
Proof.
  assert (∃ err, time.Parse_RFC3339 (StartTimestamp (Duration bad_segment)) = inl err)
    as Hfail by (exists time.errBad; vm_compute; reflexivity).
  pose proof (skipped_segment_contributes_nothing
    (always "us") [morning] bad_timestamp bad_segment [evening] eq_refl
    (or_intror Hfail)) as (_ & _ & Hbuckets & _ & Hwithout).
  split; [|exact Hwithout].
  rewrite Hbuckets. vm_compute. reflexivity.
Defined.

(** ** The order of the segments *)

Lemma total_Permutation_short (l1 l2 : list float) :
  l1 ≡ₚ l2 → (length l1 ≤ 2)%nat → total l1 = total l2.
Proof.
  intros Hp Hlen.
  destruct l1 as [|a [|b [|c l1]]]; simpl in Hlen; [| | |lia].
  - apply Permutation_nil_l in Hp as ->. reflexivity.
  - apply Permutation_singleton_l in Hp as ->. reflexivity.
  - pose proof (Permutation_length Hp) as Hl.
    destruct l2 as [|x [|y [|z l2]]]; try discriminate Hl.
    assert (x ∈ [a; b]) as Hx by (rewrite Hp; left).
    assert (y ∈ [a; b]) as Hy by (rewrite Hp; right; left).
    assert (a ∈ [x; y]) as Ha by (rewrite <- Hp; left).
    assert (b ∈ [x; y]) as Hb by (rewrite <- Hp; right; left).
    unfold total. f_equal.
    set_unfold.
    destruct Hx as [->|[->|[]]], Hy as [->|[->|[]]]; try reflexivity;
      try apply fsum_two.
    + destruct Hb as [->|[->|[]]]; reflexivity.
    + destruct Ha as [->|[->|[]]]; reflexivity.
Qed.

Lemma contributions_Permutation c d rs1 rs2 :
  rs1 ≡ₚ rs2 → contributions c d rs1 ≡ₚ contributions c d rs2.
Proof. intros H. unfold contributions. by rewrite H. Qed.

Lemma exact_meters_Permutation c d rs1 rs2 :
  rs1 ≡ₚ rs2 → exact_meters c d rs1 = exact_meters c d rs2.
Proof.
  intros H. unfold exact_meters.
  assert (distance_meters <$> filter (λ r, in_bucket c d r = true) rs1
          ≡ₚ distance_meters <$> filter (λ r, in_bucket c d r = true) rs2) as Hp
    by (by rewrite H).
  induction Hp; simpl; lia.
Qed.


(** A map of maps is known by its countries and its buckets. *)
Lemma report_eq (m1 m2 : gmap string (gmap string float)) :
  dom m1 = dom m2 →
  (∀ c d, bucket m1 c d = bucket m2 c d) →
  m1 = m2.
Proof.
  intros Hdom Hb. apply map_eq. intros c.
  assert (is_Some (m1 !! c) ↔ is_Some (m2 !! c)) as Hc
    by (rewrite <- !elem_of_dom, Hdom; reflexivity).
  destruct (m1 !! c) as [i1|] eqn:H1, (m2 !! c) as [i2|] eqn:H2.
  - f_equal. apply map_eq. intros d.
    specialize (Hb c d). unfold bucket in Hb. rewrite H1, H2 in Hb. exact Hb.
  - destruct (proj1 Hc) as [? ?]; [eauto|discriminate].
  - destruct (proj2 Hc) as [? ?]; [eauto|discriminate].
  - reflexivity.
Qed.



Lemma dom_aggregate_Permutation rs1 rs2 :
  rs1 ≡ₚ rs2 →
  dom (aggregate (∅ : gmap string (gmap string float)) rs1) = dom (aggregate ∅ rs2).
Proof.
  intros H. apply set_eq. intros c.
  rewrite !elem_of_dom, !aggregate_country.
  by setoid_rewrite H.
Qed.

(** The kilometers of the segments of a bucket are finite, and their
    magnitudes add up to the meters of the bucket, over 1000, but for
    one part in [2 ^ 53]. *)
Lemma contributions_value c d rs :
  abs_meters c d rs < 2 ^ 53 →
  Forall (λ x, finite64 x = true) (contributions c d rs) ∧
  1000 * 2 ^ 53 * abs_sum (contributions c d rs)
  <= (2 ^ 53 + 1) * (abs_meters c d rs * 2 ^ 1074).
Proof.
  unfold contributions, abs_meters.
  induction (filter (λ r, in_bucket c d r = true) rs) as [|r l IH]; intros Hm.
  - split; [constructor|]. cbn. lia.
  - cbn [fmap list_fmap foldr] in *.
    pose proof (abs_sum_nonneg (kilometers <$> l)) as Hnn.
    assert (0 <= foldr Z.add 0 ((λ r, Z.abs (distance_meters r)) <$> l)) as Hnn'.
    { clear. induction l; cbn; lia. }
    destruct IH as [Hfin Hsum]; [lia|].
    destruct (kilometers_facts.kilometers_value (distance_meters r)) as [Hf Hv]; [lia|].
    fold (kilometers r) in Hf, Hv.
    split; [constructor; assumption|].
    change (abs_sum (kilometers r :: (kilometers <$> l)))
      with (Z.abs (in_units (kilometers r)) + abs_sum (kilometers <$> l)).
    change (2 ^ 53) with 9007199254740992 in *.
    set (S := 2 ^ 1074) in *.
    lia.
Qed.

Lemma abs_meters_nonneg c d rs : 0 <= abs_meters c d rs.
Proof.
  unfold abs_meters.
  induction (filter (λ r, in_bucket c d r = true) rs); cbn; lia.
Qed.

(** The totals of a bucket of two runs that resolve the same segments,
    when the number of its segments times their meters is no more than
    2 000 000 000: they are within the tolerance. *)
Lemma total_within_tolerance c d rs1 rs2 :
  rs1 ≡ₚ rs2 →
  Z.of_nat (length (contributions c d rs1)) * abs_meters c d rs1 <= 2 * 10 ^ 9 →
  within_tolerance (total (contributions c d rs1)) (total (contributions c d rs2))
  = true.
Proof.
  intros Hp Hbound.
  pose proof (contributions_Permutation c d _ _ Hp) as Hc.
  pose proof (abs_meters_nonneg c d rs1) as Hm0.
  pose proof (contributions_value c d rs1) as Hval.
  set (l1 := contributions c d rs1) in *. set (l2 := contributions c d rs2) in *.
  set (Am := abs_meters c d rs1) in *.
  clearbody l1 l2 Am. clear Hp.
  destruct (decide (l1 = [])) as [E1|E1].
  { rewrite E1 in Hc |- *. apply Permutation_nil_l in Hc as <-. reflexivity. }
  assert (l2 ≠ []) as E2.
  { intros E2. rewrite E2 in Hc. by apply Permutation_nil_r in Hc. }
  assert (1 <= Z.of_nat (length l1)) as Hn by (destruct l1; [done|cbn [length]; lia]).
  change (2 * 10 ^ 9) with 2000000000 in Hbound.
  assert (Am <= 2000000000) as HAm by nia.
  destruct Hval as [Hfin Hsum].
  { change (2 ^ 53) with 9007199254740992. lia. }
  pose proof (abs_sum_nonneg l1) as HA0.
  set (A := abs_sum l1) in *.
  change (2 ^ 53) with 9007199254740992 in Hsum.
  assert (A = 0 ∨ Z.of_nat (length l1) <= 2 ^ 52) as Hlen.
  { change (2 ^ 52) with 4503599627370496.
    destruct (Z.eq_dec Am 0) as [Hz|Hz]; [left; rewrite Hz in Hsum; lia|right; nia]. }
  assert (1000 * 9007199254740992 * (Z.of_nat (length l1) * A)
          <= 9007199254740993 * (2000000000 * 2 ^ 1074)) as HnA.
  { transitivity (Z.of_nat (length l1) * (9007199254740993 * (Am * 2 ^ 1074))).
    - replace (1000 * 9007199254740992 * (Z.of_nat (length l1) * A))
        with (Z.of_nat (length l1) * (1000 * 9007199254740992 * A)) by ring.
      apply Z.mul_le_mono_nonneg_l; [lia|exact Hsum].
    - replace (Z.of_nat (length l1) * (9007199254740993 * (Am * 2 ^ 1074)))
        with (9007199254740993 * (Z.of_nat (length l1) * Am * 2 ^ 1074)) by ring.
      apply Z.mul_le_mono_nonneg_l; [lia|].
      apply Z.mul_le_mono_nonneg_r; [apply Z.pow_nonneg; lia|exact Hbound]. }
  destruct (fsum_Permutation_error l1 l2 Hc Hfin Hlen) as (H1 & H2 & Herr).
  { change (2 ^ 2096) with (2 ^ 1022 * 2 ^ 1074).
    set (S := 2 ^ 1074) in *.
    assert (0 < S) by (subst S; reflexivity).
    assert (9007199254740993 * 2000000000 < 1000 * 9007199254740992 * 2 ^ 1022)
      by reflexivity.
    nia. }
  destruct l1 as [|x1 l1']; [done|]. destruct l2 as [|x2 l2']; [done|].
  cbn [total].
  apply tolerance_facts.float_within_tolerance; [exact H1|exact H2|].
  change (2 ^ 1074) with (2 ^ 82 * 2 ^ 992) in HnA.
  set (U := 2 ^ 992) in *.
  assert (0 < U) by (subst U; reflexivity).
  change (2 ^ 53) with 9007199254740992.
  change (2 ^ 51) with 2251799813685248 in Herr.
  change (2 ^ 82) with 4835703278458516698824704 in HnA.
  lia.
Qed.

(** The kilometers of the segments of a bucket are finite when the
    distances are [int64]. *)
Lemma contributions_finite c d rs :
  (∀ r, r ∈ rs → - 2 ^ 63 <= distance_meters r <= 2 ^ 63) →
  Forall (λ x, finite64 x = true) (contributions c d rs) ∧
  abs_sum (contributions c d rs)
  <= Z.of_nat (length (contributions c d rs)) * (2 ^ 57 * 2 ^ 1074).
Proof.
  intros Hrange. unfold contributions.
  assert (∀ r, r ∈ filter (λ r, in_bucket c d r = true) rs →
               - 2 ^ 63 <= distance_meters r <= 2 ^ 63) as Hl.
  { intros r [_ Hr]%list_elem_of_filter. by apply Hrange. }
  clear Hrange.
  induction (filter (λ r, in_bucket c d r = true) rs) as [|r l IH].
  - split; [constructor|]. cbn. lia.
  - destruct IH as [Hfin Hsum]; [intros r' Hr'; apply Hl; by right|].
    destruct (kilometers_range_facts.kilometers_finite (distance_meters r)) as [Hf Hv];
      [apply Hl; by left|].
    fold (kilometers r) in Hf, Hv.
    cbn [fmap list_fmap length].
    split; [constructor; assumption|].
    change (abs_sum (kilometers r :: (kilometers <$> l)))
      with (Z.abs (in_units (kilometers r)) + abs_sum (kilometers <$> l)).
    set (B := 2 ^ 57 * 2 ^ 1074) in *. lia.
Qed.

(** The totals of a bucket of two runs that resolve the same segments:
    they differ by no more than [n] parts in [2 ^ 51] of the sum of the
    magnitudes of the [n] contributions. *)
Lemma total_error c d rs1 rs2 t1 t2 :
  rs1 ≡ₚ rs2 →
  (∀ r, r ∈ rs1 → - 2 ^ 63 <= distance_meters r <= 2 ^ 63) →
  Z.of_nat (length (contributions c d rs1)) <= 2 ^ 52 →
  total (contributions c d rs1) = Some t1 →
  total (contributions c d rs2) = Some t2 →
  finite64 t1 = true ∧ finite64 t2 = true ∧
  2 ^ 51 * Z.abs (in_units t1 - in_units t2)
  <= Z.of_nat (length (contributions c d rs1)) * abs_sum (contributions c d rs1).
Proof.
  intros Hp Hrange Hn H1 H2.
  pose proof (contributions_Permutation c d _ _ Hp) as Hc.
  destruct (contributions_finite c d rs1 Hrange) as [Hfin Hsum].
  set (l1 := contributions c d rs1) in *. set (l2 := contributions c d rs2) in *.
  clearbody l1 l2.
  destruct (fsum_Permutation_error l1 l2 Hc Hfin ltac:(by right)) as (F1 & F2 & Herr).
  { change (2 ^ 2096) with (2 ^ 965 * (2 ^ 57 * 2 ^ 1074)).
    set (B := 2 ^ 57 * 2 ^ 1074) in *.
    assert (0 < B) by (subst B; reflexivity).
    change (2 ^ 52) with 4503599627370496 in Hn.
    assert (4503599627370496 < 2 ^ 965) by reflexivity.
    nia. }
  destruct l1; [discriminate|]. destruct l2; [discriminate|].
  cbn [total] in H1, H2. injection H1 as <-. injection H2 as <-.
  done.
Qed.

(** C4, as the code has it: two runs that resolve the same segments in
    different orders end with the same countries and the same dates in
    each country; every bucket is the float64 sum, from left to right in
    the order of its run, of the same contributions, whose exact sum in
    meters is the same; a bucket with at most two contributions has the
    same total in both runs; with [int64] distances the two totals of a
    bucket of [n] contributions are finite and differ by no more than
    [n] parts in [2 ^ 51] of the sum of the magnitudes of the
    contributions, which is the rounding of the sums; they are within
    the tolerance 1e-9 when the number of the segments of the bucket
    times their meters, taken without sign, is no more than
    2 000 000 000, as for 100 segments that make 20 000 km; and the two
    maps are equal when no bucket receives its contributions in a
    different order. *)
Theorem permuted_segments_same_buckets net1 objs1 net2 objs2 :
  let rs1 := resolved net1 [] (segments objs1) in
  let rs2 := resolved net2 [] (segments objs2) in
  let final1 := countryDistancesByDay (main_loop net1 init objs1) in
  let final2 := countryDistancesByDay (main_loop net2 init objs2) in
  rs1 ≡ₚ rs2 →
  dom final1 = dom final2 ∧
  (∀ c d,
     (is_Some (bucket final1 c d) ↔ is_Some (bucket final2 c d)) ∧
     bucket final1 c d = total (contributions c d rs1) ∧
     bucket final2 c d = total (contributions c d rs2) ∧
     contributions c d rs1 ≡ₚ contributions c d rs2 ∧
     exact_meters c d rs1 = exact_meters c d rs2 ∧
     ((length (contributions c d rs1) ≤ 2)%nat →
      bucket final1 c d = bucket final2 c d) ∧
     ((∀ r, r ∈ rs1 → - 2 ^ 63 <= distance_meters r <= 2 ^ 63) →
      Z.of_nat (length (contributions c d rs1)) <= 2 ^ 52 →
      ∀ t1 t2,
        bucket final1 c d = Some t1 → bucket final2 c d = Some t2 →
        finite64 t1 = true ∧ finite64 t2 = true ∧
        2 ^ 51 * Z.abs (in_units t1 - in_units t2)
        <= Z.of_nat (length (contributions c d rs1))
           * abs_sum (contributions c d rs1)) ∧
     (Z.of_nat (length (contributions c d rs1)) * abs_meters c d rs1 <= 2 * 10 ^ 9 →
      within_tolerance (bucket final1 c d) (bucket final2 c d) = true)) ∧
  ((∀ c d, contributions c d rs1 = contributions c d rs2) → final1 = final2).
Proof.
  intros rs1 rs2 final1 final2 Hperm.
  subst final1 final2. rewrite !final_map. fold rs1 rs2.
  split; [by apply dom_aggregate_Permutation|]. split.
  - intros c d. rewrite !bucket_aggregate_empty.
    pose proof (contributions_Permutation c d _ _ Hperm) as Hc.
    split; [|split; [reflexivity|split; [reflexivity|split;
      [exact Hc|split; [by apply exact_meters_Permutation|split;
                        [by apply total_Permutation_short|split;
                         [intros Hrange Hn t1 t2; by apply total_error|
                          by apply total_within_tolerance]]]]]]].
    rewrite !total_is_Some. split; intros Hne Hnil.
    + rewrite Hnil in Hc. apply Permutation_nil_r in Hc. done.
    + rewrite Hnil in Hc. apply Permutation_nil_l in Hc. done.
  - intros Hsame. apply report_eq; [by apply dom_aggregate_Permutation|].
    intros c d. rewrite !bucket_aggregate_empty, Hsame. reflexivity.
Qed.

(** The claim C4 as it is stated fails.  The three segments of
    [cancel_first] and [cancel_last] are the same and all resolve, and
    the totals of their bucket are 0.04 km in one order and 0 km in the
    other: the 40 m are lost in the sum with 10^18 m before the way back
    takes the 10^18 m away.  Without a negative distance, the segments
    of [long_first] and [long_last] give totals that are neighbours in
    float64 and differ by 0.125 km. *)
Lemma permuted_segments_beyond_tolerance :
  (resolved (always "us") [] (segments cancel_first)
     ≡ₚ resolved (always "us") [] (segments cancel_last) ∧
   bucket (countryDistancesByDay (main_loop (always "us") init cancel_first))
     "us" "2024-03-01" = Some 0.04%float ∧
   bucket (countryDistancesByDay (main_loop (always "us") init cancel_last))
     "us" "2024-03-01" = Some 0%float ∧
   within_tolerance
     (bucket (countryDistancesByDay (main_loop (always "us") init cancel_first))
        "us" "2024-03-01")
     (bucket (countryDistancesByDay (main_loop (always "us") init cancel_last))
        "us" "2024-03-01") = false) ∧
  (resolved (always "us") [] (segments long_first)
     ≡ₚ resolved (always "us") [] (segments long_last) ∧
   bucket (countryDistancesByDay (main_loop (always "us") init long_first))
     "us" "2024-03-01" = Some 1000000000000000%float ∧
   bucket (countryDistancesByDay (main_loop (always "us") init long_last))
     "us" "2024-03-01" = Some 1000000000000000.125%float ∧
   within_tolerance
     (bucket (countryDistancesByDay (main_loop (always "us") init long_first))
        "us" "2024-03-01")
     (bucket (countryDistancesByDay (main_loop (always "us") init long_last))
        "us" "2024-03-01") = false).
Proof.
  split; (split; [|split; [|split]]); try (vm_compute; reflexivity).
  - vm_compute. apply perm_skip, perm_swap.
  - vm_compute. apply Permutation_cons_append with (l := [_; _]).
Qed.

(** At the runs over [short_first] and [short_last], 100 m, 200 m and
    300 m in two orders: the totals differ in their last bit, and are
    within the tolerance. *)
Lemma permuted_segments_same_buckets_witness :
  resolved (always "us") [] (segments short_first)
    ≡ₚ resolved (always "us") [] (segments short_last) ∧
  bucket (countryDistancesByDay (main_loop (always "us") init short_first))
    "us" "2024-03-01"
  ≠ bucket (countryDistancesByDay (main_loop (always "us") init short_last))
      "us" "2024-03-01" ∧
  within_tolerance
    (bucket (countryDistancesByDay (main_loop (always "us") init short_first))
       "us" "2024-03-01")
    (bucket (countryDistancesByDay (main_loop (always "us") init short_last))
       "us" "2024-03-01") = true.
Proof.
  assert (resolved (always "us") [] (segments short_first)
            ≡ₚ resolved (always "us") [] (segments short_last)) as H.
  { vm_compute. apply Permutation_cons_append with (l := [_; _]). }
  split; [exact H|]. split.
  - intros Hne. apply (f_equal (λ o, Prim2SF (default 0%float o))) in Hne.
    vm_compute in Hne. discriminate.
  - pose proof (permuted_segments_same_buckets
                  (always "us") short_first (always "us") short_last H)
      as (_ & Hbuckets & _).
    destruct (Hbuckets "us"%string "2024-03-01"%string)
      as (_ & _ & _ & _ & _ & _ & _ & Htol).
    apply Htol. vm_compute. discriminate.
Defined.

(** ** The report *)

Lemma report_lines_blocks r :
  report_lines r = header :: flat_map (block_lines r) (country_order r).
Proof.
  unfold report_lines. f_equal.
  induction (country_order r) as [|[c inner] l IH]; simpl; [reflexivity|].
  by rewrite IH.
Qed.

Lemma flat_map_Permutation_ext {A B} (f g : A → list B) l1 l2 :
  l1 ≡ₚ l2 → (∀ x, x ∈ l1 → f x ≡ₚ g x) → flat_map f l1 ≡ₚ flat_map g l2.
Proof.
  intros Hl Hfg.
  transitivity (flat_map g l1).
  - clear Hl. induction l1 as [|x l1 IH]; simpl; [reflexivity|].
    apply Permutation_app.
    + apply Hfg. left.
    + apply IH. intros y Hy. apply Hfg. by right.
  - by apply Permutation_flat_map.
Qed.

Lemma flat_map_ext_in {A B} (f g : A → list B) l :
  (∀ x, x ∈ l → f x = g x) → flat_map f l = flat_map g l.
Proof.
  induction l as [|x l IH]; intros Hfg; simpl; [reflexivity|].
  rewrite Hfg by left. rewrite IH; [reflexivity|].
  intros y Hy. apply Hfg. by right.
Qed.

Section Renderings.
Context (m : gmap string (gmap string float)) (r1 r2 : range_order).
Context (H1 : ranges_over m r1) (H2 : ranges_over m r2).

Lemma ranges_over_countries : country_order r1 ≡ₚ country_order r2.
Proof. destruct H1 as [-> _], H2 as [-> _]. reflexivity. Qed.

Lemma ranges_over_entry c inner :
  (c, inner) ∈ country_order r1 → m !! c = Some inner.
Proof.
  destruct H1 as [Hc _]. rewrite Hc. apply elem_of_map_to_list.
Qed.

Lemma ranges_over_dates c :
  c ∈ (country_order r1).*1 → date_order r1 c ≡ₚ date_order r2 c.
Proof.
  intros Hc. apply list_elem_of_fmap in Hc as ([c' inner] & -> & Hin).
  apply ranges_over_entry in Hin. simpl.
  rewrite (proj2 H1 _ _ Hin), (proj2 H2 _ _ Hin). reflexivity.
Qed.

Lemma ranges_over_lines : report_lines r1 ≡ₚ report_lines r2.
Proof.
  rewrite !report_lines_blocks. apply Permutation_cons; [reflexivity|].
  apply flat_map_Permutation_ext; [apply ranges_over_countries|].
  intros [c inner] Hin. unfold block_lines. simpl.
  apply Permutation_cons; [reflexivity|].
  apply Permutation_map, ranges_over_dates.
  apply list_elem_of_fmap. exists (c, inner). done.
Qed.

End Renderings.

Lemma Permutation_short {A} (l1 l2 : list A) :
  l1 ≡ₚ l2 → (length l2 ≤ 1)%nat → l1 = l2.
Proof.
  intros Hp Hlen. destruct l2 as [|x [|y l2]]; simpl in Hlen; [| |lia].
  - by apply Permutation_nil_r.
  - by apply Permutation_singleton_r.
Qed.

(** C6, as the code has it: the renderings of one map all begin with
    the same header line, name the same countries and give each country
    the same date lines, so that any two are permutations of each other,
    line by line; the order of the countries and of the dates of a
    country is the runtime's.  The text is one and the same when the map
    has at most one country and each country at most one date. *)
Theorem renderings_agree_up_to_order m text1 text2 :
  renders m text1 →
  renders m text2 →
  (∃ r1 r2,
     text1 = report_lines r1 ∧ text2 = report_lines r2 ∧
     (country_order r1).*1 ≡ₚ (country_order r2).*1 ∧
     (∀ c, c ∈ (country_order r1).*1 → date_order r1 c ≡ₚ date_order r2 c)) ∧
  head text1 = Some header ∧
  head text2 = Some header ∧
  text1 ≡ₚ text2 ∧
  ((size m ≤ 1)%nat →
   (∀ c inner, m !! c = Some inner → (size inner ≤ 1)%nat) →
   text1 = text2).
Proof.
  intros (r1 & H1 & ->) (r2 & H2 & ->).
  split; [|split; [reflexivity|split; [reflexivity|split]]].
  - exists r1, r2. repeat split.
    + apply fmap_Permutation. by apply (ranges_over_countries m).
    + by apply (ranges_over_dates m).
  - by apply (ranges_over_lines m).
  - intros Hm Hinner.
    assert (∀ r, ranges_over m r → country_order r = map_to_list m) as Hco.
    { intros r [Hr _]. apply Permutation_short; [exact Hr|].
      by rewrite length_map_to_list. }
    rewrite !report_lines_blocks, (Hco r1 H1), (Hco r2 H2). f_equal.
    apply flat_map_ext_in. intros [c inner] Hin.
    apply elem_of_map_to_list in Hin.
    unfold block_lines. simpl. f_equal. f_equal.
    assert (∀ r, ranges_over m r → date_order r c = map_to_list inner) as Hdo.
    { intros r [_ Hr]. apply Permutation_short; [by apply Hr|].
      rewrite length_map_to_list. by apply (Hinner c). }
    by rewrite (Hdo r1 H1), (Hdo r2 H2).
Qed.

Lemma ranges_over_us_first : ranges_over us_and_fr us_first.
Proof.
  split.
  - unfold us_and_fr, us_first. simpl.
    rewrite map_to_list_insert by done.
    apply Permutation_cons; [reflexivity|].
    rewrite map_to_list_insert by done.
    by rewrite map_to_list_empty.
  - intros c inner. unfold us_and_fr, us_first, dates_of_us_and_fr. simpl.
    destruct (String.eqb_spec c "us") as [->|Hus].
    + rewrite lookup_insert_eq. intros [= <-]. by rewrite map_to_list_singleton.
    + rewrite lookup_insert_ne by done.
      destruct (decide (c = "fr"%string)) as [->|Hfr].
      * rewrite lookup_insert_eq. intros [= <-]. by rewrite map_to_list_singleton.
      * rewrite lookup_insert_ne by done. rewrite lookup_empty. discriminate.
Qed.

Lemma ranges_over_fr_first : ranges_over us_and_fr fr_first.
Proof.
  destruct ranges_over_us_first as [Hc Hd]. split; [|exact Hd].
  rewrite <- Hc. apply perm_swap.
Qed.

(** The claim C6 as it is stated fails: the map of the end-to-end
    scenario has a rendering with the block of "us" first and one with
    the block of "fr" first. *)
Lemma rendering_order_is_not_fixed :
  renders us_and_fr (report_lines us_first) ∧
  renders us_and_fr (report_lines fr_first) ∧
  bool_decide (report_lines us_first = report_lines fr_first) = false.
Proof.
  split; [|split].
  - exists us_first. split; [apply ranges_over_us_first|reflexivity].
  - exists fr_first. split; [apply ranges_over_fr_first|reflexivity].
  - vm_compute. reflexivity.
Qed.

(** At the two renderings of [us_and_fr]. *)
Lemma renderings_agree_up_to_order_witness :
  renders us_and_fr (report_lines us_first) ∧
  renders us_and_fr (report_lines fr_first) ∧
  report_lines us_first ≡ₚ report_lines fr_first.
Proof.
  assert (renders us_and_fr (report_lines us_first)) as H1
    by (exists us_first; split; [apply ranges_over_us_first|reflexivity]).
  assert (renders us_and_fr (report_lines fr_first)) as H2
    by (exists fr_first; split; [apply ranges_over_fr_first|reflexivity]).
  split; [exact H1|]. split; [exact H2|].
  exact (proj1 (proj2 (proj2 (proj2
    (renderings_agree_up_to_order us_and_fr _ _ H1 H2))))).
Defined.

(** The end-to-end scenario of the specification: the map of the run is
    [us_and_fr], and with the block of "us" first the file reads as
    follows. *)
Example end_to_end_report :
  (∀ timeline, timeline_json end_to_end = Timeline timeline →
     countryDistancesByDay (main_loop (net end_to_end) init (TimelineObjects timeline))
     = us_and_fr) ∧
  sent (main end_to_end)
  = ["https://nominatim.openstreetmap.org/reverse?format=json&lat=40.000000&lon=-74.000000&zoom=3";
     "https://nominatim.openstreetmap.org/reverse?format=json&lat=48.856600&lon=2.352200&zoom=3"]%string ∧
  exit_code (main end_to_end) = 0 ∧
  file (main end_to_end)
  = Some ("distance_report_2024-03-02.txt"%string,
          [header;
           country_line "us"; date_line "2024-03-01" 5%float;
           country_line "fr"; date_line "2024-03-01" 3%float]) ∧
  date_line "2024-03-01" 5%float
  = String.append "  2024-03-01: 5.00 km" (String (ascii_of_nat 10) EmptyString).
Proof.
  split; [|repeat split; vm_compute; reflexivity].
  intros timeline [= <-]. vm_compute. reflexivity.
Qed.

(** ** Faults of the output file *)

Lemma length_substring_le n s : (String.length (substring 0 n s) <= String.length s)%nat.
Proof.
  revert n. induction s as [|c s IH]; intros [|n]; cbn [substring String.length]; try lia.
  specialize (IH n). lia.
Qed.

Lemma length_substring_lt n s :
  (n < String.length s)%nat → (String.length (substring 0 n s) < String.length s)%nat.
Proof.
  revert n. induction s as [|c s IH]; intros [|n]; cbn [substring String.length]; try lia.
  intros Hn. specialize (IH n). lia.
Qed.

(** What a write leaves in the file is no longer than its string, and
    shorter when it fails short. *)
Lemma write_one_bytes wf sw k s :
  (bytes (option_list (write_one wf sw k s)) <= String.length s)%nat ∧
  (wf k = true → (sw k < String.length s)%nat →
   (bytes (option_list (write_one wf sw k s)) < String.length s)%nat).
Proof.
  unfold write_one, bytes. destruct (wf k).
  - pose proof (length_substring_le (sw k) s) as Hle.
    split.
    + destruct (substring 0 (sw k) s); cbn in *; lia.
    + intros _ Hlt. pose proof (length_substring_lt _ _ Hlt) as Hlt'.
      destruct (substring 0 (sw k) s); cbn in *; lia.
  - split; [cbn; lia|discriminate].
Qed.

Lemma write_all_bytes wf sw lines : ∀ f : nat → nat,
  let parts := omap (λ '(k, s), write_one wf sw k s) (imap (λ k s, (f k, s)) lines) in
  (bytes parts <= bytes lines)%nat ∧
  (∀ k line, lines !! k = Some line → wf (f k) = true →
     (sw (f k) < String.length line)%nat → (bytes parts < bytes lines)%nat).
Proof.
  induction lines as [|s lines IH]; intros f; cbn zeta.
  - split; [reflexivity|]. intros k line Hk. discriminate.
  - cbn [imap omap list_omap].
    destruct (IH (f ∘ S)) as [Hle Hlt]. cbn zeta in Hle, Hlt.
    destruct (write_one_bytes wf sw (f 0%nat) s) as [Hle1 Hlt1].
    assert (∀ o (l : list string),
              bytes (match o with Some y => y :: l | None => l end)
              = (bytes (option_list o) + bytes l)%nat) as Hsplit.
    { intros [y|] l; unfold bytes; cbn; lia. }
    change (bytes (s :: lines)) with (String.length s + bytes lines)%nat.
    split.
    + rewrite Hsplit. unfold compose in *. lia.
    + intros [|k] line Hk Hfault Hshort; rewrite Hsplit; unfold compose in *.
      * injection Hk as <-. specialize (Hlt1 Hfault Hshort). lia.
      * specialize (Hlt k line Hk Hfault Hshort). lia.
Qed.

Lemma write_all_nothing wf sw lines :
  (∀ k, wf k = true) → (∀ k, sw k = 0%nat) → write_all wf sw lines = [].
Proof.
  intros Hfault Hshort. unfold write_all.
  assert (∀ (f : nat → nat) (l : list string),
    omap (λ '(k, s), write_one wf sw k s) (imap (λ k s, (f k, s)) l) = []) as Hgen.
  { intros f l. revert f. induction l as [|s l IH]; intros f; [reflexivity|].
    cbn [imap omap list_omap]. unfold write_one at 1. rewrite Hfault, Hshort.
    destruct s; cbn [substring]; apply (IH (f ∘ S)). }
  apply (Hgen id).
Qed.

(** C7 fails on the code.  When the file is created, [main] ends with
    exit code 0 and the message that the report is saved, whatever the
    writes do: when every [WriteString] fails and writes nothing, the
    file is empty, and when one [WriteString] fails short of its string,
    the file has fewer bytes than the report.  Only a failure of
    [os.Create] is fatal. *)
Theorem write_faults_are_dropped w timeline :
  let report :=
    report_lines (ranges w (countryDistancesByDay
      (main_loop (net w) init (TimelineObjects timeline)))) in
  timeline_json w = Timeline timeline →
  (create_error w = None →
   exit_code (main w) = 0 ∧
   last (printed (main w))
   = Some (PrintSaved ("distance_report_" ++ today w ++ ".txt")%string) ∧
   ((∀ k, write_fault w k = true) → (∀ k, short_write w k = 0%nat) →
    file (main w) = Some (("distance_report_" ++ today w ++ ".txt")%string, [])) ∧
   (∀ k line,
      report !! k = Some line → write_fault w k = true →
      (short_write w k < String.length line)%nat →
      ∃ parts,
        file (main w) = Some (("distance_report_" ++ today w ++ ".txt")%string, parts) ∧
        (bytes parts < bytes report)%nat)) ∧
  (∀ err, create_error w = Some err →
     exit_code (main w) = 1 ∧ file (main w) = None ∧
     last (printed (main w)) = Some (PrintCreateError err)).
Proof.
  intros report Hin. unfold main. rewrite Hin. split.
  - intros ->. cbn [exit_code printed file]. fold report.
    split; [reflexivity|]. split; [apply last_snoc|]. split.
    + intros Hfault Hshort. by rewrite write_all_nothing.
    + intros k line Hk Hfault Hshort. eexists. split; [reflexivity|].
      exact (proj2 (write_all_bytes (write_fault w) (short_write w) report id)
               k line Hk Hfault Hshort).
  - intros err ->. cbn [exit_code printed file].
    split; [reflexivity|]. split; [reflexivity|apply last_snoc].
Qed.

(** At the run [disk_full]. *)
Lemma write_faults_are_dropped_witness :
  exit_code (main disk_full) = 0 ∧
  file (main disk_full) = Some ("distance_report_2024-03-02.txt"%string, []).
Proof.
  pose proof (proj1 (write_faults_are_dropped disk_full _ eq_refl) eq_refl)
    as (Hexit & _ & Hfile & _).
  split; [exact Hexit|]. exact (Hfile (fun _ => eq_refl) (fun _ => eq_refl)).
Defined.

(** The run [disk_fills]: the file ends in the middle of its second
    line, the exit code is 0 and the last line printed says that the
    report is saved. *)
Example disk_fills_report :
  exit_code (main disk_fills) = 0 ∧
  last (printed (main disk_fills)) = Some (PrintSaved "distance_report_2024-03-02.txt") ∧
  file (main disk_fills)
  = Some ("distance_report_2024-03-02.txt"%string, [header; "Count"%string]).
Proof. repeat split; vm_compute; reflexivity. Qed.

(** * Further properties of the code *)

(** ** What the loop prints *)

Lemma process_segment_stdout net st seg :
  match resolve net (requests st) seg with
  | Some _ => stdout (process_segment net st seg) = stdout st
  | None =>
      ∃ p, is_skip_announcement p = true ∧
           stdout (process_segment net st seg) = stdout st ++ [p]
  end.
Proof.
  unfold process_segment, loop_body, resolve. cbn [ActivitySegmentPtr].
  destruct (getCountryCode _ _ _ _) as [[code [err|]] reqs].
  - eexists. split; [|reflexivity]. reflexivity.
  - destruct (time.Parse_RFC3339 _) as [e|t]; [|reflexivity].
    eexists. split; [|reflexivity]. reflexivity.
Qed.

Lemma process_segments_stdout net segs : ∀ st,
  ∃ announced,
    stdout (foldl (process_segment net) st segs) = stdout st ++ announced ∧
    Forall (λ p, is_skip_announcement p = true) announced ∧
    (length announced + length (resolved net (requests st) segs))%nat = length segs.
Proof.
  induction segs as [|seg segs IH]; intros st.
  - exists []. rewrite app_nil_r. done.
  - cbn [foldl resolved].
    destruct (IH (process_segment net st seg)) as (ps & Hout & Hall & Hlen).
    rewrite process_segment_requests in Hlen.
    pose proof (process_segment_stdout net st seg) as Hseg.
    destruct (resolve net (requests st) seg) as [r|].
    + exists ps. rewrite Hout, Hseg. cbn [length]. split; [done|]. split; [done|lia].
    + destruct Hseg as (p & Hp & Hseg).
      exists (p :: ps). rewrite Hout, Hseg, <- app_assoc.
      split; [done|]. split; [by constructor|]. cbn [length]. lia.
Qed.

(** X1: every segment is either counted or announced.  What a run of the
    loop prints are announcements of skipped segments, one for each
    segment that did not resolve and none for the others: the skipped
    segments and the resolved ones are all the segments. *)
Theorem every_segment_is_counted_or_announced net st objs :
  ∃ announced,
    stdout (main_loop net st objs) = stdout st ++ announced ∧
    Forall (λ p, is_skip_announcement p = true) announced ∧
    (length announced + length (resolved net (requests st) (segments objs)))%nat
    = length (segments objs).
Proof. rewrite main_loop_segments. apply process_segments_stdout. Qed.

(** ** The buckets a segment touches *)

Lemma resolve_Some_inv net reqs seg r :
  resolve net reqs seg = Some r →
  ∃ t, (getCountryCode net reqs (toFloatCoord (LatitudeE7 (StartLocation seg)))
          (toFloatCoord (LongitudeE7 (StartLocation seg)))).1 = (country r, None) ∧
       time.Parse_RFC3339 (StartTimestamp (Duration seg)) = inr t ∧
       date r = time.Format_2006_01_02 t ∧
       distance_meters r = Distance seg.
Proof.
  unfold resolve.
  destruct (getCountryCode _ _ _ _) as [[code [e|]] reqs']; [discriminate|].
  destruct (time.Parse_RFC3339 _) as [e|t]; [discriminate|].
  intros [= <-]. exists t. done.
Qed.

(** X2: one iteration of the loop changes at most one bucket, the one of
    the country and date of its segment.  Either the object has no
    segment, or the lookup of its segment returns an error, or its
    timestamp does not parse, and the map is left as it is; or the
    lookup returns a country and the timestamp parses to a date, and
    then the bucket of this country and date is its former value, or
    zero, plus the kilometers of the segment, every other bucket keeps
    its value and the country is the one key that the map can gain.  No
    bucket and no country is removed. *)
Theorem loop_body_changes_one_bucket net st obj :
  let m := countryDistancesByDay st in
  let m' := countryDistancesByDay (loop_body net st obj) in
  ((m' = m ∧
    (ActivitySegmentPtr obj = None ∨
     ∃ seg, ActivitySegmentPtr obj = Some seg ∧
       ((getCountryCode net (requests st)
           (toFloatCoord (LatitudeE7 (StartLocation seg)))
           (toFloatCoord (LongitudeE7 (StartLocation seg)))).1.2 ≠ None
        ∨ ∃ err, time.Parse_RFC3339 (StartTimestamp (Duration seg)) = inl err)))
   ∨
   (∃ seg c t,
      ActivitySegmentPtr obj = Some seg ∧
      (getCountryCode net (requests st)
         (toFloatCoord (LatitudeE7 (StartLocation seg)))
         (toFloatCoord (LongitudeE7 (StartLocation seg)))).1 = (c, None) ∧
      time.Parse_RFC3339 (StartTimestamp (Duration seg)) = inr t ∧
      bucket m' c (time.Format_2006_01_02 t)
      = Some (default 0 (bucket m c (time.Format_2006_01_02 t))
              + float64_of_int (Distance seg) / 1000.0)%float ∧
      (∀ c' d', (c', d') ≠ (c, time.Format_2006_01_02 t) →
                bucket m' c' d' = bucket m c' d') ∧
      dom m' = {[c]} ∪ dom m)) ∧
  (∀ c' d', is_Some (bucket m c' d') → is_Some (bucket m' c' d')) ∧
  dom m ⊆ dom m'.
Proof.
  intros m m'. subst m m'.
  destruct (ActivitySegmentPtr obj) as [seg|] eqn:Hobj.
  2:{ rewrite (loop_body_no_segment _ _ _ Hobj).
      split; [left; split; [reflexivity|by left]|done]. }
  rewrite (loop_body_segment _ _ _ _ Hobj), process_segment_map.
  destruct (resolve net (requests st) seg) as [r|] eqn:Hres.
  2:{ split; [|done]. left. split; [reflexivity|]. right. exists seg.
      split; [reflexivity|]. by apply resolve_None_iff. }
  destruct (resolve_Some_inv _ _ _ _ Hres) as (t & Hcode & Hparse & Hdate & Hdist).
  split; [|split].
  - right. exists seg, (country r), t. rewrite <- Hdate.
    split; [reflexivity|]. split; [exact Hcode|]. split; [exact Hparse|].
    split; [|split].
    + rewrite bucket_add_segment.
      replace (in_bucket (country r) (date r) r) with true
        by (symmetry; by apply in_bucket_true).
      unfold kilometers. rewrite Hdist. reflexivity.
    + intros c' d' Hne. rewrite bucket_add_segment.
      destruct (in_bucket c' d' r) eqn:Hin; [|reflexivity].
      apply in_bucket_true in Hin as [<- <-]. done.
    + apply set_eq. intros c'.
      rewrite elem_of_union, elem_of_singleton, !elem_of_dom, add_segment_lookup.
      destruct (decide (c' = country r)) as [->|Hne]; [split; eauto|].
      split; [by right|]. intros [?|?]; done.
  - intros c' d' Hsome. rewrite bucket_add_segment.
    destruct (in_bucket c' d' r); [eauto|assumption].
  - intros c' Hc'. apply elem_of_dom. apply elem_of_dom in Hc'.
    rewrite add_segment_lookup. destruct (decide (c' = country r)); [eauto|assumption].
Qed.

(** X3: a run of the loop never removes a key: the countries of the map
    it starts from are countries of the map it ends with, and so are the
    buckets; a bucket into which no resolved segment of the run falls
    keeps its value. *)
Theorem main_loop_keeps_the_keys net objs : ∀ st,
  dom (countryDistancesByDay st) ⊆ dom (countryDistancesByDay (main_loop net st objs)) ∧
  (∀ c d, is_Some (bucket (countryDistancesByDay st) c d) →
          is_Some (bucket (countryDistancesByDay (main_loop net st objs)) c d)) ∧
  (∀ c d, contributions c d (resolved net (requests st) (segments objs)) = [] →
          bucket (countryDistancesByDay (main_loop net st objs)) c d
          = bucket (countryDistancesByDay st) c d).
Proof.
  intros st. rewrite main_loop_segments, process_segments_map.
  split; [|split].
  - intros c Hc. apply elem_of_dom, aggregate_country. left. by apply elem_of_dom.
  - intros c d Hsome. rewrite bucket_aggregate.
    destruct (contributions c d _); [assumption|eauto].
  - intros c d Hnone. rewrite bucket_aggregate, Hnone. reflexivity.
Qed.

(** ** The keys of the report *)

Lemma resolve_Some net reqs seg r :
  resolve net reqs seg = Some r →
  country r ≠ EmptyString ∧ distance_meters r = Distance seg ∧
  ∃ t, time.Parse_RFC3339 (StartTimestamp (Duration seg)) = inr t ∧
       date r = time.Format_2006_01_02 t.
Proof.
  unfold resolve, getCountryCode.
  destruct (net _ _) as [e|e|code]; try discriminate.
  destruct (is_empty code) eqn:Hcode; cbn [negb]; [discriminate|].
  destruct (time.Parse_RFC3339 _) as [e|t]; [discriminate|].
  intros [= <-]. cbn [country date distance_meters].
  split; [|split; [reflexivity|eauto]].
  intros ->. discriminate.
Qed.

Lemma Format_is_calendar_date value t :
  time.Parse_RFC3339 value = inr t →
  is_calendar_date (time.Format_2006_01_02 t) = true.
Proof.
  intros H. rewrite (Format_of_Parse_RFC3339 _ _ H).
  apply parse_facts.Parse_RFC3339_inr in H
    as (y1 & y2 & y3 & y4 & m1 & m2 & d1 & d2 & rest & hour & min & sec & ns & zo
        & -> & Hy1 & Hy2 & Hy3 & Hy4 & Hm1 & Hm2 & Hd1 & Hd2 & H).
  cbv zeta in H. destruct H as (Hmonth & Hday & _).
  assert (String.substring 0 10
            (String y1 (String y2 (String y3 (String y4 (String "-"
               (String m1 (String m2 (String "-" (String d1 (String d2 rest))))))))))
          = String y1 (String y2 (String y3 (String y4 (String "-"
               (String m1 (String m2 (String "-" (String d1 (String d2 EmptyString))))))))))
    as -> by (destruct rest; reflexivity).
  unfold is_calendar_date.
  rewrite Hy1, Hy2, Hy3, Hy4, Hm1, Hm2, Hd1, Hd2, !Ascii.eqb_refl.
  cbn [andb].
  rewrite !(proj2 (Z.leb_le _ _)) by lia. reflexivity.
Qed.

Lemma resolved_elem net segs : ∀ reqs r,
  r ∈ resolved net reqs segs →
  country r ≠ EmptyString ∧ is_calendar_date (date r) = true ∧
  ∃ seg, seg ∈ segs ∧ distance_meters r = Distance seg.
Proof.
  induction segs as [|seg segs IH]; intros reqs r; cbn [resolved].
  - intros H. by apply elem_of_nil in H.
  - assert (r ∈ resolved net (reqs ++ [segment_url seg]) segs →
            country r ≠ EmptyString ∧ is_calendar_date (date r) = true ∧
            ∃ seg0, seg0 ∈ seg :: segs ∧ distance_meters r = Distance seg0) as Hrest.
    { intros Hr. destruct (IH _ _ Hr) as (Hc & Hd & seg0 & Hin & Hm).
      split; [done|]. split; [done|]. exists seg0. split; [by right|done]. }
    destruct (resolve net reqs seg) as [r0|] eqn:Hres; [|exact Hrest].
    intros [->|Hr]%elem_of_cons; [|by apply Hrest].
    apply resolve_Some in Hres as (Hc & Hm & t & Hparse & Hdate).
    split; [done|]. split.
    + rewrite Hdate. by apply (Format_is_calendar_date _ _ Hparse).
    + exists seg. split; [left|done].
Qed.

(** X4: the countries of the report are country codes with dates: in the
    final map no country is the empty string, and no country has an empty
    map of dates. *)
Theorem countries_are_nonempty_and_have_dates net objs c dateDistances :
  countryDistancesByDay (main_loop net init objs) !! c = Some dateDistances →
  c ≠ EmptyString ∧ dateDistances ≠ ∅.
Proof.
  rewrite final_map. intros Hc.
  assert (is_Some (aggregate ∅ (resolved net [] (segments objs)) !! c)) as Hsome by eauto.
  apply aggregate_country in Hsome as [Hempty|(r & Hr & <-)].
  { rewrite lookup_empty in Hempty. by destruct Hempty. }
  destruct (resolved_elem _ _ _ _ Hr) as (Hcode & _ & _).
  split; [exact Hcode|].
  assert (is_Some (bucket (aggregate ∅ (resolved net [] (segments objs)))
                     (country r) (date r))) as Hb.
  { rewrite bucket_aggregate_empty, total_is_Some.
    apply contributions_nonempty. eauto. }
  unfold bucket in Hb. rewrite Hc in Hb. cbn in Hb.
  intros ->. rewrite lookup_empty in Hb. by destruct Hb.
Qed.

(** At the run over [morning], resolved to "us". *)
Lemma countries_are_nonempty_and_have_dates_witness :
  countryDistancesByDay (main_loop (always "us") init [morning]) !! "us"
  = Some {["2024-03-01" := 5%float]} ∧
  "us"%string ≠ EmptyString ∧
  ({["2024-03-01" := 5%float]} : gmap string float) ≠ ∅.
Proof.
  assert (countryDistancesByDay (main_loop (always "us") init [morning]) !! "us"
          = Some {["2024-03-01" := 5%float]}) as H by (vm_compute; reflexivity).
  split; [exact H|].
  exact (countries_are_nonempty_and_have_dates _ _ _ _ H).
Defined.

(** X5: the dates of the report are calendar dates: every date under
    which the final map has a value is written as four digits, two and
    two with hyphens between, and names a month of the year and a day of
    that month. *)
Theorem dates_are_calendar_dates net objs c d :
  is_Some (bucket (countryDistancesByDay (main_loop net init objs)) c d) →
  is_calendar_date d = true.
Proof.
  rewrite final_map, bucket_aggregate_empty, total_is_Some.
  intros (r & Hr & _ & <-)%contributions_nonempty.
  by destruct (resolved_elem _ _ _ _ Hr) as (_ & Hd & _).
Qed.

(** At the run over [morning]. *)
Lemma dates_are_calendar_dates_witness :
  is_Some (bucket (countryDistancesByDay (main_loop (always "us") init [morning]))
             "us" "2024-03-01") ∧
  is_calendar_date "2024-03-01" = true.
Proof.
  assert (is_Some (bucket (countryDistancesByDay (main_loop (always "us") init [morning]))
                     "us" "2024-03-01")) as H.
  { exists 5%float. vm_compute. reflexivity. }
  split; [exact H|].
  exact (dates_are_calendar_dates _ _ _ _ H).
Defined.

(** ** The run as a whole *)

(** X6: [main] ends with exit code 0 exactly when the input file is read
    and decoded and the output file is created, and with 1 otherwise: no
    segment changes the exit code.  A file is created exactly in the runs
    that end with 0.  When the input is decoded the lookups of all its
    segments are sent, also when the output file cannot be created
    afterwards; when it is not, nothing is sent and one line is printed. *)
Theorem main_exit_code w :
  (exit_code (main w) = 0 ∨ exit_code (main w) = 1) ∧
  (exit_code (main w) = 0 ↔
   (∃ timeline, timeline_json w = Timeline timeline) ∧ create_error w = None) ∧
  (is_Some (file (main w)) ↔ exit_code (main w) = 0) ∧
  (∀ timeline, timeline_json w = Timeline timeline →
     sent (main w) = segment_url <$> segments (TimelineObjects timeline)) ∧
  ((∀ timeline, timeline_json w ≠ Timeline timeline) →
     sent (main w) = [] ∧ length (printed (main w)) = 1%nat).
Proof.
  unfold main.
  destruct (timeline_json w) as [err|err|timeline] eqn:Hin.
  - cbn [exit_code file sent printed].
    split; [by right|].
    split; [split; [discriminate|intros [[? ?] _]; discriminate]|].
    split; [split; [intros [? ?]; discriminate|discriminate]|].
    split; [intros ? ?; discriminate|]. intros _. done.
  - cbn [exit_code file sent printed].
    split; [by right|].
    split; [split; [discriminate|intros [[? ?] _]; discriminate]|].
    split; [split; [intros [? ?]; discriminate|discriminate]|].
    split; [intros ? ?; discriminate|]. intros _. done.
  - assert (∀ timeline0, Timeline timeline = Timeline timeline0 →
              requests (main_loop (net w) init (TimelineObjects timeline))
              = segment_url <$> segments (TimelineObjects timeline0)) as Hsent.
    { intros ? [= <-]. rewrite main_loop_segments, process_segments_requests. reflexivity. }
    destruct (create_error w) as [err|] eqn:Hcreate; cbn [exit_code file sent printed].
    + split; [by right|]. split; [|split; [|split]].
      * split; [discriminate|]. intros [_ ?]. discriminate.
      * split; [intros [? ?]; discriminate|discriminate].
      * exact Hsent.
      * intros Hno. by destruct (Hno timeline).
    + split; [by left|]. split; [|split; [|split]].
      * split; [eauto|reflexivity].
      * split; [reflexivity|eauto].
      * exact Hsent.
      * intros Hno. by destruct (Hno timeline).
Qed.

(** ** The lines of the report *)






(** ** float64: quotients and sums of numbers that are not negative *)

Module quotient_facts.
Import float_facts.

(** The quotient of two finite numbers of 53 digits, away from the
    limits of the exponent, is finite and has the sign of the two. *)
Lemma SFdiv_finite_53 s1 m1 e1 s2 m2 e2 :
  Zdigits2 (Zpos m1) = 53 → Zdigits2 (Zpos m2) = 53 →
  -1000 <= e1 - e2 <= 900 →
  ∃ m' e',
    SFdiv prec emax (S754_finite s1 m1 e1) (S754_finite s2 m2 e2)
    = S754_finite (xorb s1 s2) m' e'.
Proof.
  intros Hm1 Hm2 He.
  unfold SFdiv, SFdiv_core_binary. rewrite Hm1, Hm2, fexp_eq.
  replace (Z.min (Z.max (53 + e1 - (53 + e2) - 53) (-1074)) (e1 - e2))
    with (e1 - e2 - 53) by lia.
  replace (e1 - e2 - (e1 - e2 - 53)) with 53 by lia.
  pose proof (Zdigits2_bounds_inv m1) as Hb1. rewrite Hm1 in Hb1.
  pose proof (Zdigits2_bounds_inv m2) as Hb2. rewrite Hm2 in Hb2.
  change (2 ^ (53 - 1)) with 4503599627370496 in Hb1, Hb2.
  change (2 ^ 53) with 9007199254740992 in Hb1, Hb2.
  rewrite Z.shiftl_mul_pow2 by lia. change (2 ^ 53) with 9007199254740992.
  pose proof (Z_div_mod (Zpos m1 * 9007199254740992) (Zpos m2) ltac:(lia)) as Hdiv.
  destruct (Z.div_eucl (Zpos m1 * 9007199254740992) (Zpos m2)) as [q r].
  destruct Hdiv as [Hq Hr].
  assert (4503599627370496 <= q < 18014398509481984) as Hqb by nia.
  destruct q as [|q|q]; try lia.
  assert (Zdigits2 (Zpos q) = 53 ∨ Zdigits2 (Zpos q) = 54) as Hqd.
  { destruct (Z.lt_ge_cases (Zpos q) 9007199254740992).
    - left. apply Zdigits2_bounds; [lia|].
      change (2 ^ (53 - 1)) with 4503599627370496.
      change (2 ^ 53) with 9007199254740992. lia.
    - right. apply Zdigits2_bounds; [lia|].
      change (2 ^ (54 - 1)) with 9007199254740992.
      change (2 ^ 54) with 18014398509481984. lia. }
  destruct (binary_round_aux_finite (xorb s1 s2) q (e1 - e2 - 53)
              (new_location (Zpos m2) r)) as (m' & e' & Hres & _ & _); try lia.
  exists m', e'. exact Hres.
Qed.

End quotient_facts.

(** The degrees of an [int64] other than zero are a finite number. *)
Lemma toFloatCoord_finite coordE7 :
  - 2 ^ 63 <= coordE7 < 2 ^ 63 → coordE7 ≠ 0 →
  ∃ m e, Prim2SF (toFloatCoord coordE7) = S754_finite (coordE7 <? 0) m e.
Proof.
  intros Hrange Hnz.
  unfold toFloatCoord, float64_of_int. rewrite div_spec. unfold SF64div.
  change (Prim2SF 1e7%float) with (S754_finite false 5368709120000000 (-29)).
  destruct coordE7 as [|p|p]; [done| |]; cbn [binary_normalize].
  - destruct (float_facts.binary_round_int false p ltac:(lia))
      as (m1 & e1 & -> & Hm1 & He1).
    rewrite Prim2SF_SF2Prim by (apply float_facts.bounded_53; [exact Hm1|lia]).
    destruct (quotient_facts.SFdiv_finite_53 false m1 e1 false 5368709120000000 (-29)
                Hm1 eq_refl ltac:(lia)) as (m' & e' & ->).
    eauto.
  - destruct (float_facts.binary_round_int true p ltac:(lia))
      as (m1 & e1 & -> & Hm1 & He1).
    rewrite Prim2SF_SF2Prim by (apply float_facts.bounded_53; [exact Hm1|lia]).
    destruct (quotient_facts.SFdiv_finite_53 true m1 e1 false 5368709120000000 (-29)
                Hm1 eq_refl ltac:(lia)) as (m' & e' & ->).
    eauto.
Qed.

(** X8: the degrees of a coordinate are a finite number with the sign of
    the coordinate: for an [int64] other than zero, [toFloatCoord] is
    neither NaN nor an infinity nor a zero, negative exactly when its
    argument is and positive exactly when its argument is. *)
Theorem toFloatCoord_is_finite coordE7 :
  - 2 ^ 63 <= coordE7 < 2 ^ 63 → coordE7 ≠ 0 →
  (∃ m e, Prim2SF (toFloatCoord coordE7) = S754_finite (coordE7 <? 0) m e) ∧
  (toFloatCoord coordE7 <? 0)%float = (coordE7 <? 0) ∧
  (0 <? toFloatCoord coordE7)%float = (0 <? coordE7).
Proof.
  intros Hrange Hnz.
  destruct (toFloatCoord_finite coordE7 Hrange Hnz) as (m & e & Hfin).
  split; [eauto|].
  rewrite !ltb_spec, Hfin. change (Prim2SF 0) with (S754_zero false).
  destruct coordE7 as [|p|p]; [done| |]; split; reflexivity.
Qed.

(** At the longitude -74 degrees. *)
Lemma toFloatCoord_is_finite_witness :
  (toFloatCoord (-740000000) <? 0)%float = (-740000000 <? 0).
Proof.
  refine (proj1 (proj2 (toFloatCoord_is_finite (-740000000) _ _))).
  - vm_compute. split; [discriminate|reflexivity].
  - discriminate.
Defined.

Module sum_facts.
Import float_facts.

Lemma shr_nonneg mrs e n : 0 <= shr_m mrs → 0 <= shr_m (shr mrs e n).1.
Proof.
  intros Hm. unfold shr. destruct n as [|n|n]; cbn [fst]; try assumption.
  by apply iter_shr_1_digits.
Qed.

Lemma shr_fexp_nonneg m e l : 0 <= m → 0 <= shr_m (shr_fexp prec emax m e l).1.
Proof.
  intros Hm. unfold shr_fexp. apply shr_nonneg. by rewrite shr_m_of_loc.
Qed.

Lemma round_nearest_even_nonneg m l : 0 <= m → 0 <= round_nearest_even m l.
Proof.
  intros Hm. unfold round_nearest_even.
  destruct l as [|[]]; try lia. destruct (Z.even m); lia.
Qed.

(** Rounding a number that is not negative, with the sign plus. *)
Lemma binary_round_aux_not_negative m e l :
  0 <= m → not_negative (binary_round_aux prec emax false m e l).
Proof.
  intros Hm. unfold binary_round_aux.
  pose proof (shr_fexp_nonneg m e l Hm) as H1.
  destruct (shr_fexp prec emax m e l) as [mrs1 e1]. cbn [fst] in H1.
  pose proof (shr_fexp_nonneg _ e1 loc_Exact
                (round_nearest_even_nonneg _ (loc_of_shr_record mrs1) H1)) as H2.
  destruct (shr_fexp prec emax _ e1 loc_Exact) as [mrs2 e2]. cbn [fst] in H2.
  destruct (shr_m mrs2) as [|p|p]; [reflexivity| |lia].
  destruct (e2 <=? emax - prec); reflexivity.
Qed.

Lemma SFadd_not_negative x y :
  not_negative x → not_negative y → not_negative (SFadd prec emax x y).
Proof.
  unfold not_negative.
  destruct x as [sx|[]| |[] mx ex], y as [sy|[]| |[] my ey];
    try discriminate; try (intros _ _; reflexivity);
    try (destruct sx; intros _ _; reflexivity);
    try (destruct sy; intros _ _; reflexivity);
    try (destruct sx, sy; intros _ _; reflexivity).
  intros _ _. unfold SFadd. cbn [cond_Zopp].
  set (a := (shl_align mx ex (Z.min ex ey)).1).
  set (b := (shl_align my ey (Z.min ex ey)).1).
  change (Zpos a + Zpos b) with (Zpos (a + b)).
  cbn [binary_normalize]. unfold binary_round.
  destruct (shl_align (a + b) _ _) as [mz ez].
  apply binary_round_aux_not_negative. lia.
Qed.

End sum_facts.

Lemma float_add_not_negative (x y : float) :
  (0 <=? x)%float = true → (0 <=? y)%float = true → (0 <=? x + y)%float = true.
Proof.
  rewrite !leb_spec, add_spec. change (Prim2SF 0) with (S754_zero false).
  apply sum_facts.SFadd_not_negative.
Qed.

(** A distance that is not negative gives kilometers that are not. *)
Lemma kilometers_not_negative (distance : Z) :
  0 <= distance < 2 ^ 63 →
  (0 <=? float64_of_int distance / 1000.0)%float = true.
Proof.
  intros Hd. destruct distance as [|p|p]; try lia.
  - vm_compute. reflexivity.
  - unfold float64_of_int. cbn [binary_normalize].
    destruct (float_facts.binary_round_int false p ltac:(lia)) as (m & e & Hr & Hm & He).
    rewrite Hr, leb_spec, div_spec. unfold SF64div.
    rewrite Prim2SF_SF2Prim by (apply float_facts.bounded_53; [exact Hm|lia]).
    destruct (float_facts.SFdiv_1000_finite false m e Hm He) as (m' & e' & ->).
    reflexivity.
Qed.

Lemma fsum_not_negative l : ∀ start,
  (0 <=? start)%float = true →
  Forall (λ x, (0 <=? x)%float = true) l →
  (0 <=? fsum start l)%float = true.
Proof.
  unfold fsum. induction l as [|x l IH]; intros start Hstart Hl; [exact Hstart|].
  apply Forall_cons in Hl as [Hx Hl]. cbn [foldl].
  apply IH; [|exact Hl]. by apply float_add_not_negative.
Qed.

(** X9: distances that are not negative give totals that are not: when
    the distance of every segment of the input is an [int] from zero up,
    every value of the final map is zero or more, and so is no NaN. *)
Theorem totals_are_not_negative net objs c d v :
  (∀ seg, seg ∈ segments objs → 0 <= Distance seg < 2 ^ 63) →
  bucket (countryDistancesByDay (main_loop net init objs)) c d = Some v →
  (0 <=? v)%float = true.
Proof.
  intros Hdist. rewrite final_map, bucket_aggregate_empty.
  unfold total.
  destruct (contributions c d _) as [|x l] eqn:Hc; [discriminate|].
  intros [= <-]. change (fsum (0 + x) l) with (fsum 0 (x :: l)). rewrite <- Hc.
  apply fsum_not_negative; [vm_compute; reflexivity|].
  unfold contributions. apply Forall_fmap, Forall_forall.
  intros r [_ Hr]%list_elem_of_filter. cbn.
  destruct (resolved_elem _ _ _ _ Hr) as (_ & _ & seg & Hseg & Hm).
  unfold kilometers. rewrite Hm. apply kilometers_not_negative. by apply Hdist.
Qed.

(** At the run over [morning], 5000 m. *)
Lemma totals_are_not_negative_witness :
  bucket (countryDistancesByDay (main_loop (always "us") init [morning]))
    "us" "2024-03-01" = Some 5%float ∧
  (0 <=? 5)%float = true.
Proof.
  assert (bucket (countryDistancesByDay (main_loop (always "us") init [morning]))
            "us" "2024-03-01" = Some 5%float) as H by (vm_compute; reflexivity).
  split; [exact H|].
  refine (totals_are_not_negative (always "us") [morning] _ _ _ _ H).
  intros seg Hseg. vm_compute in Hseg.
  apply list_elem_of_singleton in Hseg as ->. vm_compute. split; [discriminate|reflexivity].
Defined.

(** ** The request: nothing to escape in a coordinate *)

Lemma QueryEscape_unreserved s : all_unreserved s = true → QueryEscape s = s.
Proof.
  induction s as [|c s IH]; [done|]. cbn [all_unreserved QueryEscape].
  intros [Hc Hs]%andb_prop. rewrite Hc. by rewrite IH.
Qed.

Lemma all_unreserved_app s1 s2 :
  all_unreserved (s1 ++ s2) = all_unreserved s1 && all_unreserved s2.
Proof.
  induction s1 as [|c s1 IH]; [done|].
  change (String c s1 ++ s2)%string with (String c (s1 ++ s2)).
  cbn [all_unreserved]. by rewrite IH, andb_assoc.
Qed.

Lemma all_unreserved_string_of_uint d :
  all_unreserved (DecimalString.NilEmpty.string_of_uint d) = true.
Proof. induction d; cbn [DecimalString.NilEmpty.string_of_uint all_unreserved]; done. Qed.

Lemma all_unreserved_decimal n : all_unreserved (decimal n) = true.
Proof.
  unfold decimal, DecimalString.NilZero.string_of_uint.
  destruct (N.to_uint _); try reflexivity; apply all_unreserved_string_of_uint.
Qed.

Lemma all_unreserved_zeros n : all_unreserved (zeros n) = true.
Proof. induction n; [done|]. cbn [zeros all_unreserved]. by rewrite IHn. Qed.

Lemma all_unreserved_fixed p q : all_unreserved (fixed p q) = true.
Proof.
  unfold fixed, pad_left. destruct p; [apply all_unreserved_decimal|].
  by rewrite !all_unreserved_app, !all_unreserved_decimal, all_unreserved_zeros.
Qed.

Lemma all_unreserved_fmt_f p x :
  Prim2SF x ≠ S754_infinity false → all_unreserved (fmt_f p x) = true.
Proof.
  unfold fmt_f. destruct (Prim2SF x) as [s|s| |s m e]; intros Hx.
  - rewrite all_unreserved_app, all_unreserved_fixed. by destruct s.
  - by destruct s.
  - reflexivity.
  - rewrite all_unreserved_app, all_unreserved_fixed. by destruct s.
Qed.

Lemma QueryEscape_toFloatCoord n :
  - 2 ^ 63 <= n < 2 ^ 63 →
  QueryEscape (fmt_f 6 (toFloatCoord n)) = fmt_f 6 (toFloatCoord n).
Proof.
  intros Hn. apply QueryEscape_unreserved, all_unreserved_fmt_f.
  destruct (decide (n = 0)) as [->|Hnz]; [vm_compute; discriminate|].
  destruct (toFloatCoord_finite n Hn Hnz) as (m & e & ->). discriminate.
Qed.

(** X10: [url.QueryEscape] leaves the text [%f] writes for a number as
    it is, at any precision, for every [float64] but plus infinity,
    whose sign it escapes. *)
Theorem QueryEscape_keeps_a_number p x :
  QueryEscape (fmt_f p x) = fmt_f p x ↔ Prim2SF x ≠ S754_infinity false.
Proof.
  split.
  - intros Heq Hinf. unfold fmt_f in Heq. rewrite Hinf in Heq. discriminate.
  - intros Hx. by apply QueryEscape_unreserved, all_unreserved_fmt_f.
Qed.

(** X11: the request for a segment whose start coordinates are [int64]
    carries the two numbers as [%f] wrote them, with six decimals, the
    latitude after the fixed parameter and the longitude before the
    zoom: nothing of them is escaped. *)
Theorem request_carries_the_coordinates seg :
  - 2 ^ 63 <= LatitudeE7 (StartLocation seg) < 2 ^ 63 →
  - 2 ^ 63 <= LongitudeE7 (StartLocation seg) < 2 ^ 63 →
  segment_url seg =
    (baseURL ++ "?format=json&lat="
       ++ fmt_f 6 (toFloatCoord (LatitudeE7 (StartLocation seg)))
       ++ "&lon=" ++ fmt_f 6 (toFloatCoord (LongitudeE7 (StartLocation seg)))
       ++ "&zoom=3")%string.
Proof.
  intros Hlat Hlng. unfold segment_url, request_url.
  by rewrite (QueryEscape_toFloatCoord _ Hlat), (QueryEscape_toFloatCoord _ Hlng).
Qed.

(** At [way_back]. *)
Lemma request_carries_the_coordinates_witness :
  segment_url way_back =
    (baseURL ++ "?format=json&lat="
       ++ fmt_f 6 (toFloatCoord (LatitudeE7 (StartLocation way_back)))
       ++ "&lon=" ++ fmt_f 6 (toFloatCoord (LongitudeE7 (StartLocation way_back)))
       ++ "&zoom=3")%string.
Proof.
  apply (request_carries_the_coordinates way_back);
    vm_compute; (split; [discriminate|reflexivity]).
Defined.
